(** * StreamCode: ABR transcode and packaging engine

    Shallow embedding of [encode.py] (ladder builder, filter-graph builder,
    HLS master playlist writer, geometry probers, job driver [main]) and of
    the progress translator [run] of [utils/ffmpegtools.py], followed by the
    properties established for them.

    Conventions.
    - Python [int] is [Z]; Python [float] is IEEE-754 binary64, taken from
      the Standard Library's executable specification [SpecFloat]
      ([prec = 53], [emax = 1024]).
    - Python [str] is [string]; [str(n)] on integers is the decimal printer
      of [DecimalString].
    - A Python computation that may raise is a value of [result]; a
      [try: ... except Exception:] block is [try_except].
    - [main] threads a [world] (file system and the two output streams)
      through a small state-and-exception monad; everything the external
      tools (ffmpeg, ffprobe, the operating system) decide is read from an
      [env] record. *)

From Stdlib Require Import ZArith Lia Ascii String DecimalString.
From Stdlib Require Import Floats.SpecFloat.
From Stdlib Require Import DecimalPos DecimalZ.
From Stdlib Require Import Sorting.Sorted Sorting.Permutation.
From stdpp Require Import base option list gmap strings.

Local Open Scope Z_scope.
Set Warnings "-register-all".

(* ================================================================== *)
(** * Python runtime: exceptions *)
(* ================================================================== *)

Inductive exn : Type :=
  | ZeroDivisionError
  | OverflowError
  | ValueError
  | KeyError
  | IndexError
  | TypeError
  | AttributeError
  | FileNotFoundError
  | CalledProcessError (returncode : Z)
  | JSONDecodeError
  | ParseError
  | OSError
  | RuntimeError (msg : string)
  | SystemExit (code : Z)
  | KeyboardInterrupt.

(** [SystemExit] and [KeyboardInterrupt] derive from [BaseException] only:
    [except Exception] lets them through. *)
Definition is_Exception (e : exn) : bool :=
  match e with
  | SystemExit _ | KeyboardInterrupt => false
  | _ => true
  end.

Inductive result (A : Type) : Type :=
  | Val (a : A)
  | Raise (e : exn).
Arguments Val {A} a.
Arguments Raise {A} e.

Definition rbind {A B} (r : result A) (k : A -> result B) : result B :=
  match r with
  | Val a => k a
  | Raise e => Raise e
  end.

Notation "x <- r ;; k" := (rbind r (fun x => k))
  (at level 100, r at next level, right associativity).

(** [try: body except Exception: handler]. *)
Definition try_except {A} (body : result A) (handler : exn -> result A) : result A :=
  match body with
  | Val a => Val a
  | Raise e => if is_Exception e then handler e else Raise e
  end.

Definition of_option {A} (o : option A) (e : exn) : result A :=
  match o with
  | Some a => Val a
  | None => Raise e
  end.

(* ================================================================== *)
(** * Python runtime: strings and integers *)
(* ================================================================== *)

(** [str(n)] for an [int]. *)
Definition str (n : Z) : string := NilZero.string_of_int (Z.to_int n).

(** [sep.join(parts)]. *)
Fixpoint join (sep : string) (parts : list string) : string :=
  match parts with
  | [] => ""
  | [p] => p
  | p :: ps => p +:+ sep +:+ join sep ps
  end.

(** [s.split(c)] for a one-character separator. *)
Fixpoint split_on (c : ascii) (s : string) : list string :=
  match s with
  | EmptyString => [""]
  | String a s' =>
      if Ascii.eqb a c then "" :: split_on c s'
      else match split_on c s' with
           | x :: xs => String a x :: xs
           | [] => [String a ""]
           end
  end.

(** [s.split(c, 1)]: cut at the first separator only. *)
Fixpoint split_once (c : ascii) (s : string) : list string :=
  match s with
  | EmptyString => [""]
  | String a s' =>
      if Ascii.eqb a c then [""; s']
      else match split_once c s' with
           | x :: xs => String a x :: xs
           | [] => [String a ""]
           end
  end.

(** [s.startswith(p)], returning what follows the prefix. *)
Fixpoint strip_prefix (p s : string) : option string :=
  match p, s with
  | EmptyString, _ => Some s
  | String a p', String b s' => if Ascii.eqb a b then strip_prefix p' s' else None
  | String _ _, EmptyString => None
  end.

Definition startswith (s p : string) : bool :=
  match strip_prefix p s with Some _ => true | None => false end.

(** [p in s] for strings. *)
Fixpoint contains (p s : string) : bool :=
  startswith s p ||
  match s with
  | EmptyString => false
  | String _ s' => contains p s'
  end.

(** ASCII white space as removed by [str.strip()]. *)
Definition is_space (c : ascii) : bool :=
  let n := nat_of_ascii c in
  ((9 <=? n)%nat && (n <=? 13)%nat) || ((28 <=? n)%nat && (n <=? 32)%nat).

Fixpoint lstrip (s : string) : string :=
  match s with
  | EmptyString => ""
  | String c s' => if is_space c then lstrip s' else s
  end.

Fixpoint rstrip (s : string) : string :=
  match s with
  | EmptyString => ""
  | String c s' =>
      match rstrip s' with
      | EmptyString => if is_space c then "" else String c ""
      | r => String c r
      end
  end.

Definition strip (s : string) : string := rstrip (lstrip s).

Definition digit_val (c : ascii) : option Z :=
  let n := nat_of_ascii c in
  if ((48 <=? n)%nat && (n <=? 57)%nat) then Some (Z.of_nat n - 48) else None.

(** Digits of an integer literal; single underscores may separate digits. *)
Fixpoint parse_digits (s : string) (acc : Z) (after_digit : bool) : option Z :=
  match s with
  | EmptyString => if after_digit then Some acc else None
  | String c s' =>
      match digit_val c with
      | Some d => parse_digits s' (10 * acc + d) true
      | None =>
          if Ascii.eqb c "_" && after_digit then parse_digits s' acc false
          else None
      end
  end.

(** [int(s)] on a string, base ten; [None] stands for [ValueError]. *)
Definition py_int (s : string) : option Z :=
  match strip s with
  | String "-" r => Z.opp <$> parse_digits r 0 false
  | String "+" r => parse_digits r 0 false
  | r => parse_digits r 0 false
  end.

(** [c not in s]. *)
Fixpoint no_char (c : ascii) (s : string) : bool :=
  match s with
  | EmptyString => true
  | String a s' => negb (Ascii.eqb a c) && no_char c s'
  end.

(** Characters a decimal numeral is made of. *)
Definition is_digit_or_minus (c : ascii) : bool :=
  match digit_val c with
  | Some _ => true
  | None => Ascii.eqb c "-"
  end.

(* ================================================================== *)
(** * Python runtime: floats (IEEE-754 binary64) *)
(* ================================================================== *)

Definition prec : Z := 53.
Definition emax : Z := 1024.

Definition float : Type := spec_float.

(** An integer as an exact, not necessarily normalised, binary number. *)
Definition raw_of_int (n : Z) : float :=
  match n with
  | Z0 => S754_zero false
  | Zpos p => S754_finite false p 0
  | Zneg p => S754_finite true p 0
  end.

(** [a / b] on two [int]s: the correctly rounded quotient;
    [ZeroDivisionError] for a zero divisor, [OverflowError] when the
    quotient exceeds the float range. *)
Definition py_truediv (a b : Z) : result float :=
  if b =? 0 then Raise ZeroDivisionError
  else match SFdiv prec emax (raw_of_int a) (raw_of_int b) with
       | S754_infinity _ => Raise OverflowError
       | q => Val q
       end.

(** [float(n)] for an [int]. *)
Definition py_float_of_int (n : Z) : result float :=
  match binary_normalize prec emax n 0 false with
  | S754_infinity _ => Raise OverflowError
  | f => Val f
  end.

Definition fmul (x y : float) : float := SFmul prec emax x y.

(** [n * x] with [n] an [int] and [x] a [float]. *)
Definition py_mul_int_float (n : Z) (x : float) : result float :=
  f <- py_float_of_int n ;; Val (fmul f x).

(** Round half to even of [m / 2^k], for [m >= 0]. *)
Definition round_half_even_shift (m k : Z) : Z :=
  let d := 2 ^ k in
  let q := m / d in
  let r := m mod d in
  match 2 * r ?= d with
  | Lt => q
  | Gt => q + 1
  | Eq => if Z.even q then q else q + 1
  end.

(** [round(x)] on a [float]: nearest integer, ties to even. *)
Definition py_round (x : float) : result Z :=
  match x with
  | S754_zero _ => Val 0
  | S754_infinity _ => Raise OverflowError
  | S754_nan => Raise ValueError
  | S754_finite s m e =>
      let n := if 0 <=? e then Zpos m * 2 ^ e
               else round_half_even_shift (Zpos m) (- e) in
      Val (if s then - n else n)
  end.

Definition flt (x y : float) : bool := SFltb x y.
Definition fle (x y : float) : bool := SFleb x y.

(** Two-argument [min] and [max]: the first argument wins ties and
    unordered comparisons. *)
Definition py_min (a b : float) : float := if flt b a then b else a.
Definition py_max (a b : float) : float := if flt a b then b else a.

Definition f0 : float := S754_zero false.
Definition f100 : float := Eval vm_compute in binary_normalize prec emax 100 0 false.
Definition f1000 : float := Eval vm_compute in binary_normalize prec emax 1000 0 false.

(** Truthiness of a float or of an int. *)
Definition float_truthy (x : float) : bool :=
  match x with S754_zero _ => false | _ => true end.

(* ================================================================== *)
(** * Ladder builder ([encode.py]) *)
(* ================================================================== *)

(** [RES_MAP]: resolution key to (width, height, bitrate). *)
Definition RES_MAP : list (string * (Z * Z * Z)) :=
  [ ("2160", (3840, 2160, 12000000));
    ("1440", (2560, 1440, 8000000));
    ("1080", (1920, 1080, 5000000));
    ("720",  (1280, 720,  2800000));
    ("480",  (854,  480,  1400000)) ].

(** [RES_MAP[r]], with [None] when [r not in RES_MAP]. *)
Fixpoint dict_get {V} (d : list (string * V)) (k : string) : option V :=
  match d with
  | [] => None
  | (k', v) :: d' => if String.eqb k k' then Some v else dict_get d' k
  end.

(** A rendition tuple [(w, h, br, name)]. *)
Record target : Type := Target {
  t_w : Z;
  t_h : Z;
  t_br : Z;
  t_name : string
}.

Definition even (x : Z) : Z := if x mod 2 =? 0 then x else x - 1.

(** [t.sort(key=lambda x: x[1], reverse=True)]: the stable sort by
    descending height.  Insertion places an element before the first
    one that is not taller, so entries of equal height keep their order. *)
Fixpoint insert_desc (x : target) (l : list target) : list target :=
  match l with
  | [] => [x]
  | y :: l' => if t_h y <=? t_h x then x :: y :: l' else y :: insert_desc x l'
  end.

Fixpoint sort_desc (l : list target) : list target :=
  match l with
  | [] => []
  | x :: l' => insert_desc x (sort_desc l')
  end.

(** Body of the [for r in renditions] loop of the ['source'] branch. *)
Fixpoint source_targets (ar : float) (renditions : list string) : result (list target) :=
  match renditions with
  | [] => Val []
  | r :: rs =>
      match dict_get RES_MAP r with
      | None => source_targets ar rs
      | Some (_W, _H, br) =>
          let H := _H in
          x <- py_mul_int_float H ar ;;
          n <- py_round x ;;
          let W := even n in
          rest <- source_targets ar rs ;;
          Val (Target W H br (str H +:+ "p") :: rest)
      end
  end.

(** Body of the loop of the other branch. *)
Fixpoint fixed_targets (renditions : list string) : list target :=
  match renditions with
  | [] => []
  | r :: rs =>
      match dict_get RES_MAP r with
      | Some (w, h, br) => Target w h br (str h +:+ "p") :: fixed_targets rs
      | None => fixed_targets rs
      end
  end.

Definition build_targets (renditions : list string) (mode : string)
    (src_w src_h : Z) : result (list target) :=
  t <- (if String.eqb mode "source" then
          ar <- (if negb (src_h =? 0) then py_truediv src_w src_h
                 else py_truediv 16 9) ;;
          source_targets ar renditions
        else Val (fixed_targets renditions)) ;;
  Val (sort_desc t).


(** ** Vocabulary for the ladder properties *)

(** Order on renditions by height, weak and strict. *)
Definition taller_eq (a b : target) : Prop := t_h b <= t_h a.
Definition taller (a b : target) : Prop := t_h b < t_h a.


(** [entries_of rs l]: [l] holds, in request order, one tuple for every
    occurrence of a key of [RES_MAP] in [rs], with that key's height,
    bitrate and label. *)
Inductive entries_of : list string -> list target -> Prop :=
  | entries_nil : entries_of [] []
  | entries_skip r rs l :
      dict_get RES_MAP r = None -> entries_of rs l -> entries_of (r :: rs) l
  | entries_keep r rs l W H br w :
      dict_get RES_MAP r = Some (W, H, br) -> entries_of rs l ->
      entries_of (r :: rs) (Target w H br (str H +:+ "p") :: l).

Definition entry_height (r : string) : option Z :=
  (fun v => v.1.2) <$> dict_get RES_MAP r.


(** Aspect ratios the ['source'] branch can meet for sane dimensions:
    zero, or a normalised float of moderate exponent. *)
Definition tame (x : float) : Prop :=
  match x with
  | S754_zero _ => True
  | S754_finite _ m e => 2 ^ 52 <= Zpos m < 2 ^ 53 /\ -117 <= e <= 12
  | _ => False
  end.

(* ================================================================== *)
(** * Filter-graph builder ([encode.py]) *)
(* ================================================================== *)

(** [enumerate(l)], indices as Python [int]s. *)
Fixpoint enumerate_from {A} (i : Z) (l : list A) : list (Z * A) :=
  match l with
  | [] => []
  | x :: l' => (i, x) :: enumerate_from (i + 1) l'
  end.

Definition enumerate {A} (l : list A) : list (Z * A) := enumerate_from 0 l.

(** [range(n)]. *)
Definition range (n : nat) : list Z := fst <$> enumerate (replicate n tt).

(** ["".join(parts)]. *)
Definition concat_str (parts : list string) : string := join "" parts.

Definition chain_of (i : Z) (t : target) : string :=
  "[v" +:+ str i +:+ "]scale=w=" +:+ str (t_w t) +:+ ":h=" +:+ str (t_h t)
  +:+ ":flags=bicubic,format=yuv420p,setsar=1[" +:+ ("v" +:+ str i +:+ "o") +:+ "]".

Definition build_filter_complex_for_targets (targets : list target)
    : string * list string :=
  let n := length targets in
  let split := "[0:v]split=" +:+ str (Z.of_nat n)
               +:+ concat_str ((fun i => "[v" +:+ str i +:+ "]") <$> range n) in
  let chains := (fun it => chain_of it.1 it.2) <$> enumerate targets in
  let out_labels := (fun it => "v" +:+ str it.1 +:+ "o") <$> enumerate targets in
  let fc := split +:+ ";" +:+ join ";" chains in
  (fc, out_labels).

(** ** Reading a filter-graph description back

    The filtergraph syntax of the encoder: filter chains are separated by
    [;]; inside a chain, link labels are written [[name]] and filters are
    separated by [,].  For a linear chain, the labels before the filter
    text are its inputs and the labels after it are its outputs. *)

Record filter_chain : Type := FilterChain {
  fc_inputs : list string;
  fc_filters : list string;
  fc_outputs : list string
}.

(** One [[label]text] segment: the label and the text up to the next
    opening bracket. *)
Definition link_segment (seg : string) : string * string :=
  match split_once "]" seg with
  | [l; t] => (l, t)
  | _ => (seg, "")
  end.

Fixpoint chain_of_segments (segs : list (string * string)) (ins : list string)
    : filter_chain :=
  match segs with
  | [] => FilterChain ins [] []
  | (l, txt) :: rest =>
      if String.eqb txt "" then chain_of_segments rest (ins ++ [l])
      else FilterChain (ins ++ [l]) (split_on "," txt) (fst <$> rest)
  end.

Definition parse_chain (s : string) : filter_chain :=
  chain_of_segments (link_segment <$> tail (split_on "[" s)) [].

Definition parse_filtergraph (fc : string) : list filter_chain :=
  parse_chain <$> split_on ";" fc.

(** The filter name: what precedes the first [=]. *)
Definition filter_name (f : string) : string :=
  match split_once "=" f with
  | n :: _ => n
  | [] => f
  end.

(** Number of chains reading the decoded source video stream [[0:v]]. *)
Definition count_source_inputs (g : list filter_chain) : nat :=
  length (filter (fun l => l = "0:v") (concat (fc_inputs <$> g))).

(** Number of filters with a given name in the whole graph. *)
Definition count_filters (name : string) (g : list filter_chain) : nat :=
  length (filter (fun f => filter_name f = name) (concat (fc_filters <$> g))).

(** ** Vocabulary for the filter-graph properties *)

(** The text of the split stage, as [build_filter_complex_for_targets]
    writes it for [n] renditions. *)
Definition split_text (n : nat) : string :=
  "[0:v]split=" +:+ str (Z.of_nat n)
  +:+ concat_str ((fun i => "[v" +:+ str i +:+ "]") <$> range n).

(** The chains a ladder of [n] renditions is expected to give. *)
Definition split_chain (n : nat) : filter_chain :=
  FilterChain ["0:v"] ["split=" +:+ str (Z.of_nat n)]
    ((fun i => "v" +:+ str i) <$> range n).

Definition scale_chain (i : Z) (t : target) : filter_chain :=
  FilterChain ["v" +:+ str i]
    [ "scale=w=" +:+ str (t_w t) +:+ ":h=" +:+ str (t_h t) +:+ ":flags=bicubic";
      "format=yuv420p"; "setsar=1" ]
    ["v" +:+ str i +:+ "o"].

(* ================================================================== *)
(** * HLS master playlist ([encode.py]) *)
(* ================================================================== *)

Definition master_lines (targets : list target) : list string :=
  ["#EXTM3U"; "#EXT-X-VERSION:3"] ++
  concat ((fun t =>
             let bw := t_br t + 128000 in
             [ "#EXT-X-STREAM-INF:BANDWIDTH=" +:+ str bw +:+ ",RESOLUTION="
                 +:+ str (t_w t) +:+ "x" +:+ str (t_h t);
               str (t_h t) +:+ "/index.m3u8" ]) <$> targets).

Definition newline : string := String (ascii_of_nat 10) "".
Definition newline_char : ascii := ascii_of_nat 10.

(** [write_hls_master]: the path written and the text written to it. *)
Definition write_hls_master (hls_dir base : string) (targets : list target)
    : string * string :=
  (hls_dir +:+ "/" +:+ base +:+ ".m3u8",
   join newline (master_lines targets) +:+ newline).

(** ** Reading a master playlist back *)

Record stream_inf : Type := StreamInf {
  si_attrs : list (string * string);
  si_uri : string
}.

Definition parse_attr (a : string) : string * string :=
  match split_once "=" a with
  | [k; v] => (k, v)
  | _ => (a, "")
  end.

(** Every [#EXT-X-STREAM-INF] tag with the line that follows it. *)
Fixpoint stream_infs (lines : list string) : list stream_inf :=
  match lines with
  | [] => []
  | l :: rest =>
      match strip_prefix "#EXT-X-STREAM-INF:" l with
      | Some attrs =>
          StreamInf (parse_attr <$> split_on "," attrs) (hd "" rest)
          :: stream_infs rest
      | None => stream_infs rest
      end
  end.

Definition parse_master (text : string) : list stream_inf :=
  stream_infs (split_on newline_char text).

(** The entry a rendition is expected to give in the master playlist. *)
Definition stream_inf_of (t : target) : stream_inf :=
  StreamInf [ ("BANDWIDTH", str (t_br t + 128000));
              ("RESOLUTION", str (t_w t) +:+ "x" +:+ str (t_h t)) ]
            (str (t_h t) +:+ "/index.m3u8").

(* ================================================================== *)
(** * Progress translator ([utils/ffmpegtools.py], [run]) *)
(* ================================================================== *)

(** The [progress] dictionary [{total_ms, base, label}]. *)
Record progress : Type := Progress {
  total_ms : option Z;
  p_base : string;
  p_label : string
}.

Definition two_digits (n : Z) : string :=
  if n <? 10 then "0" +:+ str n else str n.

(** [f"{x:.2f}"]: the exact binary value rounded half-even to two
    decimals. *)
Definition format_2f (x : float) : string :=
  match x with
  | S754_zero s => if s then "-0.00" else "0.00"
  | S754_infinity s => if s then "-inf" else "inf"
  | S754_nan => "nan"
  | S754_finite s m e =>
      let n := if 0 <=? e then Zpos m * 100 * 2 ^ e
               else round_half_even_shift (Zpos m * 100) (- e) in
      (if s then "-" else "") +:+ str (n / 100) +:+ "." +:+ two_digits (n mod 100)
  end.

(** The percentage computed for one marker. *)
Definition progress_pct (total : option Z) (out_ms : Z) : result float :=
  match total with
  | Some t =>
      if negb (t =? 0) && (0 <? t) then
        q <- py_truediv out_ms t ;;
        Val (py_max f0 (py_min f100 (fmul q f100)))
      else Val f0
  | None => Val f0
  end.

Definition progress_line (p : progress) (pct : float) : string :=
  "PROGRESS base=" +:+ p_base p +:+ " rend=" +:+ p_label p
  +:+ " pct=" +:+ format_2f pct.

(** The [try] block run for a line that starts with [out_time_ms=]. *)
Definition marker_body (p : progress) (line : string) : result string :=
  field <- match split_once "=" line with
           | [_; rest] => Val rest
           | _ => Raise IndexError
           end ;;
  out_ms <- of_option (py_int field) ValueError ;;
  pct <- progress_pct (total_ms p) out_ms ;;
  Val (progress_line p pct).

(** What one line of the encoder's output makes [run] print. *)
Definition handle_line (pr : option progress) (raw : string) : list string :=
  let line := strip raw in
  match pr with
  | Some p =>
      if startswith line "out_time_ms=" then
        match try_except (l <- marker_body p line ;; Val [l]) (fun _ => Val []) with
        | Val printed => printed
        | Raise _ => []
        end
      else [line]
  | None => [line]
  end.

(** [run(cmd, progress)]: the lines printed, then the outcome. *)
Definition run_progress (pr : option progress) (stdout_lines : list string)
    (returncode : Z) : list string * result unit :=
  (concat (handle_line pr <$> stdout_lines),
   if negb (returncode =? 0)
   then Raise (RuntimeError ("FFmpeg failed: " +:+ str returncode))
   else Val tt).

(** ** Vocabulary for the progress properties *)

(** The text of [n] hundredths with two decimals: [n = 5000] reads
    [50.00]. *)
Definition hundredths_text (n : Z) : string :=
  str (n / 100) +:+ "." +:+ str (n mod 100 / 10) +:+ str (n mod 10).

(* ================================================================== *)
(** * Geometry probers ([encode.py]) *)
(* ================================================================== *)

(** What running [ffprobe] through [subprocess.check_output] yields. *)
Inductive proc_result : Type :=
  | NoSuchBinary
  | ExitNonZero (code : Z)
  | Output (out : string).

Definition check_output (r : proc_result) : result string :=
  match r with
  | NoSuchBinary => Raise FileNotFoundError
  | ExitNonZero c => Raise (CalledProcessError c)
  | Output out => Val out
  end.

Definition probe_src_wh_body (r : proc_result) : result (Z * Z) :=
  out <- check_output r ;;
  match split_on "x" (strip out) with
  | [w; h] =>
      w' <- of_option (py_int w) ValueError ;;
      h' <- of_option (py_int h) ValueError ;;
      Val (w', h')
  | _ => Raise ValueError
  end.

Definition probe_src_wh (r : proc_result) : result (Z * Z) :=
  try_except (probe_src_wh_body r) (fun _ => Val (1920, 1080)).

(** A decoded JSON document. *)
Inductive json : Type :=
  | JNull
  | JBool (b : bool)
  | JInt (n : Z)
  | JFloat (x : float)
  | JStr (s : string)
  | JList (l : list json)
  | JObj (o : list (string * json)).

(** [ffprobe -of json] run through [check_output] and [json.loads]:
    the standard output is taken already decoded, [ProbeMalformed]
    standing for text the decoder rejects. *)
Inductive probe_json : Type :=
  | ProbeNoSuchBinary
  | ProbeExitNonZero (code : Z)
  | ProbeMalformed
  | ProbeJson (doc : json).

Definition loads_output (r : probe_json) : result json :=
  match r with
  | ProbeNoSuchBinary => Raise FileNotFoundError
  | ProbeExitNonZero c => Raise (CalledProcessError c)
  | ProbeMalformed => Raise JSONDecodeError
  | ProbeJson doc => Val doc
  end.

Definition json_truthy (v : json) : bool :=
  match v with
  | JNull => false
  | JBool b => b
  | JInt n => negb (n =? 0)
  | JFloat x => float_truthy x
  | JStr s => negb (String.eqb s "")
  | JList l => match l with [] => false | _ => true end
  | JObj o => match o with [] => false | _ => true end
  end.

(** [v or d]. *)
Definition py_or (v d : json) : json := if json_truthy v then v else d.

(** [doc[k]] with a string key. *)
Definition getitem_key (doc : json) (k : string) : result json :=
  match doc with
  | JObj o => of_option (dict_get o k) KeyError
  | _ => Raise TypeError
  end.

(** [v[0]]. *)
Definition getitem_0 (v : json) : result json :=
  match v with
  | JList (x :: _) => Val x
  | JList [] => Raise IndexError
  | JStr (String c _) => Val (JStr (String c ""))
  | JStr EmptyString => Raise IndexError
  | JObj _ => Raise KeyError
  | _ => Raise TypeError
  end.

(** [info.get(k)]. *)
Definition dict_get_method (info : json) (k : string) : result json :=
  match info with
  | JObj o => Val (default JNull (dict_get o k))
  | _ => Raise AttributeError
  end.

(** [v.strip()]. *)
Definition strip_method (v : json) : result string :=
  match v with
  | JStr s => Val (strip s)
  | _ => Raise AttributeError
  end.

(** [int(x)] on a float: truncation toward zero. *)
Definition py_trunc (x : float) : result Z :=
  match x with
  | S754_zero _ => Val 0
  | S754_infinity _ => Raise OverflowError
  | S754_nan => Raise ValueError
  | S754_finite s m e =>
      let n := if 0 <=? e then Zpos m * 2 ^ e else Zpos m / 2 ^ (- e) in
      Val (if s then - n else n)
  end.

(** [int(v)]. *)
Definition int_of_json (v : json) : result Z :=
  match v with
  | JInt n => Val n
  | JBool b => Val (if b then 1 else 0)
  | JFloat x => py_trunc x
  | JStr s => of_option (py_int s) ValueError
  | _ => Raise TypeError
  end.

(** A computation that raises nothing [except Exception] lets through. *)
Definition catchable {A} (r : result A) : Prop :=
  forall e, r = Raise e -> is_Exception e = true.

(** ** [fractions.Fraction] *)

Record fraction : Type := Fraction { numerator : Z; denominator : Z }.

(** [Fraction(n, d)] on two [int]s: lowest terms, positive denominator. *)
Definition make_fraction (n d : Z) : result fraction :=
  if d =? 0 then Raise ZeroDivisionError
  else
    let g := Z.gcd n d in
    let g := if d <? 0 then - g else g in
    Val (Fraction (n / g) (d / g)).

Definition fraction_mul (a b : fraction) : result fraction :=
  make_fraction (numerator a * numerator b) (denominator a * denominator b).

(** The [while True] loop of [limit_denominator], on
    [(p0, q0, p1, q1, n, d)].  The divisor [d] decreases at every turn,
    so [fuel] above [d] is never used up. *)
Fixpoint limit_loop (fuel : nat) (max_den p0 q0 p1 q1 n d : Z)
    : result (Z * Z * Z * Z * Z) :=
  match fuel with
  | O => Raise (RuntimeError "fuel")
  | S fuel' =>
      if d =? 0 then Raise ZeroDivisionError
      else
        let a := n / d in
        let q2 := q0 + a * q1 in
        if max_den <? q2 then Val (p0, q0, p1, q1, d)
        else limit_loop fuel' max_den p1 q1 (p0 + a * p1) q2 d (n - a * d)
  end.

Definition limit_denominator (x : fraction) (max_den : Z) : result fraction :=
  if max_den <? 1 then Raise ValueError
  else if denominator x <=? max_den then Val x
  else
    st <- limit_loop (S (Z.to_nat (denominator x))) max_den 0 1 1 0
            (numerator x) (denominator x) ;;
    let '(p0, q0, p1, q1, d) := st in
    if q1 =? 0 then Raise ZeroDivisionError
    else
      let k := (max_den - q0) / q1 in
      if 2 * d * (q0 + k * q1) <=? denominator x
      then Val (Fraction p1 q1)
      else Val (Fraction (p0 + k * p1) (q0 + k * q1)).

(** The inner [try] of [probe_dar]: the sample aspect ratio as a pair,
    [1:1] when it is missing, malformed or not positive. *)
Definition parse_sar (sar : string) : Z * Z :=
  match try_except
          (match split_on ":" sar with
           | [sn; sd] =>
               sn' <- of_option (py_int sn) ValueError ;;
               sd' <- of_option (py_int sd) ValueError ;;
               Val (if (sn' <=? 0) || (sd' <=? 0) then (1, 1) else (sn', sd'))
           | _ => Raise ValueError
           end)
          (fun _ => Val (1, 1)) with
  | Val p => p
  | Raise _ => (1, 1)
  end.

Definition probe_dar_body (r : probe_json) : result string :=
  doc <- loads_output r ;;
  streams <- getitem_key doc "streams" ;;
  info <- getitem_0 streams ;;
  dar_v <- dict_get_method info "display_aspect_ratio" ;;
  dar <- strip_method (py_or dar_v (JStr "")) ;;
  if negb (String.eqb dar "")
     && negb (String.eqb dar "0:1" || String.eqb dar "N/A" || String.eqb dar "unknown")
  then Val dar
  else
    w_v <- dict_get_method info "width" ;;
    w <- int_of_json (py_or w_v (JInt 1920)) ;;
    h_v <- dict_get_method info "height" ;;
    h <- int_of_json (py_or h_v (JInt 1080)) ;;
    sar_v <- dict_get_method info "sample_aspect_ratio" ;;
    sar <- strip_method (py_or sar_v (JStr "1:1")) ;;
    let '(sn, sd) := parse_sar sar in
    f1 <- make_fraction w h ;;
    f2 <- make_fraction sn sd ;;
    frac <- fraction_mul f1 f2 ;;
    frac <- limit_denominator frac 1000 ;;
    Val (str (numerator frac) +:+ ":" +:+ str (denominator frac)).

Definition probe_dar (r : probe_json) : result string :=
  try_except (probe_dar_body r) (fun _ => Val "16:9").

(* ================================================================== *)
(** * Job driver ([encode.py], [main]): data *)
(* ================================================================== *)

(** The part of a DASH manifest that [main] reads and rewrites: the
    [AdaptationSet] elements in document order, each with its
    [Representation] children and the attributes looked at. *)
Record representation : Type := Representation {
  rep_id : option string;
  rep_width : option string;
  rep_height : option string
}.

Record adaptation_set : Type := AdaptationSet {
  as_contentType : option string;
  as_mimeType : option string;
  as_reps : list representation
}.

Definition mpd : Type := list adaptation_set.

Record track : Type := Track {
  tr_lang : string;
  tr_label : string;
  tr_src : string
}.

(** [job.json] and [player.json]. *)
Record job_json : Type := JobJson {
  j_input : string;
  j_outdir : string;
  j_codec : string;
  j_gpu : bool;
  j_renditions : list string;
  j_hls : bool;
  j_dash : bool;
  j_encrypt_hls : bool;
  j_finished_at : string
}.

Record player_json : Type := PlayerJson {
  pl_title : string;
  pl_codec : string;
  pl_duration_ms : Z;
  pl_poster : string;
  pl_sources : gmap string string;
  pl_subtitles : list track;
  pl_thumbnails : string;
  pl_renditions : list target
}.

Inductive content : Type :=
  | CText (text : string)
  | CBytes
  | CMpd (doc : mpd)
  | CJob (j : job_json)
  | CPlayer (p : player_json).

(** The external commands [run] echoes and starts; their argument
    vectors are not modelled beyond the filter graph they carry. *)
Inductive invocation : Type :=
  | PosterCmd
  | HlsCmd (fc : string) (out_labels : list string)
  | DashCmd (fc : string) (out_labels : list string).

Inductive out_event : Type :=
  | Line (s : string)
  | Echo (cmd : invocation).

(** The file system and the two streams.  [w_dirs] maps a directory to
    the names of the encoder's files in it; [w_files] holds the files
    the job writes itself and the DASH manifest. *)
Record world : Type := World {
  w_dirs : gmap string (list string);
  w_files : gmap string content;
  w_out : list out_event;
  w_err : list string
}.

Definition empty_world : world := World ∅ ∅ [] [].

(** Command-line arguments after [argparse]. *)
Record args : Type := Args {
  a_codec : string;
  a_gpu : bool;
  a_renditions : string;
  a_hls : bool;
  a_dash : bool;
  a_encrypt_hls : bool;
  a_extract_subs : bool;
  a_srt : option string;
  a_ffmpeg_bin : option string;
  a_ar_mode : string
}.

(** What [float(check_output(...).strip())] yields for the duration. *)
Inductive duration_probe : Type :=
  | DurNoSuchBinary
  | DurExitNonZero (code : Z)
  | DurUnparsable
  | DurSeconds (ts : float).

(** What a call to one of the subtitle helpers of [utils/subtitles.py]
    yields: a value, or an ordinary exception with its message. *)
Inductive outcome (A : Type) : Type :=
  | Returns (a : A)
  | Fails (msg : string).
Arguments Returns {A} a.
Arguments Fails {A} msg.

Definition of_outcome {A} (o : outcome A) : result A :=
  match o with
  | Returns a => Val a
  | Fails msg => Raise (RuntimeError msg)
  end.

(** Everything decided outside the program. *)
Record env : Type := Env {
  e_args : args;
  e_nt : bool;                       (* os.name == "nt" *)
  e_input_exists : bool;
  e_inp : string;                    (* resolved input path *)
  e_inp_name : string;               (* inp.name *)
  e_base : string;                   (* inp.stem *)
  e_out_root : string;               (* resolved --outdir *)
  e_now : string;                    (* formatted datetime.now() *)
  e_poster_rc : Z;
  e_srt_vtt : outcome (option string);
  e_embedded : outcome (list track);
  e_probe_wh : proc_result;
  e_probe_dar : probe_json;
  e_key_iv : string;
  e_hls_rc : Z;
  e_dash_rc : Z;
  e_dash_files : string -> list string;   (* encoder files per DASH directory *)
  e_mpd : option mpd;                (* the manifest written, if well formed *)
  e_mpd_write_ok : bool;             (* tree.write succeeds *)
  e_replace_ok : string -> string -> bool; (* os.replace(src, dst) succeeds *)
  e_duration : duration_probe;
  e_thumbs_exists : bool;
  e_path_name : string -> string;    (* Path(s).name *)
  e_sibling_ffprobe : option string; (* str(cand), if cand.exists() *)
  e_hls_files : string -> list string;    (* encoder files per HLS directory *)
  e_mpd_partial : option string      (* what a failed tree.write leaves behind *)
}.

(* ================================================================== *)
(** * Job driver: state-and-exception monad *)
(* ================================================================== *)

Definition M (A : Type) : Type := world -> result A * world.

Definition mret {A} (a : A) : M A := fun w => (Val a, w).

Definition mbind {A B} (m : M A) (k : A -> M B) : M B :=
  fun w => match m w with
           | (Val a, w') => k a w'
           | (Raise e, w') => (Raise e, w')
           end.

Notation "x <~ m ;; k" := (mbind m (fun x => k))
  (at level 100, m at next level, right associativity).
Notation "m ;;; k" := (mbind m (fun _ => k))
  (at level 100, right associativity).

Definition lift {A} (r : result A) : M A := fun w => (r, w).

Definition raise {A} (e : exn) : M A := lift (Raise e).

(** [try: body except Exception as e: handler]; effects of the body up
    to the exception stay. *)
Definition try_m {A} (body : M A) (handler : exn -> M A) : M A :=
  fun w => match body w with
           | (Val a, w') => (Val a, w')
           | (Raise e, w') => if is_Exception e then handler e w' else (Raise e, w')
           end.

Fixpoint for_each {A} (l : list A) (f : A -> M unit) : M unit :=
  match l with
  | [] => mret tt
  | x :: l' => f x ;;; for_each l' f
  end.

Definition print (s : string) : M unit :=
  fun w => (Val tt, World (w_dirs w) (w_files w) (w_out w ++ [Line s]) (w_err w)).

Definition echo (c : invocation) : M unit :=
  fun w => (Val tt, World (w_dirs w) (w_files w) (w_out w ++ [Echo c]) (w_err w)).

Definition eprint (s : string) : M unit :=
  fun w => (Val tt, World (w_dirs w) (w_files w) (w_out w) (w_err w ++ [s])).

(** The directories above a path: what precedes each [/] that is not
    its first character, the nearest first. *)
Fixpoint parents_from (pre s : string) : list string :=
  match s with
  | EmptyString => []
  | String a s' =>
      let above := parents_from (pre +:+ String a "") s' in
      if Ascii.eqb a "/" && negb (String.eqb pre "") then above ++ [pre] else above
  end.

Definition path_parents (p : string) : list string := parents_from "" p.

(** [mkdir] along a chain of directories, each the parent of the one
    before: a directory that exists ends the climb, a missing one is
    made after the ones above it. *)
Fixpoint mkdir_chain (dirs : gmap string (list string)) (chain : list string)
    : gmap string (list string) :=
  match chain with
  | [] => dirs
  | q :: above =>
      match dirs !! q with
      | Some _ => dirs
      | None => <[q := []]> (mkdir_chain dirs above)
      end
  end.

(** [ensure_dir(p)]: [mkdir(parents=True, exist_ok=True)]. *)
Definition ensure_dir (p : string) : M unit :=
  fun w => (Val tt,
            World (mkdir_chain (w_dirs w) (p :: path_parents p))
                  (w_files w) (w_out w) (w_err w)).

Definition write_file (p : string) (c : content) : M unit :=
  fun w => (Val tt, World (w_dirs w) (<[p := c]> (w_files w)) (w_out w) (w_err w)).

Definition set_dirs (d : gmap string (list string)) : M unit :=
  fun w => (Val tt, World d (w_files w) (w_out w) (w_err w)).

Definition get_world : M world := fun w => (Val w, w).

Definition path_join (a b : string) : string := a +:+ "/" +:+ b.

(** [run(cmd)] of [encode.py]: echo the command, start it, and raise
    on a non-zero exit status. *)
Definition run_cmd (c : invocation) (rc : Z) : M unit :=
  echo c ;;;
  if negb (rc =? 0) then raise (RuntimeError ("FFmpeg failed: " +:+ str rc))
  else mret tt.

(* ================================================================== *)
(** * Job driver: [main] *)
(* ================================================================== *)

Definition which_ffmpeg (nt : bool) (bin_path : option string) : string :=
  match bin_path with
  | Some p => if String.eqb p "" then (if nt then "ffmpeg.exe" else "ffmpeg") else p
  | None => if nt then "ffmpeg.exe" else "ffmpeg"
  end.

(** [which_ffprobe]: the sibling of the given encoder if it exists, else
    the name to look up; [with_name] raises [ValueError] on a path whose
    name is empty. *)
Definition which_ffprobe (E : env) : result string :=
  let fallback := if e_nt E then "ffprobe.exe" else "ffprobe" in
  match a_ffmpeg_bin (e_args E) with
  | Some p =>
      if String.eqb p "" then Val fallback
      else if String.eqb (e_path_name E p) "" then Raise ValueError
      else Val (default fallback (e_sibling_ffprobe E))
  | None => Val fallback
  end.

(** [str(e)] of an exception, as far as the log lines need it. *)
Definition exn_text (e : exn) : string :=
  match e with
  | RuntimeError msg => msg
  | CalledProcessError c => "Command returned non-zero exit status " +:+ str c
  | FileNotFoundError => "No such file or directory"
  | ParseError => "not well-formed"
  | OSError => "OSError"
  | _ => "error"
  end.

(** [ms(ts)]: [int(round(ts * 1000))]. *)
Definition ms (ts : float) : result Z := py_round (fmul ts f1000).

Definition make_poster (E : env) (workdir : string) : M (option string) :=
  try_m
    (run_cmd PosterCmd (e_poster_rc E) ;;;
     write_file (path_join workdir "poster.jpg") CBytes ;;;
     mret (Some "poster.jpg"))
    (fun _ => mret None).

(** [x or d] on an attribute value. *)
Definition or_str (o : option string) (d : string) : string :=
  match o with
  | Some v => if String.eqb v "" then d else v
  | None => d
  end.

Definition is_video_as (a : adaptation_set) : bool :=
  contains "video"
    (or_str (as_contentType a) "" +:+ " " +:+ or_str (as_mimeType a) "").

(** Index of the adaptation set to rewrite: the first one that mentions
    video, else the first one. *)
Fixpoint find_index {A} (p : A -> bool) (l : list A) : option nat :=
  match l with
  | [] => None
  | x :: l' => if p x then Some O else S <$> find_index p l'
  end.

Definition video_as_index (doc : mpd) : option nat :=
  match find_index is_video_as doc with
  | Some i => Some i
  | None => match doc with [] => None | _ => Some O end
  end.

(** The [for idx, rep in enumerate(reps)] loop: the id mapping and the
    rewritten representations. *)
Fixpoint rewrite_reps (targets : list target) (idx : Z) (reps : list representation)
    : list (string * string) * list representation :=
  match reps with
  | [] => ([], [])
  | rep :: reps' =>
      let heights_sorted := (fun t => str (t_h t)) <$> targets in
      let rid := or_str (rep_id rep) (str (idx * 2)) in
      let h := or_str (rep_height rep)
                 (default "" (heights_sorted !! Z.to_nat idx)) in
      let '(mapping, out) := rewrite_reps targets (idx + 1) reps' in
      if negb (String.eqb rid "") && negb (String.eqb h "") then
        let w := t_w <$> head (filter (fun t => str (t_h t) = h) targets) in
        let rep' :=
          match w with
          | Some w' =>
              if negb (w' =? 0)
              then Representation (Some h) (Some (str w')) (Some h)
              else Representation (Some h) (rep_width rep) (rep_height rep)
          | None => Representation (Some h) (rep_width rep) (rep_height rep)
          end in
        ((rid, h) :: mapping, rep' :: out)
      else (mapping, rep :: out)
  end.

Definition rewrite_mpd (targets : list target) (doc : mpd)
    : list (string * string) * mpd :=
  match video_as_index doc with
  | None => ([], doc)
  | Some i =>
      match doc !! i with
      | None => ([], doc)
      | Some a =>
          let '(mapping, reps') := rewrite_reps targets 0 (as_reps a) in
          (mapping,
           <[i := AdaptationSet (as_contentType a) (as_mimeType a) reps']> doc)
      end
  end.

(** [ET.parse(mpd_path)]. *)
Definition parse_mpd (mpd_path : string) : M mpd :=
  w <~ get_world ;;
  match w_files w !! mpd_path with
  | Some (CMpd doc) => mret doc
  | Some _ => raise ParseError
  | None => raise FileNotFoundError
  end.

(** [os.replace] of one file during a merge. *)
Definition replace_file (E : env) (src dst f : string) : M unit :=
  if e_replace_ok E (path_join src f) (path_join dst f) then
    w <~ get_world ;;
    let from := default [] (w_dirs w !! src) in
    let to := default [] (w_dirs w !! dst) in
    set_dirs (<[dst := if bool_decide (f ∈ to) then to else to ++ [f]]>
                (<[src := filter (fun g => g ≠ f) from]> (w_dirs w)))
  else raise OSError.

(** One turn of [for rid, h in mapping]. *)
Definition move_rep_dir (E : env) (dash_dir : string) (m : string * string) : M unit :=
  let src := path_join dash_dir m.1 in
  let dst := path_join dash_dir m.2 in
  w <~ get_world ;;
  match w_dirs w !! src with
  | None => mret tt
  | Some files =>
      match w_dirs w !! dst with
      | Some _ =>
          for_each files (replace_file E src dst) ;;;
          w' <~ get_world ;;
          set_dirs (delete src (w_dirs w'))
      | None =>
          if e_replace_ok E src dst
          then set_dirs (<[dst := files]> (delete src (w_dirs w)))
          else raise OSError
      end
  end.

(** The [try] block after the DASH encoder run.  [tree.write] opens the
    manifest for writing before it serialises: a write that fails may
    leave the file as it was (it could not be opened) or cut short. *)
Definition dash_rewrite (E : env) (dash_dir mpd_path : string)
    (targets : list target) : M unit :=
  doc <~ parse_mpd mpd_path ;;
  let '(mapping, doc') := rewrite_mpd targets doc in
  (if e_mpd_write_ok E then write_file mpd_path (CMpd doc')
   else
     (match e_mpd_partial E with
      | Some text => write_file mpd_path (CText text)
      | None => mret tt
      end) ;;;
     raise OSError) ;;;
  for_each mapping (move_rep_dir E dash_dir).

(** What the DASH encoder leaves behind on success: its segment files
    in the numbered directories and the manifest. *)
Definition dash_encoder_outputs (E : env) (dash_dir mpd_path : string)
    (total_reps : nat) : M unit :=
  for_each (range total_reps)
    (fun i => w <~ get_world ;;
              set_dirs (<[path_join dash_dir (str i) := e_dash_files E (str i)]>
                          (w_dirs w))) ;;;
  write_file mpd_path
    (match e_mpd E with Some doc => CMpd doc | None => CText "" end).

Definition subtitle_tracks (E : env) (base : string) : M (list track) :=
  t1 <~ (match a_srt (e_args E) with
         | Some p =>
             if String.eqb p "" then mret []
             else
               try_m (vtt <~ lift (of_outcome (e_srt_vtt E)) ;;
                      mret (match vtt with
                            | Some v => if String.eqb v "" then []
                                        else [Track "und" "Subtitles" (e_path_name E v)]
                            | None => []
                            end))
                     (fun e => print ("[subs] srt_to_vtt failed: " +:+ exn_text e) ;;;
                               mret [])
         | None => mret []
         end) ;;
  t2 <~ (if a_extract_subs (e_args E) then
           try_m (lift (of_outcome (e_embedded E)))
                 (fun e => print ("[subs] extract_embedded failed: " +:+ exn_text e) ;;;
                           mret [])
         else mret []) ;;
  mret (t1 ++ t2).

(** What the HLS encoder leaves behind on success: the playlist and the
    segments of each rendition, in the directory named by its height. *)
Definition hls_encoder_outputs (E : env) (hls_dir : string) (targets : list target)
    : M unit :=
  for_each targets
    (fun t => w <~ get_world ;;
              set_dirs (<[path_join hls_dir (str (t_h t)) := e_hls_files E (str (t_h t))]>
                          (w_dirs w))).

Definition hls_stage (E : env) (workdir base : string) (targets : list target)
    : M unit :=
  print "[hls] start" ;;;
  let hls_dir := path_join workdir "HLS" in
  ensure_dir hls_dir ;;;
  for_each targets (fun t => ensure_dir (path_join hls_dir (str (t_h t)))) ;;;
  let '(fc, out_labels) := build_filter_complex_for_targets targets in
  let key_path := path_join hls_dir "enc.key" in
  (if a_encrypt_hls (e_args E) then write_file key_path CBytes else mret tt) ;;;
  for_each targets
    (fun t =>
       if a_encrypt_hls (e_args E) then
         write_file (path_join hls_dir ("_key_" +:+ str (t_h t) +:+ ".txt"))
           (CText ("../enc.key" +:+ newline +:+ key_path +:+ newline
                   +:+ e_key_iv E +:+ newline))
       else mret tt) ;;;
  run_cmd (HlsCmd fc out_labels) (e_hls_rc E) ;;;
  hls_encoder_outputs E hls_dir targets ;;;
  (let '(p, text) := write_hls_master hls_dir base targets in
   write_file p (CText text)).

(** The [try] block with its [except Exception as e] handler. *)
Definition dash_rewrite_guarded (E : env) (dash_dir mpd_path : string)
    (targets : list target) : M unit :=
  try_m (dash_rewrite E dash_dir mpd_path targets)
        (fun e => print ("[dash] mpd rewrite warn: " +:+ exn_text e)).

Definition dash_stage (E : env) (workdir base : string) (targets : list target)
    : M unit :=
  print "[dash] start" ;;;
  let dash_dir := path_join workdir "DASH" in
  ensure_dir dash_dir ;;;
  let total_reps := (length targets * 2)%nat in
  for_each (range total_reps) (fun i => ensure_dir (path_join dash_dir (str i))) ;;;
  let '(fc, out_labels) := build_filter_complex_for_targets targets in
  let mpd_name := base +:+ ".mpd" in
  let mpd_path := path_join dash_dir mpd_name in
  run_cmd (DashCmd fc out_labels) (e_dash_rc E) ;;;
  dash_encoder_outputs E dash_dir mpd_path total_reps ;;;
  dash_rewrite_guarded E dash_dir mpd_path targets.

(** The [try] block probing the duration, and its handler: [0] on any
    failure. *)
Definition duration_body (d : duration_probe) : result Z :=
  ts <- match d with
        | DurNoSuchBinary => Raise FileNotFoundError
        | DurExitNonZero c => Raise (CalledProcessError c)
        | DurUnparsable => Raise ValueError
        | DurSeconds ts => Val ts
        end ;;
  ms ts.

Definition probe_duration_ms (d : duration_probe) : Z :=
  match try_except (duration_body d) (fun _ => Val 0) with
  | Val n => n
  | Raise _ => 0
  end.

(** [main], in the three parts its comments mark: everything up to the
    ladder and the empty-ladder exit; the two packagers; the duration
    probe, the two sidecars and the final line. *)
Definition main_prologue (E : env) : M (option string * list track * list target) :=
  let a := e_args E in
  let inp := e_inp E in
  (if negb (e_input_exists E) then
     eprint ("ERROR: input not found: " +:+ inp) ;;; raise (SystemExit 2)
   else mret tt) ;;;
  let ffmpeg := which_ffmpeg (e_nt E) (a_ffmpeg_bin a) in
  ffprobe <~ lift (which_ffprobe E) ;;
  let base := e_base E in
  let out_root := e_out_root E in
  let workdir := path_join out_root base in
  ensure_dir workdir ;;;
  print ("[encode] start -> " +:+ e_inp_name E) ;;;
  print (e_now E +:+ " | INFO | __main__:main - Using ffmpeg: " +:+ ffmpeg) ;;;
  poster_rel <~ make_poster E workdir ;;
  tracks <~ subtitle_tracks E base ;;
  wh <~ lift (probe_src_wh (e_probe_wh E)) ;;
  let '(src_w, src_h) := wh in
  dar_str <~ lift (probe_dar (e_probe_dar E)) ;;
  let renditions :=
    filter (fun r => r ≠ "") (strip <$> split_on "," (a_renditions a)) in
  targets <~ lift (build_targets renditions (a_ar_mode a) src_w src_h) ;;
  (match targets with
   | [] => eprint "ERROR: no valid renditions" ;;; raise (SystemExit 3)
   | _ => mret tt
   end) ;;;
  mret (poster_rel, tracks, targets).

Definition main_package (E : env) (targets : list target) : M (gmap string string) :=
  let a := e_args E in
  let base := e_base E in
  let workdir := path_join (e_out_root E) base in
  sources <~ (if a_hls a then
                hls_stage E workdir base targets ;;;
                print "[hls] done" ;;;
                mret (<["hls" := "HLS/" +:+ base +:+ ".m3u8"]> (∅ : gmap string string))
              else mret ∅) ;;
  (if a_dash a then
     dash_stage E workdir base targets ;;;
     print "[dash] done" ;;;
     mret (<["dash" := "DASH/" +:+ base +:+ ".mpd"]> sources)
   else mret sources).

Definition main_sidecars (E : env) (poster_rel : option string) (tracks : list track)
    (targets : list target) (sources : gmap string string) : M unit :=
  let a := e_args E in
  let base := e_base E in
  let out_root := e_out_root E in
  let workdir := path_join out_root base in
  let duration_ms := probe_duration_ms (e_duration E) in
  write_file (path_join workdir "job.json")
    (CJob (JobJson (e_inp E) out_root (a_codec a) (a_gpu a)
             ((fun t => str (t_h t) +:+ "p") <$> targets)
             (a_hls a) (a_dash a) (a_encrypt_hls a) (e_now E))) ;;;
  write_file (path_join workdir "player.json")
    (CPlayer (PlayerJson base (a_codec a) duration_ms
                (default "" poster_rel) sources tracks
                (if e_thumbs_exists E then "thumbs.vtt" else "") targets)) ;;;
  print ("JOB_DONE base=" +:+ base).

Definition main (E : env) : M unit :=
  p <~ main_prologue E ;;
  let '(poster_rel, tracks, targets) := p in
  sources <~ main_package E targets ;;
  main_sidecars E poster_rel tracks targets sources.

(** The script's entry point: [main()] under [except Exception], and
    the exit status of the process. *)
Definition run_script (E : env) (w0 : world) : Z * world :=
  match main E w0 with
  | (Val _, w) => (0, w)
  | (Raise (SystemExit c), w) => (c, w)
  | (Raise KeyboardInterrupt, w) => (130, w)
  | (Raise e, w) => (1, snd (print ("Error : " +:+ exn_text e) w))
  end.

(** ** Vocabulary for the job properties *)

(** The job's working directory [<outdir>/<base>]. *)
Definition workdir (E : env) : string := path_join (e_out_root E) (e_base E).

(** [which_ffprobe] returns: no encoder path was given, or the path given
    has a name. *)
Definition ffprobe_resolves (E : env) : Prop := exists f, which_ffprobe E = Val f.

(** The requested keys after splitting [--renditions]. *)
Definition job_renditions (E : env) : list string :=
  filter (fun r => r ≠ "") (strip <$> split_on "," (a_renditions (e_args E))).

(** The ladder [main] builds from the probed dimensions. *)
Definition job_targets (E : env) : result (list target) :=
  wh <- probe_src_wh (e_probe_wh E) ;;
  build_targets (job_renditions E) (a_ar_mode (e_args E)) wh.1 wh.2.


(** A step that always returns, and a step whose exceptions
    [except Exception] catches. *)
Definition succeeds {A} (m : M A) : Prop :=
  forall w, exists a w', m w = (Val a, w').


(** A step that leaves one component of the world alone. *)
Definition preserves {A B} (proj : world -> B) (m : M A) : Prop :=
  forall w r w', m w = (r, w') -> proj w' = proj w.

(** [Path(s).name] on POSIX paths: the last component that is neither
    empty nor [.]. *)
Definition posix_name (s : string) : string :=
  List.last (filter (fun c => c ≠ "" /\ c ≠ ".") (split_on "/" s)) "".

(** ** A sample job

    A 1920x1080 source, H.264, HLS and DASH, with the manifest the encoder
    writes for two video and two audio representations. *)

Definition sample_mpd : mpd :=
  [ AdaptationSet (Some "video") None
      [ Representation (Some "0") (Some "1920") (Some "1080");
        Representation (Some "2") (Some "1280") (Some "720") ];
    AdaptationSet (Some "audio") None
      [ Representation (Some "1") None None;
        Representation (Some "3") None None ] ].

Definition sample_env (renditions : string) (replace_ok : string -> string -> bool)
    (duration : duration_probe) : env :=
  Env (Args "h264" false renditions true true false false None None "source")
      false true "/in/movie.mp4" "movie.mp4" "movie" "/out" "2024-01-01 00:00:00"
      0 (Returns None) (Returns []) (Output "1920x1080") ProbeMalformed "00ff"
      0 0 (fun _ => ["init.m4s"; "chunk_00001.m4s"]) (Some sample_mpd) true
      replace_ok duration false
      posix_name None (fun _ => ["index.m3u8"; "seg_00000.ts"]) None.

(** ** Vocabulary for the further properties *)

(** Every character of [s] satisfies [p]. *)
Fixpoint all_chars (p : ascii -> bool) (s : string) : bool :=
  match s with
  | EmptyString => true
  | String a s' => p a && all_chars p s'
  end.

(** Value of a run of decimal digits read after [acc]. *)
Fixpoint uint_val (d : Decimal.uint) (acc : Z) : Z :=
  match d with
  | Decimal.Nil => acc
  | Decimal.D0 d' => uint_val d' (10 * acc)
  | Decimal.D1 d' => uint_val d' (10 * acc + 1)
  | Decimal.D2 d' => uint_val d' (10 * acc + 2)
  | Decimal.D3 d' => uint_val d' (10 * acc + 3)
  | Decimal.D4 d' => uint_val d' (10 * acc + 4)
  | Decimal.D5 d' => uint_val d' (10 * acc + 5)
  | Decimal.D6 d' => uint_val d' (10 * acc + 6)
  | Decimal.D7 d' => uint_val d' (10 * acc + 7)
  | Decimal.D8 d' => uint_val d' (10 * acc + 8)
  | Decimal.D9 d' => uint_val d' (10 * acc + 9)
  end.



Definition keeps_files {A} (m : M A) : Prop :=
  forall w r w' p, m w = (r, w') ->
    is_Some (w_files w !! p) -> is_Some (w_files w' !! p).

(** The files listed for a directory, none when it does not exist. *)
Definition dir_files (w : world) (p : string) : list string :=
  default [] (w_dirs w !! p).

(** The two theorems on the manifest of the sample job. *)
Definition sample_dash_world : world :=
  World (<["/d/0" := ["init.m4s"; "chunk_00001.m4s"]]>
           (<["/d/2" := ["init.m4s"]]> (<["/d/1" := ["a.m4s"]]> ∅)))
        (<["/d/movie.mpd" := CMpd sample_mpd]> ∅) [] [].


(* ================================================================== *)
(** * Per-rendition helpers ([utils/ffmpegtools.py]) *)
(* ================================================================== *)

(** A ladder entry of [utils/ffmpegtools.py]: the dictionary with the
    keys [name], [width], [height], [bitrate_k], [maxrate_k] and
    [bufsize_k]. *)
Record ladder_row : Type := LadderRow {
  l_name : string;
  l_width : Z;
  l_height : Z;
  l_bitrate_k : Z;
  l_maxrate_k : Z;
  l_bufsize_k : Z
}.

Definition dquote_char : ascii := ascii_of_nat 34.

Definition dquote : string := String dquote_char "".

Fixpoint last_char (s : string) : option ascii :=
  match s with
  | EmptyString => None
  | String a s' => match last_char s' with Some b => Some b | None => Some a end
  end.

(** [os.path.join(a, b)] on POSIX paths. *)
Definition os_path_join (a b : string) : string :=
  if startswith b "/" then b
  else if String.eqb a "" || bool_decide (last_char a = Some "/"%char) then a +:+ b
  else a +:+ "/" +:+ b.

(** [l.insert(i, x)]: a negative index counts from the end, and an index
    out of range is clipped. *)
Definition py_insert {A} (l : list A) (i : Z) (x : A) : list A :=
  let n := Z.of_nat (length l) in
  let i' := if i <? 0 then Z.max 0 (i + n) else Z.min i n in
  take (Z.to_nat i') l ++ x :: drop (Z.to_nat i') l.

Definition build_scale_filter (w h : Z) : string :=
  "scale=w=" +:+ str w +:+ ":h=" +:+ str h +:+ ":force_original_aspect_ratio=decrease".

(** The argument vector [hls_per_rendition] hands to [run]. *)
Definition hls_rendition_args (ffmpeg inp outdir vcodec acodec : string) (L : ladder_row)
    (gop fps ar ab_k channels : Z) (keyinfo : option string) : list string :=
  let rname := l_name L in
  let rdir := os_path_join outdir rname in
  let args :=
    [ ffmpeg; "-y"; "-hide_banner"; "-i"; inp; "-map"; "0:v:0"; "-map"; "0:a:0";
      "-c:v"; vcodec;
      "-b:v"; str (l_bitrate_k L) +:+ "k";
      "-maxrate"; str (l_maxrate_k L) +:+ "k";
      "-bufsize"; str (l_bufsize_k L) +:+ "k";
      "-r"; str fps; "-g"; str (gop * fps); "-keyint_min"; str (gop * fps);
      "-sc_threshold"; "0";
      "-vf"; build_scale_filter (l_width L) (l_height L);
      "-c:a"; acodec; "-b:a"; str ab_k +:+ "k"; "-ac"; str channels; "-ar"; str ar;
      "-hls_time"; str (gop * 2); "-hls_playlist_type"; "vod";
      "-hls_flags"; "independent_segments";
      "-hls_segment_filename"; os_path_join rdir "seg_%05d.ts";
      "-progress"; "pipe:1"; "-nostats";
      os_path_join rdir "index.m3u8" ] in
  match keyinfo with
  | Some k =>
      if String.eqb k "" then args
      else py_insert (py_insert args (-2) "-hls_key_info_file") (-2) k
  | None => args
  end.

(** [hls_per_rendition]: the directory it creates, the command it runs,
    the lines [run] prints for the encoder's output, and its result. *)
Definition hls_per_rendition (ffmpeg inp outdir vcodec acodec : string) (L : ladder_row)
    (gop fps ar ab_k channels : Z) (keyinfo : option string) (total : option Z)
    (base : string) (stdout_lines : list string) (returncode : Z)
    : string * list string * list string * result string :=
  let rname := l_name L in
  let rdir := os_path_join outdir rname in
  let args := hls_rendition_args ffmpeg inp outdir vcodec acodec L gop fps ar ab_k
                channels keyinfo in
  let '(printed, r) := run_progress (Some (Progress total base rname)) stdout_lines
                         returncode in
  (rdir, args, printed, _ <- r ;; Val rname).

(** [write_hls_master] of [utils/ffmpegtools.py]: the path and the text
    written (no newline after the last line). *)
Definition tools_master_lines (ladders : list ladder_row) (audio_kbps : Z)
    (codec_id : string) : list string :=
  let vtag := if String.eqb codec_id "h264" then "avc1.640029" else "hvc1" in
  let atag := "mp4a.40.2" in
  ["#EXTM3U"] ++
  concat ((fun L =>
             let bw := (l_maxrate_k L + audio_kbps) * 1000 in
             let res := str (l_width L) +:+ "x" +:+ str (l_height L) in
             [ "#EXT-X-STREAM-INF:BANDWIDTH=" +:+ str bw +:+ ",RESOLUTION=" +:+ res
                 +:+ ",CODECS=" +:+ dquote +:+ vtag +:+ "," +:+ atag +:+ dquote;
               l_name L +:+ "/index.m3u8" ]) <$> ladders).

Definition tools_write_hls_master (outdir master_name : string)
    (ladders : list ladder_row) (audio_kbps : Z) (codec_id : string) : string * string :=
  (os_path_join outdir master_name,
   join newline (tools_master_lines ladders audio_kbps codec_id)).

(** ** Reading an attribute list with quoted values

    Attributes are separated by commas; a comma inside double quotes
    belongs to the value. *)
Fixpoint split_attrs (quoted : bool) (s : string) : list string :=
  match s with
  | EmptyString => [""]
  | String a s' =>
      if Ascii.eqb a "," && negb quoted then "" :: split_attrs quoted s'
      else
        let q := if Ascii.eqb a dquote_char then negb quoted else quoted in
        match split_attrs q s' with
        | x :: xs => String a x :: xs
        | [] => [String a ""]
        end
  end.

Fixpoint stream_infs_quoted (lines : list string) : list stream_inf :=
  match lines with
  | [] => []
  | l :: rest =>
      match strip_prefix "#EXT-X-STREAM-INF:" l with
      | Some attrs =>
          StreamInf (parse_attr <$> split_attrs false attrs) (hd "" rest)
          :: stream_infs_quoted rest
      | None => stream_infs_quoted rest
      end
  end.

Definition parse_master_quoted (text : string) : list stream_inf :=
  stream_infs_quoted (split_on newline_char text).

(** The entry a ladder row is expected to give. *)
Definition tools_stream_inf_of (audio_kbps : Z) (codec_id : string) (L : ladder_row)
    : stream_inf :=
  StreamInf
    [ ("BANDWIDTH", str ((l_maxrate_k L + audio_kbps) * 1000));
      ("RESOLUTION", str (l_width L) +:+ "x" +:+ str (l_height L));
      ("CODECS", dquote +:+ (if String.eqb codec_id "h264" then "avc1.640029" else "hvc1")
                 +:+ "," +:+ "mp4a.40.2" +:+ dquote) ]
    (l_name L +:+ "/index.m3u8").

(** [s.rstrip(c)] for one character. *)
Fixpoint rstrip_char (c : ascii) (s : string) : string :=
  match s with
  | EmptyString => ""
  | String a s' =>
      match rstrip_char c s' with
      | EmptyString => if Ascii.eqb a c then "" else String a ""
      | r => String a r
      end
  end.

(** [p[:p.rfind('/') + 1]]. *)
Fixpoint dir_head (p : string) : string :=
  match p with
  | EmptyString => ""
  | String a p' => if no_char "/" p then "" else String a (dir_head p')
  end.

(** [os.path.dirname(p)] on POSIX paths. *)
Definition os_path_dirname (p : string) : string :=
  let head := dir_head p in
  if negb (String.eqb head "") && negb (all_chars (Ascii.eqb "/") head)
  then rstrip_char "/" head else head.

(** The loop of [_resolve_ffprobe] over its candidates; [isfile] stands
    for [os.path.isfile] and [which] for [shutil.which]. *)
Fixpoint first_ffprobe (isfile : string -> bool) (which : string -> option string)
    (cands : list string) : option string :=
  match cands with
  | [] => None
  | c :: rest =>
      if isfile c then Some c
      else match which c with
           | Some w => if String.eqb w "" then first_ffprobe isfile which rest else Some w
           | None => first_ffprobe isfile which rest
           end
  end.

Definition resolve_ffprobe (isfile : string -> bool) (which : string -> option string)
    (ffmpeg_path : string) : option string :=
  let d := os_path_dirname ffmpeg_path in
  let cands := (if String.eqb d "" then [] else [os_path_join d "ffprobe.exe"])
               ++ ["ffprobe"] in
  first_ffprobe isfile which cands.

(** [probe_duration_ms] of [utils/ffmpegtools.py]: [None] when no
    [ffprobe] is found or on any failure, else [int(sec * 1000)]. *)
Definition tools_probe_duration_ms (isfile : string -> bool)
    (which : string -> option string) (ffmpeg : string) (d : duration_probe)
    : result (option Z) :=
  match resolve_ffprobe isfile which ffmpeg with
  | None => Val None
  | Some p =>
      if String.eqb p "" then Val None
      else
        try_except
          (sec <- match d with
                  | DurNoSuchBinary => Raise FileNotFoundError
                  | DurExitNonZero c => Raise (CalledProcessError c)
                  | DurUnparsable => Raise ValueError
                  | DurSeconds ts => Val ts
                  end ;;
           n <- py_trunc (fmul sec f1000) ;;
           Val (Some n))
          (fun _ => Val None)
  end.

(* ================================================================== *)
(** * The log pump of the GUI ([main.py]) *)
(* ================================================================== *)

(** [s.split()]: the maximal runs of characters that are no white
    space.  [ws_tokens] returns the run the string starts with and the
    runs after it. *)
Fixpoint ws_tokens (s : string) : string * list string :=
  match s with
  | EmptyString => ("", [])
  | String c s' =>
      let '(cur, toks) := ws_tokens s' in
      if is_space c then ("", if String.eqb cur "" then toks else cur :: toks)
      else (String c cur, toks)
  end.

Definition py_split (s : string) : list string :=
  let '(cur, toks) := ws_tokens s in
  if String.eqb cur "" then toks else cur :: toks.

(** [s.split(sep, 1)[1]]: what follows the first occurrence of [sep];
    [None] stands for [IndexError]. *)
Fixpoint after_first (sep s : string) : option string :=
  match strip_prefix sep s with
  | Some rest => Some rest
  | None =>
      match s with
      | EmptyString => None
      | String _ s' => after_first sep s'
      end
  end.

(** [s.lower()] on ASCII text. *)
Definition lower_char (c : ascii) : ascii :=
  let n := nat_of_ascii c in
  if ((65 <=? n)%nat && (n <=? 90)%nat) then ascii_of_nat (n + 32) else c.

Fixpoint lower (s : string) : string :=
  match s with
  | EmptyString => ""
  | String c s' => String (lower_char c) (lower s')
  end.

(** [dict(kv.split("=", 1) for kv in tokens if "=" in kv)]: a later
    pair replaces an earlier one with the same key; an element that is
    no pair raises [ValueError]. *)
Fixpoint kv_pairs (tokens : list string) (m : gmap string string)
    : result (gmap string string) :=
  match tokens with
  | [] => Val m
  | kv :: rest =>
      if no_char "=" kv then kv_pairs rest m
      else match split_once "=" kv with
           | [k; v] => kv_pairs rest (<[k := v]> m)
           | _ => Raise ValueError
           end
  end.

(** A job of the GUI, as far as the pump touches it: the percentage of
    each rendition and the status. *)
Record job : Type := Job {
  j_rend : gmap string float;
  j_status : string
}.

(** The jobs by base name, and the lines shown in the log pane with
    their levels.  The widgets are not part of the model. *)
Record gui : Type := Gui {
  g_jobs : gmap string job;
  g_log : list (string * string)
}.

Definition log_line (g : gui) (level text : string) : gui :=
  Gui (g_jobs g) (g_log g ++ [(level, text)]).

(** [_mark_done]: a known job gets the status [done] and is written to
    the history; [history] tells how that write ends, and a failure is
    logged as a warning. *)
Definition mark_done (history : string -> outcome unit) (g : gui) (b : string) : gui :=
  match g_jobs g !! b with
  | Some j =>
      let g' := Gui (<[b := Job (j_rend j) "done"]> (g_jobs g)) (g_log g) in
      match history b with
      | Returns _ => g'
      | Fails msg => log_line g' "WARN" ("[history] gagal tulis: " +:+ msg)
      end
  | None => g
  end.

(** The level [_pump_logs] gives an ordinary line. *)
Definition log_level (line : string) : string :=
  let l := lower line in
  if contains "error" l || contains "failed" l || contains "traceback" l then "ERROR"
  else if startswith line "[encode] cancel" then "WARN"
  else "INFO".

(** The [try] block for a [PROGRESS] line; [py_float] stands for
    [float] on a string. *)
Definition progress_body (py_float : string -> result float) (g : gui)
    (base line : string) : result gui :=
  parts <- kv_pairs (drop 1 (py_split line)) ∅ ;;
  let b := default base (parts !! "base") in
  let r := parts !! "rend" in
  pct <- py_float (default "0" (parts !! "pct")) ;;
  match g_jobs g !! b, r with
  | Some j, Some r =>
      if String.eqb r "" then Val g
      else Val (Gui (<[b := Job (<[r := pct]> (j_rend j)) (j_status j)]> (g_jobs g))
                    (g_log g))
  | _, _ => Val g
  end.

(** What the loop of [_pump_logs] does with one queue entry. *)
Definition pump_line (py_float : string -> result float)
    (history : string -> outcome unit) (g : gui) (entry : string * string)
    : result gui :=
  let '(base, line) := entry in
  if startswith line "PROGRESS " then
    try_except (progress_body py_float g base line) (fun _ => Val g)
  else if contains "JOB_DONE base=" line then
    rest <- of_option (after_first "JOB_DONE base=" line) IndexError ;;
    Val (mark_done history g (strip rest))
  else if startswith line "out_time_ms=" || startswith line "progress=" then Val g
  else Val (log_line g (log_level line) line).

(** The loop of [_pump_logs] over the entries waiting in the queue. *)
Fixpoint pump_logs (py_float : string -> result float)
    (history : string -> outcome unit) (g : gui) (entries : list (string * string))
    : result gui :=
  match entries with
  | [] => Val g
  | e :: rest =>
      g' <- pump_line py_float history g e ;;
      pump_logs py_float history g' rest
  end.

(** [ProcessReader.run]: every line read from the child is queued under
    the job's base name, without its trailing white space. *)
Definition process_reader (base : string) (lines : list string)
    : list (string * string) :=
  (fun l => (base, rstrip l)) <$> lines.

(** What one queue entry can change. *)
Definition pump_step (g g' : gui) : Prop :=
  (forall b, is_Some (g_jobs g' !! b) <-> is_Some (g_jobs g !! b)) /\
  (forall b j j', g_jobs g !! b = Some j -> g_jobs g' !! b = Some j' ->
     j_status j' = j_status j \/ j_status j' = "done") /\
  g_log g `prefix_of` g_log g' /\
  (length (g_log g') <= S (length (g_log g)))%nat.

(* ================================================================== *)
(** * Embedded subtitles ([utils/subtitles.py]) *)
(* ================================================================== *)

(** A subtitle stream as [list_embedded_subs] returns it: the stream
    index, the codec name, and the tags [language] and [title]. *)
Record sub_stream : Type := SubStream {
  ss_index : option Z;
  ss_codec : string;
  ss_language : option string;
  ss_title : option string
}.

Definition TEXT_CODECS : list string := ["subrip"; "ass"; "webvtt"; "mov_text"].

(** What a file of the output directory holds: something that was there
    before, the WebVTT extracted from a stream, or what a failed
    extraction left. *)
Inductive sub_content : Type :=
  | SubOther (note : string)
  | SubVtt (idx : nat)
  | SubPartial (idx : nat).

(** How one [subprocess.run(cmd, check=True)] ends. *)
Inductive run_result : Type :=
  | RunOk
  | RunExit (code : Z) (partial : bool)
  | RunNoBinary.

(** How [shutil.copyfile] ends: the copy is made, or it fails and leaves
    the destination untouched ([None]) or damaged. *)
Inductive copy_result : Type :=
  | Copied
  | CopyFailed (left : option sub_content).

(** The surroundings of [extract_embedded_subs_to_vtt]: what
    [_ensure_dir] and [list_embedded_subs] yield, how the extraction of
    the stream at each position ends, [os.path.abspath], and how the
    compatibility copy ends. *)
Record sub_env : Type := SubEnv {
  se_streams : result (list sub_stream);
  se_run : nat -> run_result;
  se_abspath : string -> string;
  se_copy : copy_result
}.

(** An element of the list returned: [{"lang", "label", "vtt"}]. *)
Record sub_entry : Type := SubEntry {
  sb_lang : string;
  sb_label : string;
  sb_vtt : string
}.

Definition counted_name (basename lang : string) (k : Z) : string :=
  basename +:+ "." +:+ lang +:+ "." +:+ str k +:+ ".vtt".

(** The [while] loop looking for a free counter, from [k] on; [fuel]
    bounds the number of tests. *)
Fixpoint free_counter (files : gmap string sub_content) (outdir basename lang : string)
    (fuel : nat) (k : Z) : option Z :=
  match fuel with
  | O => None
  | S fuel' =>
      if bool_decide (is_Some (files !! os_path_join outdir (counted_name basename lang k)))
      then free_counter files outdir basename lang fuel' (k + 1)
      else Some k
  end.

(** The file name chosen for a language; one test more than there are
    files always finds a free counter. *)
Definition pick_name (files : gmap string sub_content) (outdir basename lang : string) : option string :=
  let out_name := basename +:+ "." +:+ lang +:+ ".vtt" in
  if bool_decide (is_Some (files !! os_path_join outdir out_name)) then
    k ← free_counter files outdir basename lang (S (size files)) 2;
    Some (counted_name basename lang k)
  else Some out_name.

(** The body of the loop over the streams; [None] only if the search
    for a counter were cut short. *)
Fixpoint extract_loop (env : sub_env) (outdir basename : string)
    (subs : list (nat * sub_stream)) (files : gmap string sub_content) (written : list sub_entry)
    : option (result (list sub_entry) * gmap string sub_content) :=
  match subs with
  | [] => Some (Val written, files)
  | (idx, s) :: rest =>
      let codec := lower (ss_codec s) in
      if bool_decide (codec ∈ TEXT_CODECS) then
        let lang := strip (or_str (ss_language s) "und") in
        let label := strip (or_str (ss_title s) (if String.eqb lang "" then "Sub" else lang)) in
        out_name ← pick_name files outdir basename lang;
        let dst := os_path_join outdir out_name in
        match se_run env idx with
        | RunOk =>
            extract_loop env outdir basename rest (<[dst := SubVtt idx]> files)
              (written ++ [SubEntry lang label out_name])
        | RunExit code partial =>
            Some (Raise (CalledProcessError code),
                  if partial then <[dst := SubPartial idx]> files else files)
        | RunNoBinary => Some (Raise FileNotFoundError, files)
        end
      else extract_loop env outdir basename rest files written
  end.

(** The compatibility copy to [<basename>.vtt] when exactly one track
    was written; a failure is swallowed. *)
Definition compat_copy (env : sub_env) (outdir basename : string)
    (written : list sub_entry) (files : gmap string sub_content) : gmap string sub_content :=
  match written with
  | [e] =>
      let single := os_path_join outdir (sb_vtt e) in
      let compat := os_path_join outdir (basename +:+ ".vtt") in
      if String.eqb (se_abspath env single) (se_abspath env compat) then files
      else match se_copy env with
           | Copied =>
               match files !! single with
               | Some c => <[compat := c]> files
               | None => files
               end
           | CopyFailed (Some c) => <[compat := c]> files
           | CopyFailed None => files
           end
  | _ => files
  end.

Fixpoint enumerate_nat {A} (i : nat) (l : list A) : list (nat * A) :=
  match l with
  | [] => []
  | x :: l' => (i, x) :: enumerate_nat (S i) l'
  end.

(** [extract_embedded_subs_to_vtt]: the list returned or the exception
    raised, and the files afterwards. *)
Definition extract_embedded_subs_to_vtt (env : sub_env) (outdir basename : string)
    (files : gmap string sub_content) : option (result (list sub_entry) * gmap string sub_content) :=
  match se_streams env with
  | Raise e => Some (Raise e, files)
  | Val subs =>
      match extract_loop env outdir basename (enumerate_nat 0 subs) files [] with
      | Some (Val written, files') =>
          Some (Val written, compat_copy env outdir basename written files')
      | other => other
      end
  end.

(** What the loop keeps true of the files it started from, the files
    now, and the entries written so far. *)
Definition extract_inv (outdir : string) (files0 files : gmap string sub_content)
    (written : list sub_entry) : Prop :=
  (forall p c, files0 !! p = Some c -> files !! p = Some c) /\
  NoDup (sb_vtt <$> written) /\
  forall e, e ∈ written ->
    files0 !! os_path_join outdir (sb_vtt e) = None /\
    exists idx, files !! os_path_join outdir (sb_vtt e) = Some (SubVtt idx).

(* ================================================================== *)
(** * Encoder commands ([encode.py], [main]) *)
(* ================================================================== *)

(** The float [1.07]. *)
Definition f107 : float := S754_finite false 4818851601286431 (-52).

(** [add_stream_opts_one]: the options appended for one rendition. *)
Definition add_stream_opts_one (args : list string) (vcodec : string) (br : Z)
    : result (list string) :=
  x <- py_mul_int_float br f107 ;;
  maxr <- py_trunc x ;;
  let buf := maxr * 2 in
  Val ((args ++
        [ "-c:v"; vcodec; "-b:v"; str br; "-maxrate"; str maxr; "-bufsize"; str buf;
          "-g"; "48"; "-keyint_min"; "48"; "-sc_threshold"; "0"; "-preset"; "medium" ])
       ++ ["-c:a"; "aac"; "-b:a"; "128k"; "-ac"; "2"]).

(** One round of the loop over [enumerate(out_labels)] that extends the
    HLS command; [targets[i]] raises [IndexError] out of range. *)
Definition hls_rung (vcodec dar_str hls_dir : string) (encrypt : bool)
    (targets : list target) (cmd : list string) (it : Z * string)
    : result (list string) :=
  let '(i, lab) := it in
  t <- of_option (targets !! Z.to_nat i) IndexError ;;
  let cmd := cmd ++ ["-map"; "[" +:+ lab +:+ "]"; "-map"; "a:0?"] in
  cmd <- add_stream_opts_one cmd vcodec (t_br t) ;;
  let cmd := cmd ++ ["-aspect"; dar_str] in
  let cmd := cmd ++ [ "-f"; "hls"; "-hls_time"; "4"; "-hls_playlist_type"; "vod";
                      "-hls_flags"; "independent_segments" ] in
  let cmd := if encrypt
             then cmd ++ [ "-hls_key_info_file";
                           path_join hls_dir ("_key_" +:+ str (t_h t) +:+ ".txt") ]
             else cmd in
  Val (cmd ++ [ "-hls_segment_filename";
                path_join (path_join hls_dir (str (t_h t))) "seg_%05d.ts";
                path_join (path_join hls_dir (str (t_h t))) "index.m3u8" ]).

(** A loop that threads a value through a body that may raise. *)
Fixpoint fold_result {A B} (f : A -> B -> result A) (a : A) (l : list B) : result A :=
  match l with
  | [] => Val a
  | x :: l' => a' <- f a x ;; fold_result f a' l'
  end.

(** The command [main] hands to [run] in the HLS stage. *)
Definition hls_command (ffmpeg inp vcodec dar_str hls_dir : string) (encrypt : bool)
    (targets : list target) : result (list string) :=
  let '(fc, out_labels) := build_filter_complex_for_targets targets in
  fold_result (hls_rung vcodec dar_str hls_dir encrypt targets)
    [ffmpeg; "-hide_banner"; "-y"; "-i"; inp; "-filter_complex"; fc]
    (enumerate out_labels).

(** One round of the loop that extends the DASH command. *)
Definition dash_rung (vcodec dar_str : string) (targets : list target)
    (cmd : list string) (it : Z * string) : result (list string) :=
  let '(i, lab) := it in
  t <- of_option (targets !! Z.to_nat i) IndexError ;;
  let br := t_br t in
  let cmd := cmd ++ ["-map"; "[" +:+ lab +:+ "]"; "-map"; "a:0?"] in
  x <- py_mul_int_float br f107 ;;
  maxr <- py_trunc x ;;
  let buf := maxr * 2 in
  Val (cmd ++
       [ "-c:v:" +:+ str i; vcodec;
         "-b:v:" +:+ str i; str br;
         "-maxrate:v:" +:+ str i; str maxr;
         "-bufsize:v:" +:+ str i; str buf;
         "-g:v:" +:+ str i; "48";
         "-keyint_min"; "48";
         "-sc_threshold:v:" +:+ str i; "0";
         "-preset:v:" +:+ str i; "medium";
         "-aspect:v:" +:+ str i; dar_str;
         "-c:a:" +:+ str i; "aac";
         "-b:a:" +:+ str i; "128k";
         "-ac:a:" +:+ str i; "2" ]).

(** The command [main] hands to [run] in the DASH stage. *)
Definition dash_command (ffmpeg inp vcodec dar_str base : string)
    (targets : list target) : result (list string) :=
  let '(fc, out_labels) := build_filter_complex_for_targets targets in
  cmd <- fold_result (dash_rung vcodec dar_str targets)
           [ffmpeg; "-hide_banner"; "-y"; "-i"; inp; "-filter_complex"; fc]
           (enumerate out_labels) ;;
  Val (cmd ++
       [ "-f"; "dash"; "-use_timeline"; "1"; "-use_template"; "1";
         "-seg_duration"; "4";
         "-adaptation_sets"; "id=0,streams=v id=1,streams=a";
         "-init_seg_name"; "$RepresentationID$/init.m4s";
         "-media_seg_name"; "$RepresentationID$/chunk_$Number%05d$.m4s";
         base +:+ ".mpd" ]).

(** The options of one rendition in the HLS command, with the rates as
    whole numbers. *)
Definition hls_rung_args (vcodec dar_str hls_dir : string) (encrypt : bool)
    (i : Z) (t : target) : list string :=
  let maxr := 107 * t_br t / 100 in
  [ "-map"; "[v" +:+ str i +:+ "o]"; "-map"; "a:0?";
    "-c:v"; vcodec; "-b:v"; str (t_br t); "-maxrate"; str maxr;
    "-bufsize"; str (2 * maxr);
    "-g"; "48"; "-keyint_min"; "48"; "-sc_threshold"; "0"; "-preset"; "medium";
    "-c:a"; "aac"; "-b:a"; "128k"; "-ac"; "2";
    "-aspect"; dar_str;
    "-f"; "hls"; "-hls_time"; "4"; "-hls_playlist_type"; "vod";
    "-hls_flags"; "independent_segments" ]
  ++ (if encrypt
      then [ "-hls_key_info_file"; path_join hls_dir ("_key_" +:+ str (t_h t) +:+ ".txt") ]
      else [])
  ++ [ "-hls_segment_filename";
       path_join (path_join hls_dir (str (t_h t))) "seg_%05d.ts";
       path_join (path_join hls_dir (str (t_h t))) "index.m3u8" ].

(** The options of one rendition in the DASH command, with the rates as
    whole numbers. *)
Definition dash_rung_args (vcodec dar_str : string) (i : Z) (t : target) : list string :=
  let maxr := 107 * t_br t / 100 in
  [ "-map"; "[v" +:+ str i +:+ "o]"; "-map"; "a:0?";
    "-c:v:" +:+ str i; vcodec;
    "-b:v:" +:+ str i; str (t_br t);
    "-maxrate:v:" +:+ str i; str maxr;
    "-bufsize:v:" +:+ str i; str (2 * maxr);
    "-g:v:" +:+ str i; "48";
    "-keyint_min"; "48";
    "-sc_threshold:v:" +:+ str i; "0";
    "-preset:v:" +:+ str i; "medium";
    "-aspect:v:" +:+ str i; dar_str;
    "-c:a:" +:+ str i; "aac";
    "-b:a:" +:+ str i; "128k";
    "-ac:a:" +:+ str i; "2" ].

(* ================================================================== *)
(** * Starting a job from the GUI ([main.py]) *)
(* ================================================================== *)

(** The renditions the GUI asks for: the names whose check boxes are
    ticked, in the order of the list in [start_selected] and
    [start_watcher]. *)
Definition gui_renditions (c2160 c1440 c1080 c720 c480 : bool) : list string :=
  fst <$> filter (fun nc : string * bool => nc.2 = true)
            [("2160", c2160); ("1440", c1440); ("1080", c1080); ("720", c720);
             ("480", c480)].

(** The value [_start_job_for_path] passes after [--renditions]. *)
Definition renditions_arg (renditions : list string) : string := join "," renditions.

(* ================================================================== *)
(** * Properties *)
(* ================================================================== *)

(** ** Binary64 rounding

    [binary_round_aux] is the one rounding step behind [SFdiv] and
    [SFmul].  In the normal range it is faithful: the result is one of
    the two floats around the exact value. *)

Lemma digits2_pos_size p : digits2_pos p = Pos.size p.
Proof. induction p; simpl; congruence. Qed.

Lemma digits2_pos_bounds p :
  2 ^ (Zpos (digits2_pos p) - 1) <= Zpos p < 2 ^ Zpos (digits2_pos p).
Proof.
  rewrite digits2_pos_size. split.
  - pose proof (Pos.size_le p) as H.
    assert (Hz : Zpos (2 ^ Pos.size p) <= Zpos p~0) by exact H.
    rewrite Pos2Z.inj_pow in Hz.
    replace (Zpos (Pos.size p)) with (Zpos (Pos.size p) - 1 + 1) in Hz by lia.
    rewrite Z.pow_add_r in Hz by lia. change (2 ^ 1) with 2 in Hz.
    rewrite (Pos2Z.inj_xO p) in Hz. lia.
  - pose proof (Pos.size_gt p) as H.
    assert (Hz : Zpos p < Zpos (2 ^ Pos.size p)) by exact H.
    now rewrite Pos2Z.inj_pow in Hz.
Qed.

Lemma Zdigits2_unique m d :
  0 < d -> 2 ^ (d - 1) <= m < 2 ^ d -> Zdigits2 m = d.
Proof.
  intros Hd [Hlo Hhi].
  assert (0 < m) by (pose proof (Z.pow_pos_nonneg 2 (d - 1)); lia).
  destruct m as [|p|p]; try lia. simpl.
  pose proof (digits2_pos_bounds p) as [Blo Bhi].
  set (k := Zpos (digits2_pos p)) in *.
  assert (k - 1 < d) by (apply (Z.pow_lt_mono_r_iff 2); lia).
  assert (d - 1 < k) by (apply (Z.pow_lt_mono_r_iff 2); lia).
  lia.
Qed.

Lemma shr_1_m r : 0 <= shr_m r -> shr_m (shr_1 r) = shr_m r / 2.
Proof.
  destruct r as [m rb sb]; simpl. intros Hm.
  destruct m as [|[p|p|]|p]; simpl; try lia.
  - reflexivity.
  - rewrite (Pos2Z.inj_xI p). apply Z.div_unique with 1; lia.
  - rewrite (Pos2Z.inj_xO p). apply Z.div_unique with 0; lia.
  - reflexivity.
Qed.

Lemma iter_pos_shr_m p : forall r,
  0 <= shr_m r -> shr_m (SpecFloat.iter_pos shr_1 p r) = shr_m r / 2 ^ Zpos p.
Proof.
  assert (Hnn : forall r, 0 <= shr_m r -> 0 <= shr_m (shr_1 r)).
  { intros r Hr. rewrite shr_1_m by exact Hr. apply Z.div_pos; lia. }
  induction p as [p IH|p IH|]; intros r Hr; cbn [SpecFloat.iter_pos].
  - assert (H1 := Hnn r Hr).
    assert (H2 : 0 <= shr_m (SpecFloat.iter_pos shr_1 p (shr_1 r))).
    { rewrite IH by exact H1. apply Z.div_pos; [exact H1|]. apply Z.pow_pos_nonneg; lia. }
    rewrite (IH _ H2), (IH _ H1), shr_1_m by exact Hr.
    rewrite !Z.div_div by (try apply Z.pow_pos_nonneg; try apply Z.pow_nonzero; lia).
    f_equal. rewrite (Pos2Z.inj_xI p).
    replace (2 * Zpos p + 1) with (1 + Zpos p + Zpos p) by lia.
    rewrite !Z.pow_add_r by lia. change (2 ^ 1) with 2. ring.
  - assert (H2 : 0 <= shr_m (SpecFloat.iter_pos shr_1 p r)).
    { rewrite IH by exact Hr. apply Z.div_pos; [exact Hr|]. apply Z.pow_pos_nonneg; lia. }
    rewrite (IH _ H2), (IH _ Hr).
    rewrite !Z.div_div by (try apply Z.pow_pos_nonneg; try apply Z.pow_nonzero; lia).
    f_equal. rewrite (Pos2Z.inj_xO p).
    replace (2 * Zpos p) with (Zpos p + Zpos p) by lia.
    rewrite !Z.pow_add_r by lia. ring.
  - rewrite shr_1_m by exact Hr. reflexivity.
Qed.

Lemma shr_record_of_loc_m m l : shr_m (shr_record_of_loc m l) = m.
Proof. destruct l as [|[]]; reflexivity. Qed.

Lemma shr_spec r e n :
  0 <= shr_m r ->
  shr_m (fst (shr r e n)) = shr_m r / 2 ^ Z.max n 0 /\ snd (shr r e n) = e + Z.max n 0.
Proof.
  intros Hr. destruct n as [|p|p]; simpl.
  - rewrite Z.div_1_r. split; [reflexivity | lia].
  - rewrite iter_pos_shr_m by exact Hr. split; reflexivity.
  - rewrite Z.div_1_r. split; [reflexivity | lia].
Qed.

Lemma round_nearest_even_cases m l :
  round_nearest_even m l = m \/ round_nearest_even m l = m + 1.
Proof. destruct l as [|[]]; simpl; auto. destruct (Z.even m); auto. Qed.

Lemma fexp_normal e : -1074 <= e - 53 -> fexp prec emax e = e - 53.
Proof. unfold fexp, emin, prec, emax. lia. Qed.

(** Second normalisation pass of [binary_round_aux]: a mantissa of
    [53 + j] bits loses its [j] low bits. *)
Lemma round_aux_renormalise s m1 e1 j :
  0 < m1 -> 0 <= j -> Zdigits2 m1 = 53 + j -> -1074 <= e1 + j <= 971 ->
  (let '(mrs, e2) := shr_fexp prec emax m1 e1 loc_Exact in
   match shr_m mrs with
   | Z0 => S754_zero s
   | Zpos m => if e2 <=? emax - prec then S754_finite s m e2 else S754_infinity s
   | Zneg _ => S754_nan
   end) = S754_finite s (Z.to_pos (m1 / 2 ^ j)) (e1 + j).
Proof.
  intros Hm Hj Hd He. unfold shr_fexp. rewrite Hd, fexp_normal by lia.
  replace (53 + j + e1 - 53 - e1) with j by lia.
  pose proof (shr_spec (shr_record_of_loc m1 loc_Exact) e1 j) as [S1 S2];
    [cbn [shr_record_of_loc shr_m]; lia|].
  destruct (shr (shr_record_of_loc m1 loc_Exact) e1 j) as [mrs e2].
  cbn [fst snd shr_record_of_loc shr_m] in S1, S2.
  rewrite Z.max_l in S1, S2 by lia. rewrite S1, S2.
  assert (Hpos : 0 < m1 / 2 ^ j).
  { assert (B : 2 ^ (53 + j - 1) <= m1).
    { destruct m1 as [|p|p]; [lia| |lia]. cbn [Zdigits2] in Hd.
      rewrite <- Hd. apply digits2_pos_bounds. }
    replace (53 + j - 1) with (52 + j) in B by lia.
    rewrite Z.pow_add_r in B by lia.
    assert (0 < 2 ^ j) by (apply Z.pow_pos_nonneg; lia).
    apply Z.lt_le_trans with (2 ^ 52); [reflexivity|].
    apply Z.div_le_lower_bound; lia. }
  destruct (m1 / 2 ^ j) as [|p|p]; [lia| |lia].
  destruct (Z.leb_spec (e1 + j) (emax - prec)) as [_|C];
    [reflexivity | unfold emax, prec in C; lia].
Qed.

(** Faithful rounding of [binary_round_aux] in the normal range. *)
Lemma binary_round_aux_faithful s mx ex lx k :
  0 < mx -> 0 <= k -> Zdigits2 mx = 53 + k -> -1074 <= k + ex <= 970 ->
  exists m e,
    binary_round_aux prec emax s mx ex lx = S754_finite s m e /\
    2 ^ 52 <= Zpos m < 2 ^ 53 /\
    ex + k <= e <= ex + k + 1 /\
    (Zpos m * 2 ^ (e - ex) = mx / 2 ^ k * 2 ^ k \/
     Zpos m * 2 ^ (e - ex) = (mx / 2 ^ k + 1) * 2 ^ k).
Proof.
  intros Hm Hk Hd He.
  assert (Hdb : 2 ^ (52 + k) <= mx < 2 ^ (53 + k)).
  { destruct mx as [|p|p]; [lia| |lia]. cbn [Zdigits2] in Hd.
    pose proof (digits2_pos_bounds p) as B. rewrite Hd in B.
    replace (53 + k - 1) with (52 + k) in B by lia. exact B. }
  rewrite !Z.pow_add_r in Hdb by lia.
  assert (Hk2 : 0 < 2 ^ k) by (apply Z.pow_pos_nonneg; lia).
  remember (mx / 2 ^ k) as q eqn:Eq.
  assert (Hq : 2 ^ 52 <= q < 2 ^ 53).
  { subst q. split.
    - apply Z.div_le_lower_bound; lia.
    - apply Z.div_lt_upper_bound; lia. }
  unfold binary_round_aux.
  pose proof (shr_spec (shr_record_of_loc mx lx) ex k) as [S1 S2];
    [rewrite shr_record_of_loc_m; lia|].
  unfold shr_fexp at 1. rewrite Hd, fexp_normal by lia.
  replace (53 + k + ex - 53 - ex) with k by lia.
  destruct (shr (shr_record_of_loc mx lx) ex k) as [mrs' e'].
  cbn [fst snd] in S1, S2. rewrite shr_record_of_loc_m in S1.
  rewrite Z.max_l in S1, S2 by lia. rewrite <- Eq in S1.
  remember (round_nearest_even (shr_m mrs') (loc_of_shr_record mrs')) as m1 eqn:Em1.
  assert (Hm1 : m1 = q \/ m1 = q + 1).
  { subst m1. rewrite <- S1. apply round_nearest_even_cases. }
  clear Em1.
  destruct (Z.eq_dec m1 (2 ^ 53)) as [Hc|Hc].
  - (* the rounded mantissa carries into the next binade *)
    rewrite (round_aux_renormalise s m1 e' 1); try lia.
    2:{ apply Zdigits2_unique; [lia | rewrite Hc; change (53 + 1 - 1) with 53; lia]. }
    exists (Z.to_pos (m1 / 2 ^ 1)), (e' + 1). split; [reflexivity|].
    rewrite Hc. change (2 ^ 53 / 2 ^ 1) with (2 ^ 52).
    change (Z.pos (Z.to_pos (2 ^ 52))) with (2 ^ 52).
    split; [lia|]. split; [lia|].
    right. destruct Hm1 as [Hq1|Hq1]; [lia|]. rewrite <- Hq1, Hc.
    replace (e' + 1 - ex) with (1 + k) by lia.
    rewrite Z.pow_add_r by lia. change (2 ^ 1) with 2. lia.
  - rewrite (round_aux_renormalise s m1 e' 0); try lia.
    2:{ apply Zdigits2_unique; [lia | change (53 + 0 - 1) with 52; change (53 + 0) with 53; lia]. }
    exists (Z.to_pos (m1 / 2 ^ 0)), (e' + 0). split; [reflexivity|].
    change (2 ^ 0) with 1. rewrite Z.div_1_r, Z2Pos.id by lia.
    split; [lia|]. split; [lia|].
    replace (e' + 0 - ex) with k by lia.
    destruct Hm1 as [Hq1|Hq1]; [left|right]; rewrite Hq1; reflexivity.
Qed.

Lemma Zdigits2_bounds m : 0 < m -> 2 ^ (Zdigits2 m - 1) <= m < 2 ^ Zdigits2 m.
Proof. destruct m as [|p|p]; try lia. intros _. apply digits2_pos_bounds. Qed.

Lemma Zdigits2_pos m : 0 < m -> 0 < Zdigits2 m.
Proof. destruct m as [|p|p]; try lia. intros _. reflexivity. Qed.

Lemma Zdigits2_ge m d : 0 <= d -> 2 ^ d <= m -> d < Zdigits2 m.
Proof.
  intros Hd H. assert (0 < m) by (pose proof (Z.pow_pos_nonneg 2 d); lia).
  pose proof (Zdigits2_bounds m H0) as [_ B]. pose proof (Zdigits2_pos m H0).
  apply (Z.pow_lt_mono_r_iff 2); lia.
Qed.

Lemma Zdigits2_le m d : 0 < m -> 0 <= d -> m < 2 ^ d -> Zdigits2 m <= d.
Proof.
  intros Hm Hd H. pose proof (Zdigits2_bounds m Hm) as [B _].
  pose proof (Zdigits2_pos m Hm).
  assert (Zdigits2 m - 1 < d); [|lia]. apply (Z.pow_lt_mono_r_iff 2); lia.
Qed.


Lemma SFdiv_core_small a b :
  0 < a < 2 ^ 64 -> 0 < b < 2 ^ 64 ->
  let s := Z.max (53 + Zdigits2 b - Zdigits2 a) 0 in
  SFdiv_core_binary prec emax a 0 b 0
  = (a * 2 ^ s / b, - s, new_location b (a * 2 ^ s mod b)).
Proof.
  intros [Ha0 Ha] [Hb0 Hb] s.
  pose proof (Zdigits2_pos a Ha0) as Pa. pose proof (Zdigits2_pos b Hb0) as Pb.
  pose proof (Zdigits2_le a 64 Ha0 ltac:(lia) Ha) as La.
  pose proof (Zdigits2_le b 64 Hb0 ltac:(lia) Hb) as Lb.
  unfold SFdiv_core_binary.
  rewrite !Z.add_0_r, Z.sub_0_r.
  rewrite fexp_normal by lia.
  assert (He' : Z.min (Zdigits2 a - Zdigits2 b - 53) 0 = - s) by (unfold s; lia).
  rewrite He'. replace (0 - - s) with s by lia.
  assert (Hm' : match s with Z.pos _ => Z.shiftl a s | 0 => a | Z.neg _ => 0 end = a * 2 ^ s).
  { assert (0 <= s) by (unfold s; lia).
    destruct s as [|p|p]; [change (2 ^ 0) with 1; lia | | lia].
    rewrite Z.shiftl_mul_pow2 by lia. reflexivity. }
  rewrite Hm'. unfold Z.div, Z.modulo.
  destruct (Z.div_eucl (a * 2 ^ s) b) as [q r]. reflexivity.
Qed.

(** Faithful rounding of the quotient of two positive integers below [2^64]. *)
Lemma SFdiv_faithful s1 s2 pa pb :
  Zpos pa < 2 ^ 64 -> Zpos pb < 2 ^ 64 ->
  exists m e,
    SFdiv prec emax (S754_finite s1 pa 0) (S754_finite s2 pb 0)
      = S754_finite (xorb s1 s2) m e /\
    2 ^ 52 <= Zpos m < 2 ^ 53 /\
    -117 <= e <= 12 /\
    Z.abs (Zpos m * 2 ^ (e + 1074) * Zpos pb - Zpos pa * 2 ^ 1074) * 2 ^ 52
      <= Zpos pa * 2 ^ 1074.
Proof.
  intros Ha Hb. unfold SFdiv.
  rewrite SFdiv_core_small by lia.
  generalize (Zpos pa) (Zpos pb) Ha Hb (eq_refl : 0 < Zpos pa) (eq_refl : 0 < Zpos pb).
  clear pa pb Ha Hb. intros a b Ha Hb Ha0 Hb0.
  pose proof (Zdigits2_bounds a Ha0) as Da. pose proof (Zdigits2_bounds b Hb0) as Db.
  pose proof (Zdigits2_pos a Ha0) as Pa. pose proof (Zdigits2_pos b Hb0) as Pb.
  pose proof (Zdigits2_le a 64 Ha0 ltac:(lia) Ha) as La.
  pose proof (Zdigits2_le b 64 Hb0 ltac:(lia) Hb) as Lb.
  remember (Zdigits2 a) as d1 eqn:Ed1 in *. remember (Zdigits2 b) as d2 eqn:Ed2 in *.
  remember (Z.max (53 + d2 - d1) 0) as s eqn:Es.
  assert (Hs : 0 <= s <= 116) by lia.
  assert (HS : 0 < 2 ^ s) by (apply Z.pow_pos_nonneg; lia).
  remember (a * 2 ^ s / b) as q eqn:Eq.
  (* bounds on the integer quotient *)
  assert (Hqb : q * b <= a * 2 ^ s < (q + 1) * b).
  { subst q. pose proof (Z.mul_div_le (a * 2 ^ s) b Hb0).
    pose proof (Z.mul_succ_div_gt (a * 2 ^ s) b Hb0). lia. }
  assert (Hlow : 2 ^ 52 * b <= a * 2 ^ s).
  { apply Z.le_trans with (2 ^ 52 * 2 ^ d2);
      [apply Z.mul_le_mono_nonneg_l; lia|].
    rewrite <- Z.pow_add_r by lia.
    apply Z.le_trans with (2 ^ (d1 - 1) * 2 ^ s).
    - rewrite <- Z.pow_add_r by lia. apply Z.pow_le_mono_r; lia.
    - apply Z.mul_le_mono_nonneg_r; lia. }
  assert (Hq52 : 2 ^ 52 <= q).
  { subst q. apply Z.div_le_lower_bound; lia. }
  assert (Hq0 : 0 < q) by lia.
  pose proof (Zdigits2_ge q 52 ltac:(lia) Hq52) as Dq1.
  assert (Dq2 : Zdigits2 q <= d1 + s - d2 + 1).
  { apply Zdigits2_le; [lia|lia|].
    assert (E : 2 ^ d1 * 2 ^ s = 2 ^ (d1 + s - d2 + 1) * 2 ^ (d2 - 1)).
    { rewrite <- !Z.pow_add_r by lia. f_equal. lia. }
    assert (HP : 0 < 2 ^ (d2 - 1)) by (apply Z.pow_pos_nonneg; lia).
    apply (Z.mul_lt_mono_pos_r (2 ^ (d2 - 1))); [exact HP|].
    rewrite <- E.
    apply Z.le_lt_trans with (q * b); [apply Z.mul_le_mono_nonneg_l; lia|].
    apply Z.le_lt_trans with (a * 2 ^ s); [lia|].
    apply Z.mul_lt_mono_pos_r; lia. }
  remember (Zdigits2 q - 53) as k eqn:Ek.
  destruct (binary_round_aux_faithful (xorb s1 s2) q (- s)
              (new_location b ((a * 2 ^ s) mod b)) k)
    as (m & e & Hr & Hm & He & Hv); [lia | lia | lia | lia |].
  exists m, e. split; [exact Hr|]. split; [exact Hm|]. split; [lia|].
  replace (e - - s) with (e + s) in Hv by lia.
  assert (HK : 0 < 2 ^ k) by (apply Z.pow_pos_nonneg; lia).
  assert (HKq : 2 ^ 52 * 2 ^ k <= q).
  { pose proof (Zdigits2_bounds q Hq0) as [B _].
    replace (Zdigits2 q - 1) with (52 + k) in B by lia.
    rewrite Z.pow_add_r in B by lia. exact B. }
  assert (HQ : q / 2 ^ k * 2 ^ k <= q < q / 2 ^ k * 2 ^ k + 2 ^ k).
  { pose proof (Z.mul_div_le q (2 ^ k) HK). pose proof (Z.mul_succ_div_gt q (2 ^ k) HK). lia. }
  remember (q / 2 ^ k * 2 ^ k) as Q eqn:EQ.
  remember (2 ^ k) as K eqn:EK.
  remember (Z.pos m * 2 ^ (e + s)) as M eqn:EM.
  assert (HM : Z.abs (M * b - a * 2 ^ s) * 2 ^ 52 <= a * 2 ^ s).
  { assert (B1 : Q * b <= q * b) by (apply Z.mul_le_mono_nonneg_r; lia).
    assert (B2 : (q + 1) * b <= (Q + K) * b) by (apply Z.mul_le_mono_nonneg_r; lia).
    assert (B3 : 2 ^ 52 * K * b <= q * b) by (apply Z.mul_le_mono_nonneg_r; lia).
    assert (B4 : Z.abs (M * b - a * 2 ^ s) <= K * b).
    { destruct Hv as [Hv|Hv].
      - rewrite Hv. lia.
      - replace ((q / K + 1) * K) with (Q + K) in Hv by lia. rewrite Hv. lia. }
    lia. }
  assert (HT : 0 < 2 ^ (1074 - s)) by (apply Z.pow_pos_nonneg; lia).
  assert (E1 : Z.pos m * 2 ^ (e + 1074) = M * 2 ^ (1074 - s)).
  { subst M. rewrite <- Z.mul_assoc, <- Z.pow_add_r by lia. do 2 f_equal. lia. }
  assert (E2 : 2 ^ 1074 = 2 ^ s * 2 ^ (1074 - s)).
  { rewrite <- Z.pow_add_r by lia. f_equal. lia. }
  rewrite E1, E2.
  remember (2 ^ (1074 - s)) as T. remember (2 ^ s) as S.
  replace (M * T * b - a * (S * T)) with ((M * b - a * S) * T) by ring.
  rewrite Z.abs_mul, (Z.abs_eq T) by lia.
  assert (B5 : Z.abs (M * b - a * S) * 2 ^ 52 * T <= a * S * T)
    by (apply Z.mul_le_mono_nonneg_r; lia).
  lia.
Qed.

(** Faithful rounding of the product of two normalised floats. *)
Lemma SFmul_faithful s1 m1 e1 s2 m2 e2 :
  2 ^ 52 <= Zpos m1 < 2 ^ 53 -> 2 ^ 52 <= Zpos m2 < 2 ^ 53 ->
  -1074 <= e1 + e2 + 52 -> e1 + e2 + 53 <= 970 ->
  exists m e,
    SFmul prec emax (S754_finite s1 m1 e1) (S754_finite s2 m2 e2)
      = S754_finite (xorb s1 s2) m e /\
    2 ^ 52 <= Zpos m < 2 ^ 53 /\
    e1 + e2 + 52 <= e <= e1 + e2 + 54 /\
    Z.abs (Zpos m * 2 ^ (e - e1 - e2) - Zpos m1 * Zpos m2) * 2 ^ 52
      <= Zpos m1 * Zpos m2.
Proof.
  intros H1 H2 Hlo Hhi. unfold SFmul.
  rewrite Pos2Z.inj_mul.
  remember (Zpos m1 * Zpos m2) as P eqn:EP.
  assert (HP : 2 ^ 104 <= P < 2 ^ 106).
  { subst P. split.
    - change (2 ^ 104) with (2 ^ 52 * 2 ^ 52). apply Z.mul_le_mono_nonneg; lia.
    - change (2 ^ 106) with (2 ^ 53 * 2 ^ 53). apply Z.mul_lt_mono_nonneg; lia. }
  assert (HP0 : 0 < P) by lia.
  pose proof (Zdigits2_ge P 104 ltac:(lia) (proj1 HP)) as D1.
  pose proof (Zdigits2_le P 106 HP0 ltac:(lia) (proj2 HP)) as D2.
  remember (Zdigits2 P - 53) as k eqn:Ek.
  destruct (binary_round_aux_faithful (xorb s1 s2) P (e1 + e2) loc_Exact k)
    as (m & e & Hr & Hm & He & Hv); [lia | lia | lia | lia |].
  exists m, e. split; [exact Hr|]. split; [exact Hm|]. split; [lia|].
  replace (e - e1 - e2) with (e - (e1 + e2)) by lia.
  assert (HK : 0 < 2 ^ k) by (apply Z.pow_pos_nonneg; lia).
  assert (HKP : 2 ^ 52 * 2 ^ k <= P).
  { pose proof (Zdigits2_bounds P HP0) as [B _].
    replace (Zdigits2 P - 1) with (52 + k) in B by lia.
    rewrite Z.pow_add_r in B by lia. exact B. }
  assert (HQ : P / 2 ^ k * 2 ^ k <= P < P / 2 ^ k * 2 ^ k + 2 ^ k).
  { pose proof (Z.mul_div_le P (2 ^ k) HK).
    pose proof (Z.mul_succ_div_gt P (2 ^ k) HK). lia. }
  remember (2 ^ k) as K. remember (P / K * K) as Q.
  destruct Hv as [Hv|Hv].
  - rewrite Hv. lia.
  - replace ((P / K + 1) * K) with (Q + K) in Hv by lia. rewrite Hv. lia.
Qed.

(** Round half to even stays within half a unit. *)
Lemma round_half_even_shift_spec m k :
  0 <= m -> 0 <= k ->
  2 * Z.abs (round_half_even_shift m k * 2 ^ k - m) <= 2 ^ k.
Proof.
  intros Hm Hk. unfold round_half_even_shift.
  assert (HK : 0 < 2 ^ k) by (apply Z.pow_pos_nonneg; lia).
  pose proof (Z.div_mod m (2 ^ k) ltac:(lia)) as E.
  pose proof (Z.mod_pos_bound m (2 ^ k) HK) as B.
  remember (2 ^ k) as K. remember (m / K) as q. remember (m mod K) as r.
  destruct (Z.compare_spec (2 * r) K) as [C|C|C].
  - destruct (Z.even q); lia.
  - lia.
  - lia.
Qed.

(** [py_truediv] on positive integers below [2^64]. *)
Lemma py_truediv_pos a b :
  0 < a < 2 ^ 64 -> 0 < b < 2 ^ 64 ->
  exists m e,
    py_truediv a b = Val (S754_finite false m e) /\
    2 ^ 52 <= Zpos m < 2 ^ 53 /\ -117 <= e <= 12 /\
    Z.abs (Zpos m * 2 ^ (e + 1074) * b - a * 2 ^ 1074) * 2 ^ 52 <= a * 2 ^ 1074.
Proof.
  intros Ha Hb. destruct a as [|pa|pa]; try lia. destruct b as [|pb|pb]; try lia.
  destruct (SFdiv_faithful false false pa pb) as (m & e & Hr & Hm & He & Hv); try lia.
  exists m, e. unfold py_truediv. cbn [raw_of_int Z.eqb]. rewrite Hr.
  auto.
Qed.


Lemma dict_get_In {V} (d : list (string * V)) k v :
  dict_get d k = Some v -> In (k, v) d.
Proof.
  induction d as [|[k' v'] d IH]; cbn [dict_get]; [discriminate|].
  destruct (String.eqb_spec k k') as [->|_].
  - intros [= ->]. left. reflexivity.
  - intros Hd. right. auto.
Qed.

(** The five entries of [RES_MAP]. *)
Lemma RES_MAP_cases r W H br :
  dict_get RES_MAP r = Some (W, H, br) ->
  (H, br) = (2160, 12000000) \/ (H, br) = (1440, 8000000) \/
  (H, br) = (1080, 5000000) \/ (H, br) = (720, 2800000) \/
  (H, br) = (480, 1400000).
Proof.
  intros Hd. apply dict_get_In in Hd. unfold RES_MAP in Hd. cbn [In] in Hd.
  destruct Hd as [E|[E|[E|[E|[E|[]]]]]]; injection E as <- <- <- <-; auto 6.
Qed.

(** The float of each ladder height is exact and normalised. *)
Lemma float_of_height r W H br :
  dict_get RES_MAP r = Some (W, H, br) ->
  exists mh eh,
    py_float_of_int H = Val (S754_finite false mh eh) /\
    2 ^ 52 <= Zpos mh < 2 ^ 53 /\ -44 <= eh <= -41 /\
    Zpos mh = H * 2 ^ (- eh) /\ 0 < H < 2 ^ 12.
Proof.
  intros Hd. apply RES_MAP_cases in Hd.
  destruct Hd as [E|[E|[E|[E|E]]]]; injection E as -> _;
    eexists _, _; (split; [vm_compute; reflexivity|]);
    vm_compute; repeat split; discriminate.
Qed.
(** Rounding error of the whole width computation, in integers.
    [S] is a common power of two, [A] and [Y] are the aspect ratio and
    the product scaled by it. *)
Lemma width_error_chain S A Y n sw sh H :
  0 < S -> 0 < sw -> 0 < sh -> 0 < H -> 0 <= A ->
  Z.abs (A * sh - sw * S) * 2 ^ 52 <= sw * S ->
  Z.abs (Y - H * A) * 2 ^ 52 <= H * A ->
  2 * Z.abs (n * S - Y) <= S ->
  6 * H * sw < 2 ^ 52 ->
  2 * Z.abs (n * sh - H * sw) <= sh.
Proof.
  intros HS Hsw Hsh HH HA R1 R2 R3 Hsmall.
  remember (n * S - Y) as u. remember (Y - H * A) as v.
  remember (A * sh - sw * S) as w.
  assert (ED : (n * sh - H * sw) * S = sh * u + sh * v + H * w)
    by (subst; ring).
  assert (P1 : sh * (2 * Z.abs u) <= sh * S) by (apply Z.mul_le_mono_nonneg_l; lia).
  assert (P2 : sh * (Z.abs v * 2 ^ 52) <= sh * (H * A))
    by (apply Z.mul_le_mono_nonneg_l; lia).
  assert (P3 : H * (Z.abs w * 2 ^ 52) <= H * (sw * S))
    by (apply Z.mul_le_mono_nonneg_l; lia).
  assert (P4 : H * (A * sh * 2 ^ 52) <= H * (sw * S * (2 ^ 52 + 1))).
  { apply Z.mul_le_mono_nonneg_l; [lia|]. subst w. lia. }
  assert (T : Z.abs ((n * sh - H * sw) * S) <= sh * Z.abs u + sh * Z.abs v + H * Z.abs w).
  { rewrite ED.
    eapply Z.le_trans; [apply Z.abs_triangle|].
    eapply Z.le_trans; [apply Z.add_le_mono_r, Z.abs_triangle|].
    rewrite !Z.abs_mul, (Z.abs_eq sh), (Z.abs_eq H) by lia. lia. }
  rewrite Z.abs_mul, (Z.abs_eq S) in T by lia.
  remember (Z.abs (n * sh - H * sw)) as D.
  remember (Z.abs u) as au. remember (Z.abs v) as av. remember (Z.abs w) as aw.
  assert (B : D * 2 ^ 53 * S < 2 ^ 52 * (sh + 1) * S).
  { assert (X : 6 * H * sw * S < 2 ^ 52 * S) by (apply Z.mul_lt_mono_pos_r; lia).
    lia. }
  apply Z.mul_lt_mono_pos_r in B; lia.
Qed.

Lemma even_is_even n : Z.even (even n) = true.
Proof.
  unfold even. destruct (Z.eqb_spec (n mod 2) 0) as [E|E].
  - rewrite Zeven_mod. apply Z.eqb_eq. exact E.
  - rewrite Zeven_mod. apply Z.eqb_eq.
    pose proof (Z.mod_pos_bound n 2 ltac:(lia)).
    assert (n mod 2 = 1) by lia.
    rewrite Zminus_mod, H0. reflexivity.
Qed.

Lemma even_cases n : even n = n \/ even n = n - 1.
Proof. unfold even. destruct (n mod 2 =? 0); auto. Qed.

(** One rendition of the ['source'] branch: the product [H * ar] and its
    rounding exist, and the rounded value is within half a pixel column of
    the exact [H * sw / sh]. *)
Lemma source_width_exact r W H br sw sh ma ea :
  dict_get RES_MAP r = Some (W, H, br) ->
  0 < sw < 2 ^ 32 -> 0 < sh < 2 ^ 32 ->
  2 ^ 52 <= Zpos ma < 2 ^ 53 -> -117 <= ea <= 12 ->
  Z.abs (Zpos ma * 2 ^ (ea + 1074) * sh - sw * 2 ^ 1074) * 2 ^ 52 <= sw * 2 ^ 1074 ->
  exists x n,
    py_mul_int_float H (S754_finite false ma ea) = Val x /\
    py_round x = Val n /\
    2 * Z.abs (n * sh - H * sw) <= sh.
Proof.
  intros Hd Hsw Hsh Hma Hea R1.
  destruct (float_of_height r W H br Hd) as (mh & eh & Hf & Hmh & Heh & EH & HH).
  destruct (SFmul_faithful false mh eh false ma ea) as (my & ey & Hr & Hmy & Hey & R2);
    try lia.
  exists (S754_finite false my ey).
  unfold py_mul_int_float. rewrite Hf. cbn [rbind]. unfold fmul. rewrite Hr.
  cbn [xorb py_round].
  eexists. split; [reflexivity|]. split; [reflexivity|].
  set (n := if 0 <=? ey then Z.pos my * 2 ^ ey else round_half_even_shift (Z.pos my) (- ey)).
  remember (2 ^ 1074) as S eqn:ES.
  assert (HS : 0 < S) by (subst S; apply Z.pow_pos_nonneg; lia).
  remember (Zpos ma * 2 ^ (ea + 1074)) as A eqn:EA.
  assert (HA : 0 <= A).
  { subst A. apply Z.mul_nonneg_nonneg; [lia|]. apply Z.pow_nonneg; lia. }
  apply (width_error_chain S A (Zpos my * 2 ^ (ey + 1074)) n sw sh H); try lia.
  - (* the product *)
    assert (HU : 0 < 2 ^ (eh + ea + 1074)) by (apply Z.pow_pos_nonneg; lia).
    assert (E1 : Zpos my * 2 ^ (ey + 1074)
                 = Zpos my * 2 ^ (ey - eh - ea) * 2 ^ (eh + ea + 1074)).
    { rewrite <- Z.mul_assoc, <- Z.pow_add_r by lia. do 2 f_equal. lia. }
    assert (EP : 2 ^ (- eh) * 2 ^ (eh + ea + 1074) = 2 ^ (ea + 1074)).
    { rewrite <- Z.pow_add_r by lia. f_equal. lia. }
    assert (E2 : H * A = Zpos mh * Zpos ma * 2 ^ (eh + ea + 1074)).
    { subst A. rewrite EH, <- EP. ring. }
    rewrite E1, E2.
    remember (2 ^ (eh + ea + 1074)) as U.
    replace (Z.pos my * 2 ^ (ey - eh - ea) * U - Z.pos mh * Z.pos ma * U)
      with ((Z.pos my * 2 ^ (ey - eh - ea) - Z.pos mh * Z.pos ma) * U) by ring.
    rewrite Z.abs_mul, (Z.abs_eq U) by lia.
    remember (Z.abs (Z.pos my * 2 ^ (ey - eh - ea) - Z.pos mh * Z.pos ma)) as t.
    assert (t * 2 ^ 52 * U <= Z.pos mh * Z.pos ma * U)
      by (apply Z.mul_le_mono_nonneg_r; lia).
    lia.
  - (* the rounding to an integer *)
    unfold n. destruct (Z.leb_spec 0 ey) as [Hpos|Hneg].
    + replace (Z.pos my * 2 ^ ey * S - Z.pos my * 2 ^ (ey + 1074)) with 0; [lia|].
      subst S. rewrite Z.pow_add_r by lia. ring.
    + pose proof (round_half_even_shift_spec (Zpos my) (- ey) ltac:(lia) ltac:(lia)) as R3.
      assert (HV : 0 < 2 ^ (ey + 1074)) by (apply Z.pow_pos_nonneg; lia).
      assert (ES' : S = 2 ^ (- ey) * 2 ^ (ey + 1074)).
      { subst S. rewrite <- Z.pow_add_r by lia. f_equal. lia. }
      rewrite ES'.
      remember (round_half_even_shift (Z.pos my) (- ey)) as q.
      remember (2 ^ (- ey)) as K. remember (2 ^ (ey + 1074)) as V.
      replace (q * (K * V) - Z.pos my * V) with ((q * K - Z.pos my) * V) by ring.
      rewrite Z.abs_mul, (Z.abs_eq V) by lia.
      assert (2 * Z.abs (q * K - Z.pos my) * V <= K * V)
        by (apply Z.mul_le_mono_nonneg_r; lia).
      lia.
  - (* smallness *)
    assert (H * sw < 2 ^ 12 * 2 ^ 32) by (apply Z.mul_lt_mono_nonneg; lia).
    lia.
Qed.

(** ** The sort *)

Lemma insert_desc_perm x l : insert_desc x l ≡ₚ x :: l.
Proof.
  induction l as [|y l IH]; cbn [insert_desc]; [reflexivity|].
  destruct (t_h y <=? t_h x); [reflexivity|].
  rewrite IH. apply Permutation_swap.
Qed.

Lemma sort_desc_perm l : sort_desc l ≡ₚ l.
Proof.
  induction l as [|x l IH]; cbn [sort_desc]; [reflexivity|].
  rewrite insert_desc_perm, IH. reflexivity.
Qed.

Lemma insert_desc_sorted x l :
  StronglySorted taller_eq l -> StronglySorted taller_eq (insert_desc x l).
Proof.
  induction 1 as [|y l Hs IH Hy]; cbn [insert_desc].
  - repeat constructor.
  - destruct (Z.leb_spec (t_h y) (t_h x)) as [Hle|Hgt].
    + constructor; [constructor; assumption|].
      constructor; [exact Hle|].
      eapply Forall_impl; [exact Hy|]. unfold taller_eq. intros; lia.
    + constructor; [exact IH|].
      rewrite insert_desc_perm. constructor; [unfold taller_eq; lia|exact Hy].
Qed.

Lemma sort_desc_sorted l : StronglySorted taller_eq (sort_desc l).
Proof.
  induction l as [|x l IH]; cbn [sort_desc]; [constructor|].
  apply insert_desc_sorted, IH.
Qed.

(** Sorted with pairwise distinct heights is strictly sorted. *)
Lemma sorted_nodup_strict l :
  StronglySorted taller_eq l -> NoDup (t_h <$> l) -> StronglySorted taller l.
Proof.
  induction 1 as [|x l Hs IH Hx]; intros Hnd; [constructor|].
  rewrite fmap_cons in Hnd. apply NoDup_cons in Hnd as [Hnin Hnd].
  constructor; [auto|].
  rewrite Forall_forall in Hx |- *. intros y Hy.
  specialize (Hx y Hy). unfold taller, taller_eq in *.
  assert (t_h y ≠ t_h x); [|lia].
  intros E. apply Hnin. rewrite <- E. apply list_elem_of_fmap_2. exact Hy.
Qed.

(** ** What the two loops put in the list *)

Lemma fixed_targets_entries rs : entries_of rs (fixed_targets rs).
Proof.
  induction rs as [|r rs IH]; cbn [fixed_targets]; [constructor|].
  destruct (dict_get RES_MAP r) as [[[W H] br]|] eqn:E.
  - eapply entries_keep; eauto.
  - apply entries_skip; auto.
Qed.

Lemma source_targets_entries ar rs l :
  source_targets ar rs = Val l -> entries_of rs l.
Proof.
  revert l. induction rs as [|r rs IH]; cbn [source_targets]; intros l Hl.
  - injection Hl as <-. constructor.
  - destruct (dict_get RES_MAP r) as [[[W H] br]|] eqn:E.
    + destruct (py_mul_int_float H ar) as [x|]; [|discriminate]. cbn [rbind] in Hl.
      destruct (py_round x) as [n|]; [|discriminate]. cbn [rbind] in Hl.
      destruct (source_targets ar rs) as [rest|]; [|discriminate]. cbn [rbind] in Hl.
      injection Hl as <-. eapply entries_keep; eauto.
    + apply entries_skip; auto.
Qed.

Lemma entries_of_heights rs l :
  entries_of rs l -> t_h <$> l = omap entry_height rs.
Proof.
  unfold entry_height.
  induction 1 as [|r rs l E _ IH|r rs l W H br w E _ IH]; cbn [omap list_omap fmap list_fmap].
  - reflexivity.
  - rewrite E. exact IH.
  - rewrite E. cbn. f_equal. exact IH.
Qed.

Lemma entries_of_elem rs l t :
  entries_of rs l -> t ∈ l ->
  exists r W, r ∈ rs /\ dict_get RES_MAP r = Some (W, t_h t, t_br t)
              /\ t_name t = str (t_h t) +:+ "p".
Proof.
  induction 1 as [|r rs l E _ IH|r rs l W H br w E _ IH]; intros Ht.
  - inversion Ht.
  - destruct (IH Ht) as (r' & W' & Hin & Hd & Hn).
    exists r', W'. split; [right; exact Hin|auto].
  - apply elem_of_cons in Ht as [->|Ht].
    + exists r, W. cbn. split; [left|auto].
    + destruct (IH Ht) as (r' & W' & Hin & Hd & Hn).
      exists r', W'. split; [right; exact Hin|auto].
Qed.

Lemma entries_of_length rs l :
  entries_of rs l ->
  length l = length (filter (fun r => is_Some (dict_get RES_MAP r)) rs).
Proof.
  induction 1 as [|r rs l E _ IH|r rs l W H br w E _ IH].
  - reflexivity.
  - rewrite filter_cons_False; [exact IH|]. rewrite E. intros [? [=]].
  - rewrite filter_cons_True by (rewrite E; eauto). cbn. f_equal. exact IH.
Qed.

(** Distinct keys of [RES_MAP] have distinct heights. *)
Lemma entry_height_inj r r' h :
  entry_height r = Some h -> entry_height r' = Some h -> r = r'.
Proof.
  unfold entry_height. intros E1 E2.
  destruct (dict_get RES_MAP r) as [[[W1 H1] b1]|] eqn:D1; [|discriminate].
  destruct (dict_get RES_MAP r') as [[[W2 H2] b2]|] eqn:D2; [|discriminate].
  cbn in E1, E2. injection E1 as ->. injection E2 as ->.
  apply dict_get_In in D1, D2. unfold RES_MAP in D1, D2. cbn [In] in D1, D2.
  destruct D1 as [E|[E|[E|[E|[E|[]]]]]]; injection E as <- <- <- <-;
  destruct D2 as [E|[E|[E|[E|[E|[]]]]]]; simplify_eq; reflexivity.
Qed.

Lemma omap_entry_height_nodup rs :
  NoDup rs -> NoDup (omap entry_height rs).
Proof.
  induction 1 as [|r rs Hnin _ IH]; cbn [omap list_omap]; [constructor|].
  destruct (entry_height r) as [h|] eqn:E; [|exact IH].
  constructor; [|exact IH].
  intros Hin. apply list_elem_of_omap in Hin as (r' & Hr' & E').
  apply Hnin. rewrite (entry_height_inj r r' h E E'). exact Hr'.
Qed.

(** ** Totality of the ['source'] branch *)

Lemma py_truediv_tame a b :
  Z.abs a < 2 ^ 64 -> 0 < Z.abs b < 2 ^ 64 ->
  exists x, py_truediv a b = Val x /\ tame x.
Proof.
  intros Ha Hb. unfold py_truediv.
  destruct b as [|pb|pb]; [lia| |]; cbn [Z.eqb raw_of_int];
    (destruct a as [|pa|pa]; cbn [raw_of_int];
     [eexists; split; [reflexivity|exact I] | |]);
    match goal with
    | |- context [SFdiv _ _ (S754_finite ?s1 ?p1 0) (S754_finite ?s2 ?p2 0)] =>
        destruct (SFdiv_faithful s1 s2 p1 p2) as (m & e & Hr & Hm & He & _);
          [lia | lia | rewrite Hr; eexists; split; [reflexivity|split; assumption]]
    end.
Qed.

Lemma source_targets_total ar rs :
  tame ar -> exists l, source_targets ar rs = Val l.
Proof.
  intros Har. induction rs as [|r rs [l IH]]; cbn [source_targets]; [eauto|].
  destruct (dict_get RES_MAP r) as [[[W H] br]|] eqn:E; [|eauto].
  destruct (float_of_height r W H br E) as (mh & eh & Hf & Hmh & Heh & _).
  unfold py_mul_int_float. rewrite Hf. cbn [rbind]. unfold fmul.
  destruct ar as [s|s| |s m e]; try contradiction.
  - cbn [SFmul py_round rbind]. rewrite IH. cbn [rbind]. eauto.
  - destruct Har as [Hm He].
    destruct (SFmul_faithful false mh eh s m e) as (my & ey & Hr & _); try lia.
    rewrite Hr. cbn [py_round rbind]. rewrite IH. cbn [rbind]. eauto.
Qed.

Lemma sixteen_ninths_tame : exists x, py_truediv 16 9 = Val x /\ tame x.
Proof. apply py_truediv_tame; cbn; lia. Qed.

(** ** The ladder *)

Lemma build_targets_val renditions mode src_w src_h ladder :
  build_targets renditions mode src_w src_h = Val ladder ->
  exists t, ladder = sort_desc t /\ entries_of renditions t /\
    (mode = "source" ->
     exists ar, (if negb (src_h =? 0) then py_truediv src_w src_h
                 else py_truediv 16 9) = Val ar /\
                source_targets ar renditions = Val t).
Proof.
  unfold build_targets. destruct (String.eqb_spec mode "source") as [->|Hm].
  - destruct (if negb (src_h =? 0) then _ else _) as [ar|]; [|discriminate].
    cbn [rbind]. destruct (source_targets ar renditions) as [t|] eqn:Et; [|discriminate].
    cbn [rbind]. intros [= <-]. exists t. split; [reflexivity|].
    split; [eapply source_targets_entries; eauto|]. intros _. eauto.
  - cbn [rbind]. intros [= <-]. exists (fixed_targets renditions).
    split; [reflexivity|]. split; [apply fixed_targets_entries|]. intros; contradiction.
Qed.

Lemma build_targets_total renditions mode src_w src_h :
  mode ≠ "source" \/ (Z.abs src_w < 2 ^ 64 /\ Z.abs src_h < 2 ^ 64) ->
  exists ladder, build_targets renditions mode src_w src_h = Val ladder.
Proof.
  unfold build_targets. destruct (String.eqb_spec mode "source") as [->|Hm].
  - intros [C|[Hw Hh]]; [contradiction|].
    assert (Har : exists ar, (if negb (src_h =? 0) then py_truediv src_w src_h
                              else py_truediv 16 9) = Val ar /\ tame ar).
    { destruct (Z.eqb_spec src_h 0) as [->|Hnz]; cbn [negb].
      - apply sixteen_ninths_tame.
      - apply py_truediv_tame; lia. }
    destruct Har as (ar & -> & Htame). cbn [rbind].
    destruct (source_targets_total ar renditions Htame) as [l ->]. cbn [rbind]. eauto.
  - intros _. cbn [rbind]. eauto.
Qed.

(** The properties of a returned ladder. *)
Lemma ladder_properties renditions t :
  entries_of renditions t ->
  StronglySorted taller_eq (sort_desc t) /\
  (forall x, x ∈ sort_desc t ->
     exists r W, r ∈ renditions /\ dict_get RES_MAP r = Some (W, t_h x, t_br x)
                 /\ t_name x = str (t_h x) +:+ "p") /\
  t_h <$> sort_desc t ≡ₚ omap entry_height renditions /\
  length (sort_desc t)
    = length (filter (fun r => is_Some (dict_get RES_MAP r)) renditions) /\
  (NoDup renditions -> StronglySorted taller (sort_desc t) /\ NoDup (sort_desc t)).
Proof.
  intros He. split; [apply sort_desc_sorted|]. split; [|split; [|split]].
  - intros x Hx. rewrite sort_desc_perm in Hx. eapply entries_of_elem; eauto.
  - rewrite sort_desc_perm, (entries_of_heights _ _ He). reflexivity.
  - rewrite sort_desc_perm. apply entries_of_length, He.
  - intros Hnd.
    assert (Hh : NoDup (t_h <$> sort_desc t)).
    { rewrite sort_desc_perm, (entries_of_heights _ _ He).
      apply omap_entry_height_nodup, Hnd. }
    split.
    + apply sorted_nodup_strict; [apply sort_desc_sorted|exact Hh].
    + eapply NoDup_fmap_1, Hh.
Qed.

(** C1 (amended).  For every requested resolution list, aspect policy and
    probed dimensions, [build_targets] returns a ladder unless the policy is
    ['source'] and a dimension reaches [2^64] in absolute value.  A returned
    ladder is sorted by descending height (weakly: entries of equal height
    are adjacent), every entry carries the height, bitrate and label of a
    requested key of [RES_MAP] (so no entry stems from an unknown key), and
    there is one entry per occurrence of a known key in the request: the
    heights of the ladder are, up to their order, the heights of the known
    keys of the request, each as often as its key is requested.  When the
    requested keys are pairwise distinct, the ladder is strictly descending
    by height and free of duplicates. *)
Theorem build_targets_ladder renditions mode src_w src_h :
  match build_targets renditions mode src_w src_h with
  | Val ladder =>
      StronglySorted taller_eq ladder /\
      (forall t, t ∈ ladder ->
         exists r W, r ∈ renditions /\
                     dict_get RES_MAP r = Some (W, t_h t, t_br t) /\
                     t_name t = str (t_h t) +:+ "p") /\
      t_h <$> ladder ≡ₚ omap entry_height renditions /\
      length ladder
        = length (filter (fun r => is_Some (dict_get RES_MAP r)) renditions) /\
      (NoDup renditions -> StronglySorted taller ladder /\ NoDup ladder)
  | Raise _ =>
      mode = "source" /\ (2 ^ 64 <= Z.abs src_w \/ 2 ^ 64 <= Z.abs src_h)
  end.
Proof.
  destruct (build_targets renditions mode src_w src_h) as [ladder|e] eqn:E.
  - destruct (build_targets_val _ _ _ _ _ E) as (t & -> & He & _).
    apply ladder_properties, He.
  - destruct (String.eqb_spec mode "source") as [Hm|Hm].
    + split; [exact Hm|].
      destruct (Z.lt_ge_cases (Z.abs src_w) (2 ^ 64)) as [Hw|Hw]; [|auto].
      destruct (Z.lt_ge_cases (Z.abs src_h) (2 ^ 64)) as [Hh|Hh]; [|auto].
      destruct (build_targets_total renditions mode src_w src_h) as [l Hl]; [auto|].
      congruence.
    + destruct (build_targets_total renditions mode src_w src_h) as [l Hl]; [auto|].
      congruence.
Qed.

(** The theorem on a request with distinct keys, one of them unknown. *)
Lemma build_targets_ladder_witness :
  NoDup ["720"; "bogus"; "1080"] /\
  exists ladder,
    build_targets ["720"; "bogus"; "1080"] "source" 1920 1080 = Val ladder /\
    t_h <$> ladder ≡ₚ [720; 1080] /\
    length ladder = 2%nat /\ StronglySorted taller ladder /\ NoDup ladder.
Proof.
  assert (Hnd : NoDup ["720"; "bogus"; "1080"]).
  { apply (bool_decide_unpack _). vm_compute. exact I. }
  split; [exact Hnd|].
  pose proof (build_targets_ladder ["720"; "bogus"; "1080"] "source" 1920 1080) as H.
  destruct (build_targets ["720"; "bogus"; "1080"] "source" 1920 1080) as [ladder|e] eqn:E.
  - exists ladder. destruct H as (_ & _ & Hperm & Hlen & Hstrict).
    split; [reflexivity|]. split; [exact Hperm|]. split; [exact Hlen|]. exact (Hstrict Hnd).
  - vm_compute in E. discriminate.
Defined.

(** C1, as stated, fails: a key requested twice yields two entries, so the
    ladder is neither strictly descending nor free of duplicates. *)
Lemma build_targets_duplicate_key :
  exists ladder,
    build_targets ["720"; "720"] "fixed" 1920 1080 = Val ladder /\
    ~ StronglySorted taller ladder /\ ~ NoDup ladder.
Proof.
  eexists. split; [vm_compute; reflexivity|]. split.
  - intros Hs. inversion Hs as [|? ? _ Hf]. inversion Hf as [|? ? Hlt _].
    unfold taller in Hlt. cbn in Hlt. lia.
  - intros Hn. apply NoDup_cons in Hn as [Hn _]. apply Hn. left.
Qed.

(** ** Widths of the ['source'] branch *)

(** Every width of the ['source'] branch is [even(int(round(H * ar)))]. *)
Lemma source_targets_width ar rs l t :
  source_targets ar rs = Val l -> t ∈ l ->
  exists x n, py_mul_int_float (t_h t) ar = Val x /\ py_round x = Val n /\
              t_w t = even n.
Proof.
  revert l. induction rs as [|r rs IH]; cbn [source_targets]; intros l Hl Ht.
  - injection Hl as <-. inversion Ht.
  - destruct (dict_get RES_MAP r) as [[[W H] br]|] eqn:E; [|eauto].
    destruct (py_mul_int_float H ar) as [x|] eqn:Ex; [|discriminate]. cbn [rbind] in Hl.
    destruct (py_round x) as [n|] eqn:En; [|discriminate]. cbn [rbind] in Hl.
    destruct (source_targets ar rs) as [rest|]; [|discriminate]. cbn [rbind] in Hl.
    injection Hl as <-. apply elem_of_cons in Ht as [->|Ht]; [|eauto].
    exists x, n. cbn. auto.
Qed.

(** C3 (amended).  With [ar-mode=source], every rendition of a returned
    ladder has an even width, equal to [even(int(round(height * ar)))]
    for [ar = src_w / src_h].  For probed dimensions between [1] and
    [2^32 - 1] the ladder exists and every width is within one and a half
    pixel columns of [height * src_w / src_h], that is, [width / height]
    differs from [src_w / src_h] by at most [3 / (2 * height)]. *)
Theorem source_width_even_and_close renditions src_w src_h :
  (forall ladder t,
     build_targets renditions "source" src_w src_h = Val ladder -> t ∈ ladder ->
     Z.even (t_w t) = true) /\
  (0 < src_w < 2 ^ 32 -> 0 < src_h < 2 ^ 32 ->
   exists ar ladder,
     py_truediv src_w src_h = Val ar /\
     build_targets renditions "source" src_w src_h = Val ladder /\
     forall t, t ∈ ladder ->
       (exists x n, py_mul_int_float (t_h t) ar = Val x /\ py_round x = Val n /\
                    t_w t = even n) /\
       2 * Z.abs (t_w t * src_h - t_h t * src_w) <= 3 * src_h).
Proof.
  split.
  - intros ladder t Hb Ht.
    destruct (build_targets_val _ _ _ _ _ Hb) as (l & -> & _ & Hs).
    destruct (Hs eq_refl) as (ar & _ & Hl).
    rewrite sort_desc_perm in Ht.
    destruct (source_targets_width ar renditions l t Hl Ht) as (x & n & _ & _ & ->).
    apply even_is_even.
  - intros Hw Hh.
    destruct (py_truediv_pos src_w src_h) as (ma & ea & Har & Hma & Hea & R1); [lia|lia|].
    destruct (build_targets_total renditions "source" src_w src_h) as [ladder Hb];
      [right; lia|].
    exists (S754_finite false ma ea), ladder. split; [exact Har|]. split; [exact Hb|].
    intros t Ht.
    destruct (build_targets_val _ _ _ _ _ Hb) as (l & -> & He & Hs).
    destruct (Hs eq_refl) as (ar & Har' & Hl).
    replace (negb (src_h =? 0)) with true in Har'
      by (symmetry; apply negb_true_iff, Z.eqb_neq; lia).
    rewrite Har in Har'. injection Har' as <-.
    rewrite sort_desc_perm in Ht.
    destruct (source_targets_width _ renditions l t Hl Ht) as (x & n & Hx & Hn & HW).
    split; [eauto|].
    destruct (entries_of_elem _ _ _ He Ht) as (r & W & _ & Hd & _).
    destruct (source_width_exact r W (t_h t) (t_br t) src_w src_h ma ea Hd Hw Hh Hma Hea)
      as (x' & n' & Hx' & Hn' & Hbound).
    { exact R1. }
    rewrite Hx in Hx'. injection Hx' as <-. rewrite Hn in Hn'. injection Hn' as <-.
    rewrite HW. destruct (even_cases n) as [->| ->]; lia.
Qed.

(** The theorem at a 4:3 PAL source. *)
Lemma source_width_even_and_close_witness :
  (0 < 720 < 2 ^ 32 /\ 0 < 576 < 2 ^ 32) /\
  exists ar ladder,
    py_truediv 720 576 = Val ar /\
    build_targets ["1080"; "480"] "source" 720 576 = Val ladder /\
    forall t, t ∈ ladder ->
      (exists x n, py_mul_int_float (t_h t) ar = Val x /\ py_round x = Val n /\
                   t_w t = even n) /\
      2 * Z.abs (t_w t * 576 - t_h t * 720) <= 3 * 576.
Proof.
  split; [lia|].
  apply (proj2 (source_width_even_and_close ["1080"; "480"] 720 576)); lia.
Defined.

(** C3, as stated, fails: a 1920x1080 source at 480 lines gets width 852,
    which is 1.33 pixel columns away from 480 * 1920 / 1080 = 853.33, so
    [width / height] differs from [src_w / src_h] by more than one pixel
    column ([1 / height]). *)
Lemma source_width_off_by_more_than_one_column :
  exists t,
    build_targets ["480"] "source" 1920 1080 = Val [t] /\
    t_w t = 852 /\ t_h t = 480 /\
    ~ (Z.abs (t_w t * 1080 - t_h t * 1920) <= 1080).
Proof.
  eexists. split; [vm_compute; reflexivity|]. cbn. repeat split. lia.
Qed.

(** ** No division by zero *)

Lemma py_mul_int_float_raise n x e :
  py_mul_int_float n x = Raise e -> e = OverflowError.
Proof.
  unfold py_mul_int_float, py_float_of_int.
  destruct (binary_normalize prec emax n 0 false); cbn [rbind]; congruence.
Qed.

Lemma py_round_raise x e :
  py_round x = Raise e -> e = OverflowError \/ e = ValueError.
Proof. destruct x; cbn [py_round]; intros [=]; auto. Qed.

Lemma source_targets_raise ar rs e :
  source_targets ar rs = Raise e -> e = OverflowError \/ e = ValueError.
Proof.
  induction rs as [|r rs IH]; cbn [source_targets]; [discriminate|].
  destruct (dict_get RES_MAP r) as [[[W H] br]|]; [|exact IH].
  destruct (py_mul_int_float H ar) as [x|e1] eqn:Ex; cbn [rbind].
  - destruct (py_round x) as [n|e2] eqn:En; cbn [rbind].
    + destruct (source_targets ar rs) as [rest|e3]; cbn [rbind]; [discriminate|].
      intros [= <-]. auto.
    + intros [= <-]. eapply py_round_raise; eauto.
  - intros [= <-]. left. eapply py_mul_int_float_raise; eauto.
Qed.

Lemma py_truediv_raise a b e :
  py_truediv a b = Raise e -> (b = 0 /\ e = ZeroDivisionError) \/ e = OverflowError.
Proof.
  unfold py_truediv. destruct (Z.eqb_spec b 0) as [->|Hb].
  - intros [= <-]. auto.
  - destruct (SFdiv prec emax (raw_of_int a) (raw_of_int b)); intros [=]; auto.
Qed.

(** C9.  In ['source'] mode a probed height of zero is not divided by: the
    aspect ratio is then [16 / 9], exactly as for a 16:9 source, and a
    ladder is returned whatever the requested keys and the probed width;
    and for no request, policy or dimensions does [build_targets] raise
    [ZeroDivisionError]. *)
Theorem build_targets_zero_height renditions mode src_w src_h :
  (exists ladder, build_targets renditions "source" src_w 0 = Val ladder) /\
  build_targets renditions "source" src_w 0
    = build_targets renditions "source" 16 9 /\
  build_targets renditions mode src_w src_h <> Raise ZeroDivisionError.
Proof.
  split; [|split].
  - unfold build_targets. cbn [String.eqb Ascii.eqb Bool.eqb Z.eqb negb].
    destruct sixteen_ninths_tame as (ar & -> & Htame). cbn [rbind].
    destruct (source_targets_total ar renditions Htame) as [l ->]. cbn [rbind]. eauto.
  - reflexivity.
  - unfold build_targets. destruct (String.eqb mode "source"); cbn [rbind]; [|discriminate].
    destruct (if negb (src_h =? 0) then _ else _) as [ar|e] eqn:Ear; cbn [rbind].
    + destruct (source_targets ar renditions) as [l|e] eqn:El; cbn [rbind]; [discriminate|].
      intros [= ->]. apply source_targets_raise in El as [?|?]; discriminate.
    + intros [= ->]. destruct (Z.eqb_spec src_h 0) as [Hz|Hnz]; cbn [negb] in Ear.
      * apply py_truediv_raise in Ear as [[? _]|?]; discriminate.
      * apply py_truediv_raise in Ear as [[? _]|?]; [contradiction|discriminate].
Qed.

(** ** Strings *)

#[local] Arguments String.append !s1 s2 : simpl nomatch.

Lemma append_nil_r s : s +:+ "" = s.
Proof. induction s as [|a s IH]; cbn; [reflexivity|]. rewrite IH. reflexivity. Qed.

Lemma append_assoc s1 s2 s3 : (s1 +:+ s2) +:+ s3 = s1 +:+ s2 +:+ s3.
Proof. induction s1 as [|a s1 IH]; cbn; [reflexivity|]. rewrite IH. reflexivity. Qed.

Lemma length_append s t : String.length (s +:+ t) = (String.length s + String.length t)%nat.
Proof. induction s as [|a s IH]; cbn; [reflexivity|]. rewrite IH. reflexivity. Qed.

Lemma no_char_app c s1 s2 : no_char c (s1 +:+ s2) = no_char c s1 && no_char c s2.
Proof.
  induction s1 as [|a s1 IH]; cbn; [reflexivity|].
  rewrite IH, andb_assoc. reflexivity.
Qed.

Lemma split_on_nonempty c s : split_on c s <> [].
Proof.
  destruct s as [|a s]; cbn; [discriminate|].
  destruct (Ascii.eqb a c); [discriminate|]. destruct (split_on c s); discriminate.
Qed.

Lemma split_on_prefix c p s :
  no_char c p = true ->
  split_on c (p +:+ s) = (p +:+ hd "" (split_on c s)) :: tail (split_on c s).
Proof.
  intros Hp. induction p as [|a p IH]; cbn.
  - pose proof (split_on_nonempty c s). destruct (split_on c s); [contradiction|reflexivity].
  - cbn in Hp. apply andb_true_iff in Hp as [Ha Hp]. apply negb_true_iff in Ha.
    rewrite Ha, (IH Hp). reflexivity.
Qed.

Lemma split_on_no_char c s : no_char c s = true -> split_on c s = [s].
Proof.
  intros Hs. rewrite <- (append_nil_r s) at 1. rewrite split_on_prefix by exact Hs.
  cbn. rewrite append_nil_r. reflexivity.
Qed.

Lemma split_on_sep c p s :
  no_char c p = true -> split_on c (p +:+ String c s) = p :: split_on c s.
Proof.
  intros Hp. rewrite split_on_prefix by exact Hp. cbn. rewrite Ascii.eqb_refl.
  cbn. rewrite append_nil_r. reflexivity.
Qed.

Lemma split_once_nonempty c s : split_once c s <> [].
Proof.
  destruct s as [|a s]; cbn; [discriminate|].
  destruct (Ascii.eqb a c); [discriminate|]. destruct (split_once c s); discriminate.
Qed.

Lemma split_once_prefix c p s :
  no_char c p = true ->
  split_once c (p +:+ s) = (p +:+ hd "" (split_once c s)) :: tail (split_once c s).
Proof.
  intros Hp. induction p as [|a p IH]; cbn.
  - pose proof (split_once_nonempty c s).
    destruct (split_once c s); [contradiction|reflexivity].
  - cbn in Hp. apply andb_true_iff in Hp as [Ha Hp]. apply negb_true_iff in Ha.
    rewrite Ha, (IH Hp). reflexivity.
Qed.

Lemma split_once_no_char c s : no_char c s = true -> split_once c s = [s].
Proof.
  intros Hs. rewrite <- (append_nil_r s) at 1. rewrite split_once_prefix by exact Hs.
  cbn. rewrite append_nil_r. reflexivity.
Qed.

Lemma split_once_sep c p s :
  no_char c p = true -> split_once c (p +:+ String c s) = [p; s].
Proof.
  intros Hp. rewrite split_once_prefix by exact Hp. cbn. rewrite Ascii.eqb_refl.
  cbn. rewrite append_nil_r. reflexivity.
Qed.

Lemma join_empty_cons p ps : join "" (p :: ps) = p +:+ join "" ps.
Proof. destruct ps; cbn; [rewrite append_nil_r|]; reflexivity. Qed.

Lemma join_cons_cons sep p q ps :
  join sep (p :: q :: ps) = p +:+ sep +:+ join sep (q :: ps).
Proof. reflexivity. Qed.

Lemma no_char_join_empty c ps :
  Forall (fun p => no_char c p = true) ps -> no_char c (join "" ps) = true.
Proof.
  induction 1 as [|p ps Hp _ IH]; [reflexivity|].
  rewrite join_empty_cons, no_char_app, Hp, IH. reflexivity.
Qed.

(** Splitting what [join] put together gives the parts back. *)
Lemma split_on_join c ps :
  ps <> [] -> Forall (fun p => no_char c p = true) ps ->
  split_on c (join (String c "") ps) = ps.
Proof.
  intros Hne Hall. induction Hall as [|p ps Hp Hall IH]; [contradiction|].
  destruct ps as [|q ps].
  - cbn. apply split_on_no_char, Hp.
  - rewrite join_cons_cons. cbn [String.append].
    rewrite split_on_sep by exact Hp. rewrite IH by discriminate. reflexivity.
Qed.

(** ** Decimal numerals *)

Lemma no_char_string_of_uint c d :
  is_digit_or_minus c = false -> no_char c (NilEmpty.string_of_uint d) = true.
Proof.
  intros Hc. induction d; cbn [NilEmpty.string_of_uint no_char]; try reflexivity;
    rewrite IHd, andb_true_r; apply negb_true_iff, Ascii.eqb_neq;
    intros <-; discriminate Hc.
Qed.

Lemma no_char_str c n : is_digit_or_minus c = false -> no_char c (str n) = true.
Proof.
  intros Hc. unfold str, NilZero.string_of_int.
  assert (Hu : forall d, no_char c (NilZero.string_of_uint d) = true).
  { intros d. unfold NilZero.string_of_uint.
    destruct d; try (apply no_char_string_of_uint; exact Hc).
    cbn [no_char]. rewrite andb_true_r. apply negb_true_iff, Ascii.eqb_neq.
    intros <-; discriminate Hc. }
  destruct (Z.to_int n) as [d|d]; [apply Hu|].
  cbn [no_char]. rewrite Hu, andb_true_r. apply negb_true_iff, Ascii.eqb_neq.
  intros <-; discriminate Hc.
Qed.

(** A numeral is never empty and starts with a digit or a minus sign. *)
Lemma str_head n : exists a s, str n = String a s /\ is_digit_or_minus a = true.
Proof.
  unfold str, NilZero.string_of_int.
  assert (Hu : forall d, exists a s, NilZero.string_of_uint d = String a s
                                     /\ is_digit_or_minus a = true).
  { intros d. unfold NilZero.string_of_uint.
    destruct d; cbn [NilEmpty.string_of_uint]; eexists _, _; split; reflexivity. }
  destruct (Z.to_int n) as [d|d]; [apply Hu|].
  eexists _, _; split; reflexivity.
Qed.

(** ** The filter graph *)

Ltac no_char_tac :=
  repeat (rewrite no_char_app);
  repeat (apply andb_true_intro; split);
  first [ reflexivity | apply no_char_str; reflexivity ].

Ltac split_norm :=
  repeat first
    [ progress cbn [split_on split_once String.append Ascii.eqb Bool.eqb hd tail
                      fmap list_fmap]
    | rewrite split_on_no_char by no_char_tac
    | rewrite split_once_no_char by no_char_tac
    | rewrite split_on_prefix by no_char_tac
    | rewrite split_once_prefix by no_char_tac
    | rewrite append_nil_r ].

Lemma parse_chain_chain_of i t : parse_chain (chain_of i t) = scale_chain i t.
Proof.
  unfold parse_chain, chain_of, scale_chain.
  rewrite !append_assoc.
  split_norm. unfold link_segment. split_norm.
  cbn [chain_of_segments String.eqb Ascii.eqb Bool.eqb app fmap list_fmap fst].
  split_norm. reflexivity.
Qed.

Lemma no_semicolon_chain_of i t : no_char ";" (chain_of i t) = true.
Proof. unfold chain_of. no_char_tac. Qed.

Lemma no_semicolon_split_text n : no_char ";" (split_text n) = true.
Proof.
  unfold split_text, concat_str. rewrite !no_char_app.
  repeat (apply andb_true_intro; split); try reflexivity.
  - apply no_char_str; reflexivity.
  - apply no_char_join_empty, Forall_fmap, Forall_forall. intros i _. cbn. no_char_tac.
Qed.

(** Splitting a run of bracketed labels at the opening brackets. *)
Lemma split_on_labels (body : Z -> string) (ixs : list Z) :
  (forall i, no_char "[" (body i) = true) ->
  split_on "[" (join "" ((fun i => String "[" (body i)) <$> ixs)) = "" :: (body <$> ixs).
Proof.
  intros Hb. induction ixs as [|i ixs IH]; [reflexivity|].
  rewrite fmap_cons, join_empty_cons.
  cbn [String.append split_on Ascii.eqb Bool.eqb].
  rewrite split_on_prefix by apply Hb. rewrite IH. cbn [hd tail].
  rewrite append_nil_r. reflexivity.
Qed.

Lemma parse_chain_split_text n : parse_chain (split_text n) = split_chain n.
Proof.
  unfold parse_chain, split_text, split_chain, concat_str.
  cbn [String.append split_on Ascii.eqb Bool.eqb tail].
  rewrite split_on_prefix by no_char_tac.
  replace ((fun i => "[v" +:+ str i +:+ "]") <$> range n)
    with ((fun i => String "[" ("v" +:+ str i +:+ "]")) <$> range n) by reflexivity.
  rewrite (split_on_labels (fun i => "v" +:+ str i +:+ "]"))
    by (intros i; no_char_tac).
  split_norm. unfold link_segment at 1. split_norm.
  cbn [chain_of_segments String.eqb Ascii.eqb Bool.eqb app].
  rewrite split_on_no_char by no_char_tac.
  f_equal. rewrite <- !list_fmap_compose. apply list_fmap_ext. intros ? i ?.
  unfold compose, link_segment. split_norm. reflexivity.
Qed.

Lemma enumerate_from_length {A} (l : list A) i : length (enumerate_from i l) = length l.
Proof. revert i. induction l as [|x l IH]; intros i; cbn; [reflexivity|]. rewrite IH. reflexivity. Qed.

Lemma range_length n : length (range n) = n.
Proof.
  unfold range, enumerate. rewrite length_fmap, enumerate_from_length, length_replicate.
  reflexivity.
Qed.

Lemma filter_name_scale w h :
  filter_name ("scale=w=" +:+ str w +:+ ":h=" +:+ str h +:+ ":flags=bicubic") = "scale".
Proof. reflexivity. Qed.

Lemma filter_name_split n : filter_name ("split=" +:+ str n) = "split".
Proof. reflexivity. Qed.

(** Filters of the scaling chains, counted by name. *)
Lemma count_filters_scale_chains name (l : list (Z * target)) :
  count_filters name ((fun it => scale_chain it.1 it.2) <$> l)
  = ((if bool_decide (name = "scale") then length l else 0)
     + (if bool_decide (name = "format") then length l else 0)
     + (if bool_decide (name = "setsar") then length l else 0))%nat.
Proof.
  unfold count_filters. induction l as [|[i t] l IH].
  - cbn. repeat case_bool_decide; reflexivity.
  - rewrite !fmap_cons. cbn [concat fc_filters scale_chain app].
    rewrite !filter_cons, filter_name_scale.
    change (filter_name "format=yuv420p") with "format".
    change (filter_name "setsar=1") with "setsar".
    repeat case_decide; repeat case_bool_decide; subst; try discriminate;
      try congruence; cbn [length] in *; lia.
Qed.

Lemma count_source_inputs_scale_chains (l : list (Z * target)) :
  filter (fun x => x = "0:v") (concat (fc_inputs <$> ((fun it => scale_chain it.1 it.2) <$> l)))
  = [].
Proof.
  induction l as [|[i t] l IH]; [reflexivity|].
  rewrite !fmap_cons. cbn [concat fc_inputs scale_chain app].
  rewrite filter_cons_False; [exact IH|]. cbn. discriminate.
Qed.

(** C2.  For a ladder of [N >= 1] renditions, the filter-graph description
    reads back as [N + 1] chains: one split stage fed by the decoded source
    [[0:v]] with [N] output branches, and for each rendition, in ladder
    order, one chain that takes one branch, scales it to the rendition's
    width and height with the bicubic kernel, converts to [yuv420p] and
    sets [setsar=1].  The source is read exactly once, there is exactly one
    [split] filter, and there are exactly [N] filters of each of the other
    three kinds. *)
Theorem filter_graph_structure (targets : list target) :
  targets <> [] ->
  let n := length targets in
  let g := parse_filtergraph (build_filter_complex_for_targets targets).1 in
  g = split_chain n :: ((fun it => scale_chain it.1 it.2) <$> enumerate targets) /\
  length g = S n /\
  count_source_inputs g = 1%nat /\
  count_filters "split" g = 1%nat /\
  length (fc_outputs (split_chain n)) = n /\
  count_filters "scale" g = n /\
  count_filters "format" g = n /\
  count_filters "setsar" g = n /\
  (build_filter_complex_for_targets targets).2
    = (fun it => "v" +:+ str it.1 +:+ "o") <$> enumerate targets.
Proof.
  intros Hne n g.
  assert (Hg : g = split_chain n :: ((fun it => scale_chain it.1 it.2) <$> enumerate targets)).
  { unfold g, parse_filtergraph, build_filter_complex_for_targets. cbn [fst].
    fold (split_text (length targets)).
    change (split_text (length targets) +:+ ";" +:+ ?x)
      with (split_text (length targets) +:+ String ";" x).
    rewrite split_on_sep by apply no_semicolon_split_text.
    rewrite split_on_join.
    - rewrite fmap_cons, parse_chain_split_text, <- list_fmap_compose. f_equal.
      apply list_fmap_ext. intros ? [i t] ?. apply parse_chain_chain_of.
    - destruct targets; [contradiction|discriminate].
    - apply Forall_fmap, Forall_forall. intros [i t] _. apply no_semicolon_chain_of. }
  assert (Hlen : length (enumerate targets) = n) by apply enumerate_from_length.
  split; [exact Hg|]. rewrite Hg.
  split; [cbn [length]; rewrite length_fmap, Hlen; reflexivity|].
  split.
  { unfold count_source_inputs. rewrite fmap_cons. cbn [concat fc_inputs split_chain app].
    rewrite filter_cons_True by reflexivity.
    rewrite count_source_inputs_scale_chains. reflexivity. }
  assert (Hc : forall name, count_filters name g
     = ((if bool_decide (name = "split") then 1 else 0)
        + count_filters name ((fun it => scale_chain it.1 it.2) <$> enumerate targets))%nat).
  { intros name. rewrite Hg. unfold count_filters. rewrite fmap_cons.
    cbn [concat fc_filters split_chain app]. rewrite filter_cons, filter_name_split.
    case_decide; case_bool_decide; try congruence; reflexivity. }
  rewrite <- Hg, !Hc, !count_filters_scale_chains, Hlen.
  repeat split; try reflexivity.
  - cbn. rewrite length_fmap. apply range_length.
  - repeat case_bool_decide; try discriminate; try congruence; lia.
  - repeat case_bool_decide; try discriminate; try congruence; lia.
Qed.

(** The theorem at the default three-rung ladder. *)
Lemma filter_graph_structure_witness :
  let targets := [Target 1920 1080 5000000 "1080p"; Target 1280 720 2800000 "720p";
                  Target 852 480 1400000 "480p"] in
  targets <> [] /\
  count_source_inputs (parse_filtergraph (build_filter_complex_for_targets targets).1) = 1%nat /\
  count_filters "split" (parse_filtergraph (build_filter_complex_for_targets targets).1) = 1%nat /\
  count_filters "scale" (parse_filtergraph (build_filter_complex_for_targets targets).1) = 3%nat.
Proof.
  intros targets. split; [discriminate|].
  destruct (filter_graph_structure targets ltac:(discriminate))
    as (_ & _ & H1 & H2 & _ & H3 & _).
  auto.
Defined.

(** ** The HLS master playlist *)

Lemma split_on_join_trailing c ps :
  ps <> [] -> Forall (fun p => no_char c p = true) ps ->
  split_on c (join (String c "") ps +:+ String c "") = ps ++ [""].
Proof.
  intros Hne Hall. induction Hall as [|p ps Hp Hall IH]; [contradiction|].
  destruct ps as [|q ps].
  - cbn [join app]. rewrite split_on_sep by exact Hp. reflexivity.
  - rewrite join_cons_cons. cbn [String.append]. rewrite !append_assoc.
    cbn [String.append].
    rewrite split_on_sep by exact Hp. rewrite IH by discriminate. reflexivity.
Qed.

Lemma strip_prefix_numeral p n s :
  is_digit_or_minus p = false ->
  strip_prefix (String p s) (str n +:+ "/index.m3u8") = None.
Proof.
  intros Hp. destruct (str_head n) as (a & r & -> & Ha).
  cbn [String.append strip_prefix].
  destruct (Ascii.eqb_spec p a) as [->|_]; [congruence|reflexivity].
Qed.

Lemma stream_infs_tag attrs rest :
  stream_infs (("#EXT-X-STREAM-INF:" +:+ attrs) :: rest)
  = StreamInf (parse_attr <$> split_on "," attrs) (hd "" rest) :: stream_infs rest.
Proof. reflexivity. Qed.

Lemma stream_infs_other l rest :
  strip_prefix "#EXT-X-STREAM-INF:" l = None -> stream_infs (l :: rest) = stream_infs rest.
Proof. intros H. cbn [stream_infs]. rewrite H. reflexivity. Qed.

Lemma stream_infs_entries targets :
  stream_infs
    (concat ((fun t =>
                let bw := t_br t + 128000 in
                [ "#EXT-X-STREAM-INF:BANDWIDTH=" +:+ str bw +:+ ",RESOLUTION="
                    +:+ str (t_w t) +:+ "x" +:+ str (t_h t);
                  str (t_h t) +:+ "/index.m3u8" ]) <$> targets) ++ [""])
  = stream_inf_of <$> targets.
Proof.
  set (f := fun t : target => _).
  induction targets as [|t targets IH]; [reflexivity|].
  rewrite !fmap_cons. cbn [concat].
  change (f t) with
    [ "#EXT-X-STREAM-INF:" +:+ "BANDWIDTH=" +:+ str (t_br t + 128000) +:+ ",RESOLUTION="
        +:+ str (t_w t) +:+ "x" +:+ str (t_h t);
      str (t_h t) +:+ "/index.m3u8" ].
  cbn [app].
  rewrite stream_infs_tag.
  rewrite stream_infs_other by (apply strip_prefix_numeral; reflexivity).
  rewrite IH. f_equal. unfold stream_inf_of. cbn [hd]. f_equal.
  split_norm. unfold parse_attr. split_norm. reflexivity.
Qed.

(** C4.  The text [write_hls_master] writes to [<hls_dir>/<base>.m3u8]
    reads back as exactly one [#EXT-X-STREAM-INF] entry per rendition, in
    ladder order, whose [BANDWIDTH] is the rendition's bitrate plus
    [128000], whose [RESOLUTION] is [<width>x<height>], and which is
    followed by the line [<height>/index.m3u8]. *)
Theorem hls_master_entries hls_dir base (targets : list target) :
  (write_hls_master hls_dir base targets).1 = hls_dir +:+ "/" +:+ base +:+ ".m3u8" /\
  parse_master (write_hls_master hls_dir base targets).2 = stream_inf_of <$> targets /\
  length (parse_master (write_hls_master hls_dir base targets).2) = length targets.
Proof.
  split; [reflexivity|].
  assert (H : parse_master (write_hls_master hls_dir base targets).2
              = stream_inf_of <$> targets).
  { unfold parse_master, write_hls_master, master_lines, newline, newline_char.
    cbn [snd].
    rewrite split_on_join_trailing.
    - cbn [app]. rewrite !stream_infs_other by reflexivity.
      apply stream_infs_entries.
    - discriminate.
    - repeat (apply Forall_cons; split; [reflexivity|]).
      apply Forall_concat, Forall_fmap, Forall_forall. intros t _.
      cbn zeta. repeat (apply Forall_cons; split; [no_char_tac|]). constructor. }
  split; [exact H|]. rewrite H, length_fmap. reflexivity.
Qed.

(** ** The progress translator *)

Lemma flt_fle x y : flt x y = true -> fle x y = true.
Proof.
  unfold flt, fle, SFltb, SFleb. destruct (SFcompare x y) as [[]|]; congruence.
Qed.

(** The clamp keeps the percentage between [0.0] and [100.0]. *)
Lemma clamp_range x :
  fle f0 (py_max f0 (py_min f100 x)) = true /\
  fle (py_max f0 (py_min f100 x)) f100 = true.
Proof.
  unfold py_max, py_min.
  destruct (flt x f100) eqn:E1.
  - destruct (flt f0 x) eqn:E2.
    + split; apply flt_fle; assumption.
    + split; reflexivity.
  - destruct (flt f0 f100) eqn:E2; split; reflexivity.
Qed.

Lemma progress_pct_range total out_ms pct :
  progress_pct total out_ms = Val pct ->
  fle f0 pct = true /\ fle pct f100 = true.
Proof.
  unfold progress_pct.
  destruct total as [t|]; [|intros [= <-]; split; reflexivity].
  destruct (negb (t =? 0) && (0 <? t)); [|intros [= <-]; split; reflexivity].
  destruct (py_truediv out_ms t) as [q|]; cbn [rbind]; [|discriminate].
  intros [= <-]. apply clamp_range.
Qed.

Lemma handle_marker p raw field :
  strip raw = "out_time_ms=" +:+ field ->
  handle_line (Some p) raw
  = match py_int field with
    | Some out_ms =>
        match progress_pct (total_ms p) out_ms with
        | Val pct => [progress_line p pct]
        | Raise _ => []
        end
    | None => []
    end.
Proof.
  intros Hs. unfold handle_line. rewrite Hs.
  change (startswith ("out_time_ms=" +:+ field) "out_time_ms=") with true.
  cbn match. unfold marker_body.
  change (split_once "=" ("out_time_ms=" +:+ field)) with ["out_time_ms"; field].
  cbn [rbind].
  destruct (py_int field) as [out_ms|]; cbn [of_option rbind try_except is_Exception];
    [|reflexivity].
  destruct (progress_pct (total_ms p) out_ms) as [pct|e]; cbn [rbind try_except];
    [reflexivity|].
  destruct (is_Exception e); reflexivity.
Qed.

Lemma two_digits_spec m :
  0 <= m < 100 -> two_digits m = str (m / 10) +:+ str (m mod 10).
Proof.
  intros Hm.
  assert (H : forallb (fun k => String.eqb (two_digits (Z.of_nat k))
                                  (str (Z.of_nat k / 10) +:+ str (Z.of_nat k mod 10)))
                (seq 0 100) = true) by (vm_compute; reflexivity).
  rewrite forallb_forall in H. specialize (H (Z.to_nat m)).
  rewrite Z2Nat.id in H by lia. apply String.eqb_eq, H, in_seq. lia.
Qed.

Lemma format_hundredths n :
  0 <= n ->
  str (n / 100) +:+ "." +:+ two_digits (n mod 100) = hundredths_text n.
Proof.
  intros Hn. unfold hundredths_text.
  rewrite two_digits_spec by (apply Z.mod_pos_bound; lia).
  replace (n mod 100 mod 10) with (n mod 10); [reflexivity|].
  Z.div_mod_to_equations. lia.
Qed.

Lemma compare_cont_Eq_spec (p q : positive) :
  CompareSpec (p = q) (Zpos p < Zpos q) (Zpos q < Zpos p) (PosDef.Pos.compare_cont Eq p q).
Proof.
  assert (E : PosDef.Pos.compare_cont Eq p q = Pos.compare p q) by reflexivity.
  rewrite E. destruct (Pos.compare_spec p q) as [H|H|H]; constructor; [exact H|lia|lia].
Qed.

(** Comparison of a normalised positive float with [100.0]. *)
Lemma flt_f100 m e :
  2 ^ 52 <= Zpos m < 2 ^ 53 -> -1074 <= e ->
  if flt (S754_finite false m e) f100
  then e < 0 /\ Zpos m * 2 ^ (e + 1074) < 100 * 2 ^ 1074
  else 100 * 2 ^ 1074 <= Zpos m * 2 ^ (e + 1074).
Proof.
  intros Hm He. unfold flt, SFltb, f100, SFcompare.
  assert (HT : 0 < 2 ^ 1027) by (apply Z.pow_pos_nonneg; lia).
  assert (E1028 : 2 ^ 1028 = 2 * 2 ^ 1027).
  { change 1028 with (1 + 1027). rewrite Z.pow_add_r by lia. reflexivity. }
  assert (E1029 : 2 ^ 1029 = 4 * 2 ^ 1027).
  { change 1029 with (2 + 1027). rewrite Z.pow_add_r by lia. reflexivity. }
  assert (E1074 : 2 ^ 1074 = 2 ^ 47 * 2 ^ 1027).
  { change 1074 with (47 + 1027). rewrite Z.pow_add_r by lia. reflexivity. }
  rewrite E1074.
  change (2 ^ 52) with 4503599627370496 in Hm.
  change (2 ^ 53) with 9007199254740992 in Hm.
  change (2 ^ 47) with 140737488355328.
  destruct (Z.compare_spec e (-46)) as [->|Hlt|Hgt].
  - change (-46 + 1074) with 1028. rewrite E1028.
    remember (2 ^ 1027) as T.
    destruct (compare_cont_Eq_spec m 7036874417766400) as [->|Hl|Hg].
    + lia.
    + split; [lia|]. nia.
    + nia.
  - split; [lia|].
    assert (P : 2 ^ (e + 1074) <= 2 ^ 1027) by (apply Z.pow_le_mono_r; lia).
    assert (HP : 0 < 2 ^ (e + 1074)) by (apply Z.pow_pos_nonneg; lia).
    remember (2 ^ 1027) as T. remember (2 ^ (e + 1074)) as U.
    nia.
  - assert (P : 2 ^ 1029 <= 2 ^ (e + 1074)) by (apply Z.pow_le_mono_r; lia).
    rewrite E1029 in P.
    remember (2 ^ 1027) as T. remember (2 ^ (e + 1074)) as U.
    nia.
Qed.

(** Rounding error of the percentage, in integers.  [S] is a common
    power of two; [Q] and [X] are the quotient and the product scaled by
    it; [n] is the number of hundredths printed. *)
Lemma pct_error_chain S Q X n a t :
  0 < S -> 0 < a -> 0 < t -> 0 <= Q -> 0 <= X ->
  Z.abs (Q * t - a * S) * 2 ^ 52 <= a * S ->
  Z.abs (X - 100 * Q) * 2 ^ 52 <= 100 * Q ->
  2 * Z.abs (n * S - 100 * X) <= S ->
  X < 100 * S ->
  0 <= n <= 10000 /\
  2 ^ 35 * (2 * Z.abs (n * t - 10000 * a) - t) <= t /\
  (t <= a -> n = 10000).
Proof.
  intros HS Ha Ht HQ HX R1 R2 R3 Hlt.
  change (2 ^ 52) with 4503599627370496 in *.
  change (2 ^ 35) with 34359738368.
  assert (Hn : 0 <= n <= 10000).
  { assert (B1 : n * S < 10001 * S) by lia.
    assert (B2 : (-1) * S < n * S) by lia.
    apply Z.mul_lt_mono_pos_r in B1, B2; lia. }
  assert (BQ : Q < 2 * S) by lia.
  assert (BQt : Q * t <= 2 * S * t) by (apply Z.mul_le_mono_nonneg_r; lia).
  assert (BaS : a * S <= 3 * (S * t)) by lia.
  remember (n * S - 100 * X) as u. remember (X - 100 * Q) as v.
  remember (Q * t - a * S) as w.
  assert (ED : (n * t - 10000 * a) * S = t * u + 100 * (t * v) + 10000 * w)
    by (subst; ring).
  assert (P1 : t * (2 * Z.abs u) <= t * S) by (apply Z.mul_le_mono_nonneg_l; lia).
  assert (P2 : t * (Z.abs v * 4503599627370496) <= t * (100 * Q))
    by (apply Z.mul_le_mono_nonneg_l; lia).
  assert (T : Z.abs ((n * t - 10000 * a) * S)
              <= t * Z.abs u + 100 * (t * Z.abs v) + 10000 * Z.abs w).
  { rewrite ED.
    eapply Z.le_trans; [apply Z.abs_triangle|].
    eapply Z.le_trans; [apply Z.add_le_mono_r, Z.abs_triangle|].
    rewrite !Z.abs_mul, (Z.abs_eq t), (Z.abs_eq 100), (Z.abs_eq 10000) by lia. lia. }
  rewrite Z.abs_mul, (Z.abs_eq S) in T by lia.
  remember (Z.abs (n * t - 10000 * a)) as D.
  remember (Z.abs u) as au. remember (Z.abs v) as av. remember (Z.abs w) as aw.
  assert (B : 34359738368 * (2 * D - t) * S <= t * S).
  { assert (E1 : t * (100 * Q) = 100 * (Q * t)) by ring.
    assert (E2 : 2 * S * t = 2 * (S * t)) by ring.
    assert (E3 : t * S = S * t) by ring.
    assert (E4 : 34359738368 * (2 * D - t) * S = 68719476736 * (D * S) - 34359738368 * (S * t))
      by ring.
    lia. }
  assert (B' : 34359738368 * (2 * D - t) <= t)
    by (apply Z.mul_le_mono_pos_r in B; lia).
  split; [exact Hn|]. split; [exact B'|].
  intros Hta.
  destruct (Z.eq_dec n 10000) as [E|E]; [exact E|exfalso].
  assert (N1 : n * t <= 9999 * t) by (apply Z.mul_le_mono_nonneg_r; lia).
  assert (N2 : 10000 * t <= 10000 * a) by lia.
  lia.
Qed.

(** The same when the product reaches [100.0] although the elapsed time
    is below the total. *)
Lemma pct_cap_chain S Q X a t :
  0 < S -> 0 < a -> a < t -> 0 <= Q -> 0 <= X ->
  Z.abs (Q * t - a * S) * 2 ^ 52 <= a * S ->
  Z.abs (X - 100 * Q) * 2 ^ 52 <= 100 * Q ->
  100 * S <= X ->
  2 ^ 35 * (2 * Z.abs (10000 * t - 10000 * a) - t) <= t.
Proof.
  intros HS Ha Hat HQ HX R1 R2 Hge.
  change (2 ^ 52) with 4503599627370496 in *.
  change (2 ^ 35) with 34359738368.
  rewrite Z.abs_eq by lia.
  assert (BaS : a * S < t * S) by (apply Z.mul_lt_mono_pos_r; lia).
  assert (BQt : Q * t < 2 * S * t) by lia.
  assert (BQ : Q < 2 * S) by (apply Z.mul_lt_mono_pos_r in BQt; lia).
  remember (X - 100 * Q) as v. remember (Q * t - a * S) as w.
  assert (ED : (10000 * t - 10000 * a) * S
               = 100 * (t * (100 * S - X)) + 100 * (t * v) + 10000 * w)
    by (subst; ring).
  assert (P0 : t * (100 * S - X) <= 0) by (apply Z.mul_nonneg_nonpos; lia).
  assert (P2 : t * (Z.abs v * 4503599627370496) <= t * (100 * Q))
    by (apply Z.mul_le_mono_nonneg_l; lia).
  assert (P3 : t * v <= t * Z.abs v) by (apply Z.mul_le_mono_nonneg_l; lia).
  assert (P4 : t * (100 * Q) <= t * (200 * S)) by (apply Z.mul_le_mono_nonneg_l; lia).
  remember (Z.abs v) as av. remember (Z.abs w) as aw.
  assert (B : 34359738368 * (2 * (10000 * t - 10000 * a) - t) * S <= t * S).
  { assert (E3 : t * (200 * S) = 200 * (t * S)) by ring.
    assert (E4 : 34359738368 * (2 * (10000 * t - 10000 * a) - t) * S
                 = 68719476736 * ((10000 * t - 10000 * a) * S) - 34359738368 * (t * S))
      by ring.
    assert (E5 : t * (av * 4503599627370496) = 4503599627370496 * (t * av)) by ring.
    lia. }
  apply Z.mul_le_mono_pos_r in B; lia.
Qed.

(** The percentage of a positive elapsed time. *)
Lemma progress_value_pos a t :
  0 < a < 2 ^ 63 -> 0 < t < 2 ^ 63 ->
  exists q n,
    py_truediv a t = Val q /\
    format_2f (py_max f0 (py_min f100 (fmul q f100))) = hundredths_text n /\
    0 <= n <= 10000 /\
    2 ^ 35 * (2 * Z.abs (n * t - 10000 * Z.min a t) - t) <= t /\
    (t <= a -> n = 10000).
Proof.
  intros Ha Ht.
  destruct (py_truediv_pos a t) as (mq & eq & Hq & Hmq & Heq & R1); [lia|lia|].
  destruct (SFmul_faithful false mq eq false 7036874417766400 (-46))
    as (m & e & Hx & Hm & He & Hv); [lia|lia|lia|lia|].
  cbn [xorb] in Hx.
  exists (S754_finite false mq eq).
  assert (HS : 0 < 2 ^ 1074) by (apply Z.pow_pos_nonneg; lia).
  assert (HQ : 0 < 2 ^ (eq + 1074)) by (apply Z.pow_pos_nonneg; lia).
  assert (HU : 0 < 2 ^ (e + 1074)) by (apply Z.pow_pos_nonneg; lia).
  assert (R2 : Z.abs (Zpos m * 2 ^ (e + 1074) - 100 * (Zpos mq * 2 ^ (eq + 1074))) * 2 ^ 52
               <= 100 * (Zpos mq * 2 ^ (eq + 1074))).
  { assert (HK : 0 < 2 ^ (eq + 1028)) by (apply Z.pow_pos_nonneg; lia).
    assert (EJ : 2 ^ (e + 1074) = 2 ^ (e - eq - -46) * 2 ^ (eq + 1028)).
    { rewrite <- Z.pow_add_r by lia. f_equal. lia. }
    assert (EK : 2 ^ (eq + 1074) = 70368744177664 * 2 ^ (eq + 1028)).
    { change 70368744177664 with (2 ^ 46). rewrite <- Z.pow_add_r by lia. f_equal. lia. }
    rewrite EJ, EK.
    remember (2 ^ (eq + 1028)) as K. remember (2 ^ (e - eq - -46)) as J.
    replace (Zpos m * (J * K) - 100 * (Zpos mq * (70368744177664 * K)))
      with ((Zpos m * J - Zpos mq * 7036874417766400) * K) by ring.
    rewrite Z.abs_mul, (Z.abs_eq K) by lia.
    replace (100 * (Zpos mq * (70368744177664 * K)))
      with (Zpos mq * 7036874417766400 * K) by ring.
    rewrite <- Z.mul_assoc, (Z.mul_comm K), Z.mul_assoc.
    apply Z.mul_le_mono_nonneg_r; [lia|exact Hv]. }
  unfold fmul, f100. rewrite Hx. fold f100.
  pose proof (flt_f100 m e Hm ltac:(lia)) as Hc.
  unfold py_min. destruct (flt (S754_finite false m e) f100) eqn:Ef.
  - destruct Hc as [Hneg Hlt].
    change (py_max f0 (S754_finite false m e)) with (S754_finite false m e).
    set (n := round_half_even_shift (Zpos m * 100) (- e)).
    assert (R3 : 2 * Z.abs (n * 2 ^ 1074 - 100 * (Zpos m * 2 ^ (e + 1074))) <= 2 ^ 1074).
    { pose proof (round_half_even_shift_spec (Zpos m * 100) (- e) ltac:(lia) ltac:(lia)) as R.
      fold n in R.
      assert (HJ : 0 < 2 ^ (- e)) by (apply Z.pow_pos_nonneg; lia).
      assert (EJ : 2 ^ 1074 = 2 ^ (- e) * 2 ^ (e + 1074)).
      { rewrite <- Z.pow_add_r by lia. f_equal. lia. }
      rewrite EJ.
      remember (2 ^ (- e)) as J. remember (2 ^ (e + 1074)) as U.
      replace (n * (J * U) - 100 * (Zpos m * U)) with ((n * J - Zpos m * 100) * U) by ring.
      rewrite Z.abs_mul, (Z.abs_eq U) by lia.
      rewrite Z.mul_assoc. apply Z.mul_le_mono_nonneg_r; [lia|exact R]. }
    destruct (pct_error_chain (2 ^ 1074) (Zpos mq * 2 ^ (eq + 1074))
                (Zpos m * 2 ^ (e + 1074)) n a t)
      as (Hn & Hb & Hcap); try lia.
    exists n. split; [exact Hq|]. split; [|split; [exact Hn|split]].
    + cbn [format_2f]. destruct (Z.leb_spec 0 e) as [C|_]; [lia|].
      fold n. cbn [String.append]. apply format_hundredths. lia.
    + destruct (Z.min_spec a t) as [[_ ->]|[Hta ->]]; [exact Hb|].
      rewrite (Hcap Hta). replace (10000 * t - 10000 * t) with 0 by ring.
      cbn [Z.abs]. lia.
    + exact Hcap.
  - exists 10000. split; [exact Hq|]. split; [reflexivity|]. split; [lia|]. split; [|reflexivity].
    destruct (Z.min_spec a t) as [[Hat ->]|[Hta ->]].
    + apply (pct_cap_chain (2 ^ 1074) (Zpos mq * 2 ^ (eq + 1074))
               (Zpos m * 2 ^ (e + 1074)) a t); try lia.
    + replace (10000 * t - 10000 * t) with 0 by ring. cbn [Z.abs]. lia.
Qed.

(** The percentage of an elapsed time that is not positive. *)
Lemma progress_value_nonpos a t :
  - 2 ^ 63 < a <= 0 -> 0 < t < 2 ^ 63 ->
  exists q,
    py_truediv a t = Val q /\ py_max f0 (py_min f100 (fmul q f100)) = f0.
Proof.
  intros Ha Ht.
  destruct t as [|pb|pb]; try lia. destruct a as [|pa|pa]; try lia.
  - eexists. split; reflexivity.
  - destruct (SFdiv_faithful true false pa pb) as (mq & eq & Hq & Hmq & Heq & _);
      [lia|lia|].
    destruct (SFmul_faithful true mq eq false 7036874417766400 (-46))
      as (m & e & Hx & _); [lia|lia|lia|lia|].
    exists (S754_finite true mq eq). unfold py_truediv. cbn [raw_of_int Z.eqb].
    rewrite Hq. cbn [xorb]. split; [reflexivity|].
    unfold fmul, f100. rewrite Hx. reflexivity.
Qed.

(** C5.  For a marker line [out_time_ms=<elapsed>] whose payload is an
    integer: with a known positive total duration (both values within the
    encoder's 64-bit range) exactly one [PROGRESS] line is printed.  It
    carries [max(0.0, min(100.0, (elapsed / total) * 100.0))], printed with
    two decimals: a number [n] of hundredths between [0] and [10000] that
    differs from [100 * clamp(elapsed, 0, total) / total] percent by at most
    half a hundredth (and the floating-point error, below [2^-35] of a
    hundredth); it is [100.00] whenever the elapsed time reaches or exceeds
    the total, and [0.00] whenever the elapsed time is zero or negative.  A
    computed percentage never leaves the interval from [0.0] to [100.0],
    whatever the elapsed time; and with an unknown, zero or negative total
    duration the line printed carries [0.00]. *)
Theorem progress_percent_clamped p raw field out_ms :
  strip raw = "out_time_ms=" +:+ field ->
  py_int field = Some out_ms ->
  (forall t, total_ms p = Some t -> 0 < t < 2 ^ 63 -> Z.abs out_ms < 2 ^ 63 ->
     exists q pct n,
       py_truediv out_ms t = Val q /\
       pct = py_max f0 (py_min f100 (fmul q f100)) /\
       handle_line (Some p) raw = [progress_line p pct] /\
       fle f0 pct = true /\ fle pct f100 = true /\
       progress_line p pct
       = "PROGRESS base=" +:+ p_base p +:+ " rend=" +:+ p_label p
         +:+ " pct=" +:+ hundredths_text n /\
       0 <= n <= 10000 /\
       2 ^ 35 * (2 * Z.abs (n * t - 10000 * Z.max 0 (Z.min out_ms t)) - t) <= t /\
       (t <= out_ms -> n = 10000) /\
       (out_ms <= 0 -> n = 0)) /\
  (forall pct, progress_pct (total_ms p) out_ms = Val pct ->
     fle f0 pct = true /\ fle pct f100 = true) /\
  (total_ms p = None \/ (exists t, total_ms p = Some t /\ t <= 0) ->
     handle_line (Some p) raw = [progress_line p f0] /\
     progress_line p f0
       = "PROGRESS base=" +:+ p_base p +:+ " rend=" +:+ p_label p +:+ " pct=0.00").
Proof.
  intros Hs Hi. rewrite (handle_marker p raw field Hs), Hi.
  split; [|split].
  - intros t Ht Hpos Hel.
    assert (Hrun : forall q, py_truediv out_ms t = Val q ->
              match progress_pct (total_ms p) out_ms with
              | Val pct => [progress_line p pct]
              | Raise _ => []
              end = [progress_line p (py_max f0 (py_min f100 (fmul q f100)))]).
    { intros q Hq. unfold progress_pct. rewrite Ht.
      replace (negb (t =? 0) && (0 <? t)) with true
        by (symmetry; apply andb_true_intro; split;
            [apply negb_true_iff, Z.eqb_neq | apply Z.ltb_lt]; lia).
      rewrite Hq. reflexivity. }
    destruct (Z.lt_ge_cases 0 out_ms) as [Hp|Hn].
    + destruct (progress_value_pos out_ms t) as (q & n & Hq & Hf & Hn & Hb & Hcap);
        [lia|lia|].
      exists q, (py_max f0 (py_min f100 (fmul q f100))), n.
      split; [exact Hq|]. split; [reflexivity|]. split; [apply Hrun, Hq|].
      split; [apply clamp_range|]. split; [apply clamp_range|].
      split; [unfold progress_line; rewrite Hf; reflexivity|].
      split; [exact Hn|]. split; [|split; [exact Hcap|lia]].
      rewrite Z.max_r by lia. exact Hb.
    + destruct (progress_value_nonpos out_ms t) as (q & Hq & Hz); [lia|lia|].
      exists q, (py_max f0 (py_min f100 (fmul q f100))), 0.
      split; [exact Hq|]. split; [reflexivity|]. split; [apply Hrun, Hq|].
      split; [apply clamp_range|]. split; [apply clamp_range|].
      split; [rewrite Hz; reflexivity|].
      split; [lia|]. split; [|split; [lia|reflexivity]].
      rewrite Z.max_l by lia. cbn. lia.
  - apply progress_pct_range.
  - intros [Hn|(t & Ht & Hle)]; unfold progress_pct; rewrite ?Hn, ?Ht.
    + split; reflexivity.
    + replace (negb (t =? 0) && (0 <? t)) with false; [split; reflexivity|].
      symmetry. apply andb_false_iff. right. apply Z.ltb_ge. exact Hle.
Qed.

(** The theorem on a marker half way through a one minute job, and the
    lines printed for three markers of that job. *)
Lemma progress_percent_clamped_witness :
  let p := Progress (Some 60000) "movie" "720p" in
  (strip "out_time_ms=30000" = "out_time_ms=" +:+ "30000" /\
   py_int "30000" = Some 30000 /\ total_ms p = Some 60000 /\
   0 < 60000 < 2 ^ 63 /\ Z.abs 30000 < 2 ^ 63) /\
  (exists q pct n,
    py_truediv 30000 60000 = Val q /\
    pct = py_max f0 (py_min f100 (fmul q f100)) /\
    handle_line (Some p) "out_time_ms=30000" = [progress_line p pct] /\
    fle f0 pct = true /\ fle pct f100 = true /\
    progress_line p pct = "PROGRESS base=movie rend=720p pct=" +:+ hundredths_text n /\
    0 <= n <= 10000 /\
    2 ^ 35 * (2 * Z.abs (n * 60000 - 10000 * 30000) - 60000) <= 60000) /\
  handle_line (Some p) "out_time_ms=30000" = ["PROGRESS base=movie rend=720p pct=50.00"] /\
  handle_line (Some p) "out_time_ms=90000" = ["PROGRESS base=movie rend=720p pct=100.00"] /\
  handle_line (Some p) "out_time_ms=-500" = ["PROGRESS base=movie rend=720p pct=0.00"].
Proof.
  intros p. split; [repeat split; reflexivity|]. split; [|repeat split].
  destruct (proj1 (progress_percent_clamped p "out_time_ms=30000" "30000" 30000
                     eq_refl eq_refl) 60000 eq_refl)
    as (q & pct & n & H1 & H2 & H3 & H4 & H5 & H6 & H7 & H8 & _);
    [split; reflexivity | reflexivity|].
  exists q, pct, n. repeat split; try assumption; apply H7.
Defined.

(** ** The probers *)

Lemma catchable_val {A} (a : A) : catchable (Val a).
Proof. intros e [=]. Qed.

Lemma catchable_raise {A} e : is_Exception e = true -> catchable (@Raise A e).
Proof. intros He e' [= <-]. exact He. Qed.

Lemma catchable_bind {A B} (r : result A) (k : A -> result B) :
  catchable r -> (forall a, catchable (k a)) -> catchable (rbind r k).
Proof.
  intros Hr Hk e. destruct r as [a|e']; cbn [rbind].
  - apply Hk.
  - intros [= <-]. apply Hr. reflexivity.
Qed.

Lemma catchable_of_option {A} (o : option A) e :
  is_Exception e = true -> catchable (of_option o e).
Proof.
  intros He. destruct o; cbn [of_option]; [apply catchable_val|apply catchable_raise, He].
Qed.

Lemma try_except_catchable {A} (body : result A) (a : A) :
  catchable body ->
  try_except body (fun _ => Val a)
  = match body with Val v => Val v | Raise _ => Val a end.
Proof.
  intros Hb. destruct body as [v|e]; cbn [try_except]; [reflexivity|].
  rewrite (Hb e eq_refl). reflexivity.
Qed.

Ltac catchable_step :=
  first
    [ apply catchable_val
    | apply catchable_raise; reflexivity
    | apply catchable_of_option; reflexivity
    | apply catchable_bind; [|intros ?]
    | match goal with
      | |- catchable (match ?x with _ => _ end) => destruct x
      | |- catchable (if ?b then _ else _) => destruct b
      | |- catchable (let '(_, _) := ?x in _) => destruct x
      end ].

Lemma check_output_catchable r : catchable (check_output r).
Proof. unfold check_output. repeat catchable_step. Qed.

Lemma probe_src_wh_body_catchable r : catchable (probe_src_wh_body r).
Proof.
  unfold probe_src_wh_body. apply catchable_bind; [apply check_output_catchable|].
  intros out. repeat catchable_step.
Qed.

Lemma loads_output_catchable r : catchable (loads_output r).
Proof. unfold loads_output. repeat catchable_step. Qed.

Lemma getitem_key_catchable doc k : catchable (getitem_key doc k).
Proof. unfold getitem_key. repeat catchable_step. Qed.

Lemma getitem_0_catchable v : catchable (getitem_0 v).
Proof. unfold getitem_0. repeat catchable_step. Qed.

Lemma dict_get_method_catchable v k : catchable (dict_get_method v k).
Proof. unfold dict_get_method. repeat catchable_step. Qed.

Lemma strip_method_catchable v : catchable (strip_method v).
Proof. unfold strip_method. repeat catchable_step. Qed.

Lemma int_of_json_catchable v : catchable (int_of_json v).
Proof. unfold int_of_json, py_trunc. repeat catchable_step. Qed.

Lemma make_fraction_catchable n d : catchable (make_fraction n d).
Proof. unfold make_fraction. repeat catchable_step. Qed.

Lemma limit_loop_catchable fuel m p0 q0 p1 q1 n d :
  catchable (limit_loop fuel m p0 q0 p1 q1 n d).
Proof.
  revert p0 q0 p1 q1 n d. induction fuel as [|fuel IH]; intros; cbn [limit_loop].
  - apply catchable_raise. reflexivity.
  - destruct (d =? 0); [apply catchable_raise; reflexivity|].
    cbn zeta. destruct (m <? q0 + n / d * q1); [apply catchable_val|apply IH].
Qed.

Lemma limit_denominator_catchable x m : catchable (limit_denominator x m).
Proof.
  unfold limit_denominator.
  destruct (m <? 1); [apply catchable_raise; reflexivity|].
  destruct (denominator x <=? m); [apply catchable_val|].
  apply catchable_bind; [apply limit_loop_catchable|].
  intros [[[[p0 q0] p1] q1] d]. repeat catchable_step.
Qed.

Lemma probe_dar_body_catchable r : catchable (probe_dar_body r).
Proof.
  unfold probe_dar_body, fraction_mul.
  apply catchable_bind; [apply loads_output_catchable|]. intros doc.
  apply catchable_bind; [apply getitem_key_catchable|]. intros streams.
  apply catchable_bind; [apply getitem_0_catchable|]. intros info.
  apply catchable_bind; [apply dict_get_method_catchable|]. intros dar_v.
  apply catchable_bind; [apply strip_method_catchable|]. intros dar.
  match goal with |- catchable (if ?b then _ else _) => destruct b end;
    [apply catchable_val|].
  apply catchable_bind; [apply dict_get_method_catchable|]. intros w_v.
  apply catchable_bind; [apply int_of_json_catchable|]. intros w.
  apply catchable_bind; [apply dict_get_method_catchable|]. intros h_v.
  apply catchable_bind; [apply int_of_json_catchable|]. intros h.
  apply catchable_bind; [apply dict_get_method_catchable|]. intros sar_v.
  apply catchable_bind; [apply strip_method_catchable|]. intros sar.
  destruct (parse_sar sar) as [sn sd].
  apply catchable_bind; [apply make_fraction_catchable|]. intros f1.
  apply catchable_bind; [apply make_fraction_catchable|]. intros f2.
  apply catchable_bind; [apply make_fraction_catchable|]. intros frac.
  apply catchable_bind; [apply limit_denominator_catchable|]. intros frac'.
  apply catchable_val.
Qed.

(** The divisor of [limit_loop] shrinks at every turn: fuel above it is
    never used up. *)
Lemma limit_loop_fuel fuel m p0 q0 p1 q1 n d :
  0 <= d < Z.of_nat fuel ->
  limit_loop fuel m p0 q0 p1 q1 n d <> Raise (RuntimeError "fuel").
Proof.
  revert p0 q0 p1 q1 n d. induction fuel as [|fuel IH]; intros p0 q0 p1 q1 n d Hd;
    [lia|]. cbn [limit_loop].
  destruct (Z.eqb_spec d 0) as [->|Hnz]; [discriminate|].
  cbn zeta. destruct (m <? q0 + n / d * q1); [discriminate|].
  apply IH. pose proof (Z.mod_pos_bound n d ltac:(lia)) as B.
  rewrite Z.mod_eq in B by lia. lia.
Qed.

(** Each prober is its [try] block with the fallback in place of any
    exception. *)
Lemma probe_src_wh_eq r :
  probe_src_wh r
  = match probe_src_wh_body r with Val v => Val v | Raise _ => Val (1920, 1080) end.
Proof. apply try_except_catchable, probe_src_wh_body_catchable. Qed.

Lemma probe_dar_eq r :
  probe_dar r = match probe_dar_body r with Val v => Val v | Raise _ => Val "16:9" end.
Proof. apply try_except_catchable, probe_dar_body_catchable. Qed.

Lemma probe_dar_returns r : exists dar, probe_dar r = Val dar.
Proof. rewrite probe_dar_eq. destruct (probe_dar_body r) as [d|e]; eauto. Qed.

(** C6.  Neither prober raises: whatever running [ffprobe] yields, each
    returns a value, and whenever anything in its [try] block fails (the
    binary is missing, [ffprobe] exits with an error, the output is
    malformed) the value is the fallback, [(1920, 1080)] and ["16:9"]. *)
Theorem probers_never_raise :
  (forall r, exists w h, probe_src_wh r = Val (w, h)) /\
  (forall r e, probe_src_wh_body r = Raise e -> probe_src_wh r = Val (1920, 1080)) /\
  probe_src_wh NoSuchBinary = Val (1920, 1080) /\
  (forall c, probe_src_wh (ExitNonZero c) = Val (1920, 1080)) /\
  probe_src_wh (Output "N/A") = Val (1920, 1080) /\
  (forall r, exists dar, probe_dar r = Val dar) /\
  (forall r e, probe_dar_body r = Raise e -> probe_dar r = Val "16:9") /\
  probe_dar ProbeNoSuchBinary = Val "16:9" /\
  (forall c, probe_dar (ProbeExitNonZero c) = Val "16:9") /\
  probe_dar ProbeMalformed = Val "16:9" /\
  probe_dar (ProbeJson (JObj [("streams", JList [])])) = Val "16:9".
Proof.
  repeat split; try reflexivity.
  - intros r. rewrite probe_src_wh_eq. destruct (probe_src_wh_body r) as [[w h]|e]; eauto.
  - intros r e He. rewrite probe_src_wh_eq, He. reflexivity.
  - apply probe_dar_returns.
  - intros r e He. rewrite probe_dar_eq, He. reflexivity.
Qed.

(** The theorem on an output [ffprobe] prints for a stream without
    dimensions. *)
Lemma probers_never_raise_witness :
  probe_src_wh_body (Output "N/Ax") = Raise ValueError /\
  probe_src_wh (Output "N/Ax") = Val (1920, 1080) /\
  probe_dar_body (ProbeJson (JObj [])) = Raise KeyError /\
  probe_dar (ProbeJson (JObj [])) = Val "16:9".
Proof.
  destruct probers_never_raise as (_ & H1 & _ & _ & _ & _ & H2 & _).
  split; [reflexivity|]. split; [apply (H1 _ ValueError); reflexivity|].
  split; [reflexivity|]. apply (H2 _ KeyError). reflexivity.
Defined.

(** ** The job driver: steps that return, steps that can be caught *)

Lemma mbind_val {A B} (m : M A) (k : A -> M B) w a w' :
  m w = (Val a, w') -> mbind m k w = k a w'.
Proof. intros H. unfold mbind. rewrite H. reflexivity. Qed.

Lemma mbind_raise {A B} (m : M A) (k : A -> M B) w e w' :
  m w = (Raise e, w') -> mbind m k w = (Raise e, w').
Proof. intros H. unfold mbind. rewrite H. reflexivity. Qed.









Lemma succeeds_lift {A} (a : A) : succeeds (lift (Val a)).
Proof. intros w. eexists _, _. reflexivity. Qed.













Lemma preserves_ret {A B} (proj : world -> B) (a : A) : preserves proj (mret a).
Proof. intros w r w' [= _ <-]. reflexivity. Qed.

Lemma preserves_lift {A B} (proj : world -> B) (r : result A) : preserves proj (lift r).
Proof. intros w r' w' [= _ <-]. reflexivity. Qed.

Lemma preserves_bind {A B C} (proj : world -> C) (m : M A) (k : A -> M B) :
  preserves proj m -> (forall a, preserves proj (k a)) -> preserves proj (mbind m k).
Proof.
  intros Hm Hk w r w'. unfold mbind. destruct (m w) as [[a|e] w1] eqn:E.
  - intros H. rewrite (Hk a _ _ _ H). eapply Hm, E.
  - intros [= _ <-]. eapply Hm, E.
Qed.

Lemma preserves_try {A C} (proj : world -> C) (body : M A) (handler : exn -> M A) :
  preserves proj body -> (forall e, preserves proj (handler e)) ->
  preserves proj (try_m body handler).
Proof.
  intros Hb Hh w r w'. unfold try_m. destruct (body w) as [[a|e] w1] eqn:E.
  - intros [= _ <-]. eapply Hb, E.
  - destruct (is_Exception e).
    + intros H. rewrite (Hh e _ _ _ H). eapply Hb, E.
    + intros [= _ <-]. eapply Hb, E.
Qed.





Lemma job_targets_val E targets :
  job_targets E = Val targets ->
  exists w h, probe_src_wh (e_probe_wh E) = Val (w, h) /\
    build_targets (job_renditions E) (a_ar_mode (e_args E)) w h = Val targets.
Proof.
  unfold job_targets. destruct (probe_src_wh (e_probe_wh E)) as [[w h]|]; [|discriminate].
  cbn [rbind fst snd]. eauto.
Qed.


(** ** The packagers *)










(** ** The empty ladder *)












(** ** The duration probe *)





(** ** The DASH manifest rewrite *)







(* ================================================================== *)
(** * Further properties *)
(* ================================================================== *)

(** ** Stripping *)

Lemma rstrip_no_space s : all_chars (fun c => negb (is_space c)) s = true -> rstrip s = s.
Proof.
  induction s as [|c s IH]; cbn [all_chars rstrip]; [reflexivity|].
  intros H. apply andb_true_iff in H as [Hc Hs]. rewrite (IH Hs).
  apply negb_true_iff in Hc. rewrite Hc. destruct s; reflexivity.
Qed.

Lemma lstrip_no_space s : all_chars (fun c => negb (is_space c)) s = true -> lstrip s = s.
Proof.
  destruct s as [|c s]; cbn [all_chars lstrip]; [reflexivity|].
  intros H. apply andb_true_iff in H as [Hc _]. apply negb_true_iff in Hc.
  rewrite Hc. reflexivity.
Qed.

Lemma strip_no_space s : all_chars (fun c => negb (is_space c)) s = true -> strip s = s.
Proof.
  intros H. unfold strip. rewrite (lstrip_no_space s H). apply rstrip_no_space, H.
Qed.

Lemma rstrip_spaces ws : all_chars is_space ws = true -> rstrip ws = "".
Proof.
  induction ws as [|c ws IH]; cbn [all_chars rstrip]; [reflexivity|].
  intros H. apply andb_true_iff in H as [Hc Hs]. rewrite (IH Hs), Hc. reflexivity.
Qed.

Lemma rstrip_app_spaces s ws :
  all_chars (fun c => negb (is_space c)) s = true -> all_chars is_space ws = true ->
  rstrip (s +:+ ws) = s.
Proof.
  intros Hs Hws. induction s as [|c s IH]; cbn [String.append].
  - apply rstrip_spaces, Hws.
  - cbn [all_chars] in Hs. apply andb_true_iff in Hs as [Hc Hs].
    cbn [rstrip]. rewrite (IH Hs). apply negb_true_iff in Hc. rewrite Hc.
    destruct s; reflexivity.
Qed.

Lemma strip_app_spaces s ws :
  all_chars (fun c => negb (is_space c)) s = true -> all_chars is_space ws = true ->
  s <> "" -> strip (s +:+ ws) = s.
Proof.
  intros Hs Hws Hne. unfold strip.
  destruct s as [|c s]; [contradiction|].
  cbn [String.append lstrip]. pose proof Hs as Hs'.
  cbn [all_chars] in Hs'. apply andb_true_iff in Hs' as [Hc _].
  apply negb_true_iff in Hc. rewrite Hc.
  apply (rstrip_app_spaces (String c s) ws Hs Hws).
Qed.

Lemma all_chars_app p s1 s2 :
  all_chars p (s1 +:+ s2) = all_chars p s1 && all_chars p s2.
Proof.
  induction s1 as [|a s1 IH]; cbn; [reflexivity|]. rewrite IH, andb_assoc. reflexivity.
Qed.

(** ** Numerals read back *)

Lemma no_space_string_of_uint d :
  all_chars (fun c => negb (is_space c)) (NilEmpty.string_of_uint d) = true.
Proof. induction d; cbn [NilEmpty.string_of_uint all_chars]; auto. Qed.

Lemma no_space_str n : all_chars (fun c => negb (is_space c)) (str n) = true.
Proof.
  unfold str, NilZero.string_of_int, NilZero.string_of_uint.
  destruct (Z.to_int n) as [d|d]; destruct d;
    cbn [all_chars NilEmpty.string_of_uint]; rewrite ?no_space_string_of_uint; reflexivity.
Qed.

Lemma parse_digits_string_of_uint d acc b :
  parse_digits (NilEmpty.string_of_uint d) acc b
  = match d with
    | Decimal.Nil => if b then Some acc else None
    | _ => Some (uint_val d acc)
    end.
Proof.
  revert acc b. induction d; intros acc b; cbn [NilEmpty.string_of_uint parse_digits];
    [reflexivity|..];
    (change (digit_val _) with (Some 0) || change (digit_val _) with (Some 1)
     || change (digit_val _) with (Some 2) || change (digit_val _) with (Some 3)
     || change (digit_val _) with (Some 4) || change (digit_val _) with (Some 5)
     || change (digit_val _) with (Some 6) || change (digit_val _) with (Some 7)
     || change (digit_val _) with (Some 8) || change (digit_val _) with (Some 9));
    cbn match; rewrite IHd; cbn [uint_val]; rewrite ?Z.add_0_r; destruct d; reflexivity.
Qed.

Lemma uint_val_of_lu d a :
  uint_val d (Z.of_N (Unsigned.of_lu a)) = Z.of_N (Unsigned.of_lu (Decimal.revapp d a)).
Proof.
  revert a. induction d; intros a; cbn [uint_val Decimal.revapp]; [reflexivity|..];
    rewrite <- IHd; f_equal; cbn [Unsigned.of_lu]; lia.
Qed.

Lemma uint_val_of_uint d : uint_val d 0 = Z.of_uint d.
Proof.
  unfold Z.of_uint. rewrite Unsigned.of_uint_alt. unfold Decimal.rev.
  rewrite <- uint_val_of_lu. reflexivity.
Qed.

Lemma parse_digits_to_uint p :
  parse_digits (NilZero.string_of_uint (Pos.to_uint p)) 0 false = Some (Zpos p).
Proof.
  pose proof (Unsigned.to_uint_nonnil p) as Hnn.
  pose proof (Unsigned.of_to p) as Hot.
  unfold NilZero.string_of_uint.
  destruct (Pos.to_uint p) as [|d|d|d|d|d|d|d|d|d|d] eqn:E; [contradiction|..];
    rewrite parse_digits_string_of_uint, uint_val_of_uint; unfold Z.of_uint;
    rewrite Hot; reflexivity.
Qed.

(** [int(str(n)) == n]. *)
Lemma py_int_str n : py_int (str n) = Some n.
Proof.
  unfold py_int. rewrite (strip_no_space _ (no_space_str n)).
  unfold str, NilZero.string_of_int.
  destruct n as [|p|p]; cbn [Z.to_int].
  - reflexivity.
  - pose proof (parse_digits_to_uint p) as H.
    pose proof (Unsigned.to_uint_nonnil p) as Hnn.
    unfold NilZero.string_of_uint in *.
    destruct (Pos.to_uint p) as [|d|d|d|d|d|d|d|d|d|d]; [contradiction|..]; exact H.
  - cbn match. rewrite parse_digits_to_uint. reflexivity.
Qed.

(** ** The dimension probe reads back what [ffprobe] prints *)

(** X6.  [probe_src_wh] reads back what [ffprobe] prints: on the output
    [<w>x<h>] followed by any white space it returns [(w, h)]. *)
Theorem probe_src_wh_roundtrip w h ws :
  all_chars is_space ws = true ->
  probe_src_wh (Output (str w +:+ "x" +:+ str h +:+ ws)) = Val (w, h).
Proof.
  intros Hws. unfold probe_src_wh, probe_src_wh_body. cbn [check_output rbind].
  replace (str w +:+ "x" +:+ str h +:+ ws) with ((str w +:+ "x" +:+ str h) +:+ ws)
    by (rewrite !append_assoc; reflexivity).
  rewrite strip_app_spaces.
  - cbn [String.append]. rewrite split_on_sep by (apply no_char_str; reflexivity).
    rewrite split_on_no_char by (apply no_char_str; reflexivity).
    rewrite !py_int_str. reflexivity.
  - rewrite !all_chars_app, !no_space_str. reflexivity.
  - exact Hws.
  - destruct (str_head w) as (a & s & -> & _). discriminate.
Qed.

Lemma probe_src_wh_roundtrip_witness :
  all_chars is_space newline = true /\
  probe_src_wh (Output ("1280x720" +:+ newline)) = Val (1280, 720).
Proof.
  split; [reflexivity|]. apply (probe_src_wh_roundtrip 1280 720 newline). reflexivity.
Defined.

(** ** Output labels of the filter graph *)

Lemma str_inj n m : str n = str m -> n = m.
Proof.
  intros H. pose proof (py_int_str n) as Hn. rewrite H, py_int_str in Hn. congruence.
Qed.

Lemma enumerate_from_lookup {A} (l : list A) i k :
  enumerate_from i l !! k = (fun x => (i + Z.of_nat k, x)) <$> l !! k.
Proof.
  revert i k. induction l as [|x l IH]; intros i k; cbn [enumerate_from].
  - rewrite !lookup_nil. reflexivity.
  - destruct k as [|k]; cbn [lookup list_lookup fmap option_fmap option_map].
    + rewrite Z.add_0_r. reflexivity.
    + change (enumerate_from (i + 1) l !! k
              = (fun x => (i + Z.of_nat (S k), x)) <$> l !! k).
      rewrite IH. destruct (l !! k); cbn; [|reflexivity]. do 2 f_equal. lia.
Qed.

(** X10.  The output labels of the filter graph are as many as the
    renditions, pairwise distinct, the [k]-th being [v<k>o]; none of them
    is a branch label [v<j>] of the split stage or the source [0:v]. *)
Theorem out_labels_distinct (targets : list target) :
  let labels := (build_filter_complex_for_targets targets).2 in
  length labels = length targets /\
  NoDup labels /\
  (forall k lab, labels !! k = Some lab ->
     lab = "v" +:+ str (Z.of_nat k) +:+ "o") /\
  (forall lab j, lab ∈ labels -> lab <> "v" +:+ str j) /\
  (forall lab, lab ∈ labels -> lab <> "0:v").
Proof.
  cbn zeta. unfold build_filter_complex_for_targets. cbn [snd].
  assert (Hk : forall k lab,
    ((fun it : Z * target => "v" +:+ str it.1 +:+ "o") <$> enumerate targets) !! k = Some lab ->
    lab = "v" +:+ str (Z.of_nat k) +:+ "o").
  { intros k lab. rewrite list_lookup_fmap. unfold enumerate.
    rewrite enumerate_from_lookup. destruct (targets !! k); cbn; [|discriminate].
    intros [= <-]. reflexivity. }
  split; [rewrite length_fmap; apply enumerate_from_length|].
  split; [|split; [exact Hk|split]].
  - apply NoDup_alt. intros i j lab Hi Hj.
    apply Hk in Hi, Hj. rewrite Hi in Hj. cbn in Hj. injection Hj as Hj.
    apply (f_equal (split_once "o")) in Hj.
    rewrite !split_once_sep in Hj by (apply no_char_str; reflexivity).
    injection Hj as Hj. apply str_inj in Hj. lia.
  - intros lab j Hin Heq. apply list_elem_of_lookup in Hin as [k Hin].
    apply Hk in Hin. rewrite Hin in Heq. cbn in Heq. injection Heq as Heq.
    apply (f_equal (no_char "o")) in Heq.
    rewrite no_char_app, (no_char_str "o" j), andb_false_r in Heq by reflexivity.
    discriminate.
  - intros lab Hin Heq. apply list_elem_of_lookup in Hin as [k Hin].
    apply Hk in Hin. rewrite Hin in Heq. discriminate.
Qed.

(** ** The order of the request *)

(** Two descending lists with the same entries, among which the height
    determines the entry, are equal. *)
Lemma sorted_perm_unique l1 l2 :
  StronglySorted taller_eq l1 -> StronglySorted taller_eq l2 -> l1 ≡ₚ l2 ->
  (forall x y, x ∈ l1 -> y ∈ l1 -> t_h x = t_h y -> x = y) ->
  l1 = l2.
Proof.
  intros H1. revert l2. induction H1 as [|x l1 Hs1 IH Hx]; intros l2 H2 Hp Hinj.
  - apply Permutation_nil_l in Hp. congruence.
  - destruct H2 as [|y l2 Hs2 Hy].
    + apply Permutation_nil_r in Hp. discriminate.
    + assert (Hxy : x = y).
      { apply Hinj; [left| |].
        - rewrite Hp. left.
        - assert (H1 : x ∈ y :: l2) by (rewrite <- Hp; left).
          assert (H2 : y ∈ x :: l1) by (rewrite Hp; left).
          rewrite Forall_forall in Hx, Hy. unfold taller_eq in *.
          apply elem_of_cons in H1 as [->|H1]; [reflexivity|].
          apply elem_of_cons in H2 as [->|H2]; [reflexivity|].
          specialize (Hx _ H2). specialize (Hy _ H1). lia. }
      subst y. f_equal. apply IH; [exact Hs2|eapply Permutation_cons_inv, Hp|].
      intros a b Ha Hb. apply Hinj; right; assumption.
Qed.

Lemma fixed_targets_perm rs rs' :
  rs ≡ₚ rs' -> fixed_targets rs ≡ₚ fixed_targets rs'.
Proof.
  induction 1 as [|r rs rs' _ IH|r1 r2 rs|rs1 rs2 rs3 _ IH1 _ IH2];
    cbn [fixed_targets].
  - reflexivity.
  - destruct (dict_get RES_MAP r) as [[[W H] br]|]; [rewrite IH|]; auto.
  - destruct (dict_get RES_MAP r1) as [[[W1 H1] br1]|],
             (dict_get RES_MAP r2) as [[[W2 H2] br2]|]; try reflexivity.
    apply Permutation_swap.
  - etransitivity; eauto.
Qed.

Lemma source_targets_perm ar rs rs' l :
  rs ≡ₚ rs' -> source_targets ar rs = Val l ->
  exists l', source_targets ar rs' = Val l' /\ l ≡ₚ l'.
Proof.
  intros Hp. revert l.
  induction Hp as [|r rs rs' _ IH|r1 r2 rs|rs1 rs2 rs3 _ IH1 _ IH2];
    intros l; cbn [source_targets].
  - eauto.
  - destruct (dict_get RES_MAP r) as [[[W H] br]|]; [|apply IH].
    destruct (py_mul_int_float H ar) as [x|]; cbn [rbind]; [|discriminate].
    destruct (py_round x) as [n|]; cbn [rbind]; [|discriminate].
    destruct (source_targets ar rs) as [rest|]; cbn [rbind]; [|discriminate].
    intros [= <-]. destruct (IH rest eq_refl) as (l' & -> & Hl'). cbn [rbind].
    eexists. split; [reflexivity|]. rewrite Hl'. reflexivity.
  - destruct (dict_get RES_MAP r1) as [[[W1 H1] br1]|],
             (dict_get RES_MAP r2) as [[[W2 H2] br2]|];
      repeat match goal with
        | |- context [py_mul_int_float ?h ar] =>
            destruct (py_mul_int_float h ar); cbn [rbind]; [|discriminate]
        | |- context [py_round ?x] =>
            destruct (py_round x); cbn [rbind]; [|discriminate]
        end;
      (destruct (source_targets ar rs) as [rest|]; cbn [rbind]; [|discriminate]);
      intros [= <-]; eexists; (split; [reflexivity|]);
      first [reflexivity | apply Permutation_swap].
  - intros H1. destruct (IH1 _ H1) as (l2 & H2 & P12).
    destruct (IH2 _ H2) as (l3 & H3 & P23).
    exists l3. split; [exact H3|]. etransitivity; eauto.
Qed.

(** In a list the loops produce the height determines the entry. *)
Lemma entries_same_height rs l x y :
  entries_of rs l -> x ∈ l -> y ∈ l ->
  t_h x = t_h y -> t_w x = t_w y -> x = y.
Proof.
  intros He Hx Hy Hh Hw.
  destruct (entries_of_elem _ _ _ He Hx) as (r1 & W1 & _ & D1 & N1).
  destruct (entries_of_elem _ _ _ He Hy) as (r2 & W2 & _ & D2 & N2).
  assert (r1 = r2).
  { apply (entry_height_inj r1 r2 (t_h x)); unfold entry_height.
    - rewrite D1. reflexivity.
    - rewrite D2, Hh. reflexivity. }
  subst r2. rewrite D1 in D2.
  destruct x, y. cbn in *. simplify_eq. reflexivity.
Qed.

Lemma fixed_targets_row rs t :
  t ∈ fixed_targets rs <->
  exists r, r ∈ rs /\ dict_get RES_MAP r = Some (t_w t, t_h t, t_br t) /\
            t_name t = str (t_h t) +:+ "p".
Proof.
  induction rs as [|r rs IH]; cbn [fixed_targets].
  - split; [intros H; inversion H|intros (r & H & _); inversion H].
  - split.
    + destruct (dict_get RES_MAP r) as [[[W H] br]|] eqn:E.
      * intros Ht. apply elem_of_cons in Ht as [->|Ht].
        -- exists r. cbn. split; [left|auto].
        -- apply IH in Ht as (r' & Hin & Hr). exists r'. split; [right; exact Hin|exact Hr].
      * intros Ht. apply IH in Ht as (r' & Hin & Hr).
        exists r'. split; [right; exact Hin|exact Hr].
    + intros (r' & Hin & Hd & Hn). apply elem_of_cons in Hin as [->|Hin].
      * rewrite Hd. destruct t as [w h br n]. cbn in *. subst n. left.
      * assert (Ht : t ∈ fixed_targets rs) by (apply IH; eauto).
        destruct (dict_get RES_MAP r) as [[[W H] br]|]; [right|]; exact Ht.
Qed.

(** X4.  The ladder does not depend on the order in which the resolutions
    are requested: a reordered request returns the same ladder. *)
Theorem build_targets_request_order rs rs' mode src_w src_h ladder :
  rs ≡ₚ rs' ->
  build_targets rs mode src_w src_h = Val ladder ->
  build_targets rs' mode src_w src_h = Val ladder.
Proof.
  intros Hp Hb. unfold build_targets in *.
  destruct (String.eqb_spec mode "source") as [->|Hm].
  - destruct (if negb (src_h =? 0) then _ else _) as [ar|]; [|discriminate].
    cbn [rbind] in *.
    destruct (source_targets ar rs) as [t|] eqn:Ht; [|discriminate].
    cbn [rbind] in Hb. injection Hb as <-.
    pose proof (source_targets_entries ar rs t Ht) as He.
    destruct (source_targets_perm ar rs rs' t Hp Ht) as (t' & -> & Hperm). cbn [rbind].
    f_equal. symmetry. apply sorted_perm_unique; try apply sort_desc_sorted.
    + rewrite !sort_desc_perm. exact Hperm.
    + intros x y Hx Hy Hh. rewrite sort_desc_perm in Hx, Hy.
      apply (entries_same_height rs t x y He Hx Hy Hh).
      destruct (source_targets_width ar rs t x Ht Hx) as (fx & nx & Mx & Rx & ->).
      destruct (source_targets_width ar rs t y Ht Hy) as (fy & ny & My & Ry & ->).
      rewrite Hh in Mx. congruence.
  - cbn [rbind] in *. injection Hb as <-. f_equal. symmetry.
    apply sorted_perm_unique; try apply sort_desc_sorted.
    + rewrite !sort_desc_perm. apply fixed_targets_perm, Hp.
    + intros x y Hx Hy Hh. rewrite sort_desc_perm in Hx, Hy.
      apply (entries_same_height rs _ x y (fixed_targets_entries rs) Hx Hy Hh).
      apply fixed_targets_row in Hx as (r1 & _ & D1 & _).
      apply fixed_targets_row in Hy as (r2 & _ & D2 & _).
      assert (r1 = r2).
      { apply (entry_height_inj r1 r2 (t_h x)); unfold entry_height.
        - rewrite D1. reflexivity.
        - rewrite D2, Hh. reflexivity. }
      subst r2. congruence.
Qed.

Lemma build_targets_request_order_witness :
  ["480"; "1080"; "720"] ≡ₚ ["1080"; "720"; "480"] /\
  build_targets ["1080"; "720"; "480"] "source" 1920 1080
  = Val [Target 1920 1080 5000000 "1080p"; Target 1280 720 2800000 "720p";
         Target 852 480 1400000 "480p"].
Proof.
  assert (Hp : ["480"; "1080"; "720"] ≡ₚ ["1080"; "720"; "480"]).
  { change ["480"; "1080"; "720"] with (["480"] ++ ["1080"; "720"]).
    apply Permutation_app_comm. }
  split; [exact Hp|].
  apply (build_targets_request_order _ _ _ _ _ _ Hp). vm_compute. reflexivity.
Defined.

(** ** The ['fixed'] policy *)

(** X5.  In any mode other than ['source'] the probed dimensions are not
    looked at and [build_targets] always returns: the ladder holds, up to
    order, exactly the rows of [RES_MAP] of the requested known keys, with
    the table's own width. *)
Theorem build_targets_fixed rs mode src_w src_h :
  mode <> "source" ->
  exists ladder,
    build_targets rs mode src_w src_h = Val ladder /\
    ladder ≡ₚ fixed_targets rs /\
    forall t, t ∈ ladder <->
      exists r, r ∈ rs /\ dict_get RES_MAP r = Some (t_w t, t_h t, t_br t) /\
                t_name t = str (t_h t) +:+ "p".
Proof.
  intros Hm. unfold build_targets.
  destruct (String.eqb_spec mode "source") as [?|_]; [contradiction|]. cbn [rbind].
  eexists. split; [reflexivity|]. split; [apply sort_desc_perm|].
  intros t. rewrite sort_desc_perm. apply fixed_targets_row.
Qed.

Lemma build_targets_fixed_witness :
  "fixed" <> "source" /\
  exists ladder,
    build_targets ["480"; "4320"; "2160"] "fixed" 0 0 = Val ladder /\
    Target 854 480 1400000 "480p" ∈ ladder.
Proof.
  split; [discriminate|].
  destruct (build_targets_fixed ["480"; "4320"; "2160"] "fixed" 0 0 ltac:(discriminate))
    as (ladder & Hb & _ & Hin).
  exists ladder. split; [exact Hb|]. apply Hin. exists "480".
  split; [left|]. split; reflexivity.
Defined.

(** ** [Fraction] *)

Lemma make_fraction_lowest n d f :
  make_fraction n d = Val f ->
  0 < denominator f /\ Z.gcd (numerator f) (denominator f) = 1 /\
  numerator f * d = n * denominator f.
Proof.
  unfold make_fraction. destruct (Z.eqb_spec d 0) as [|Hd]; [discriminate|].
  intros [= <-]. cbn [numerator denominator].
  pose proof (Z.gcd_nonneg n d) as Hg0.
  assert (Hg : Z.gcd n d <> 0) by (intros H; apply Z.gcd_eq_0_r in H; contradiction).
  destruct (Z.gcd_divide_l n d) as [a Ha]. destruct (Z.gcd_divide_r n d) as [b Hb].
  pose proof (Z.gcd_div_gcd n d (Z.gcd n d) Hg eq_refl) as Hco.
  remember (Z.gcd n d) as g eqn:Eg.
  assert (Hn : n / g = a) by (rewrite Ha at 1; apply Z.div_mul, Hg).
  assert (Hdd : d / g = b) by (rewrite Hb at 1; apply Z.div_mul, Hg).
  rewrite Hn, Hdd in Hco.
  destruct (Z.ltb_spec d 0) as [Hneg|Hpos].
  - assert (Hn' : n / - g = - a).
    { rewrite Ha at 1. replace (a * g) with (- a * - g) by ring. apply Z.div_mul. lia. }
    assert (Hd' : d / - g = - b).
    { rewrite Hb at 1. replace (b * g) with (- b * - g) by ring. apply Z.div_mul. lia. }
    rewrite Hn', Hd'. split; [nia|]. split.
    + rewrite Z.gcd_opp_l, Z.gcd_opp_r. exact Hco.
    + rewrite Ha, Hb. ring.
  - rewrite Hn, Hdd. split; [nia|]. split; [exact Hco|].
    rewrite Ha, Hb. ring.
Qed.

(** A fraction already in lowest terms is rebuilt as it is. *)
Lemma make_fraction_coprime n d :
  0 < d -> Z.gcd n d = 1 -> make_fraction n d = Val (Fraction n d).
Proof.
  intros Hd Hg. unfold make_fraction.
  destruct (Z.eqb_spec d 0) as [|_]; [lia|].
  destruct (Z.ltb_spec d 0) as [|_]; [lia|].
  rewrite Hg, !Z.div_1_r. reflexivity.
Qed.

(** The loop of [limit_denominator] leaves with a denominator [q1]
    between [1] and the bound, and [q0 >= 0]. *)
Lemma limit_loop_bounds fuel m p0 q0 p1 q1 n d p0' q0' p1' q1' d' :
  1 <= m ->
  (q1 = 0 /\ q0 = 1 /\ 0 < d) \/ (0 <= d < n /\ 0 <= q0 /\ 1 <= q1 <= m) ->
  limit_loop fuel m p0 q0 p1 q1 n d = Val (p0', q0', p1', q1', d') ->
  0 <= q0' /\ 1 <= q1' <= m.
Proof.
  intros Hm. revert p0 q0 p1 q1 n d.
  induction fuel as [|fuel IH]; intros p0 q0 p1 q1 n d Hinv; cbn [limit_loop];
    [discriminate|].
  destruct (Z.eqb_spec d 0) as [Hz|Hnz]; [discriminate|]. cbn zeta.
  destruct (Z.ltb_spec m (q0 + n / d * q1)) as [Hexit|Hgo].
  - intros [= <- <- <- <- <-]. destruct Hinv as [(-> & -> & _)|(_ & H0 & H1)]; [lia|lia].
  - apply IH. right.
    assert (Hd : 0 < d) by (destruct Hinv as [(_ & _ & ?)|((? & _) & _)]; lia).
    pose proof (Z.mod_pos_bound n d Hd) as Hmod. rewrite Z.mod_eq in Hmod by lia.
    replace (n / d * d) with (d * (n / d)) by ring.
    split; [lia|].
    destruct Hinv as [(-> & -> & _)|((_ & Hnd) & H0 & H1)].
    + lia.
    + assert (1 <= n / d) by (apply Z.div_le_lower_bound; lia).
      split; [lia|]. split; [nia|lia].
Qed.

Lemma limit_denominator_bound x m f :
  0 < denominator x -> 1 <= m ->
  limit_denominator x m = Val f -> 1 <= denominator f <= m.
Proof.
  intros Hx Hm. unfold limit_denominator.
  destruct (Z.ltb_spec m 1) as [|_]; [lia|].
  destruct (Z.leb_spec (denominator x) m) as [Hle|Hgt].
  - intros [= <-]. lia.
  - destruct (limit_loop _ _ _ _ _ _ _ _) as [[[[[p0 q0] p1] q1] d]|] eqn:El;
      cbn [rbind]; [|discriminate].
    apply limit_loop_bounds in El as (H0 & H1); [|exact Hm|left; lia].
    destruct (Z.eqb_spec q1 0) as [|_]; [lia|].
    destruct (2 * d * (q0 + (m - q0) / q1 * q1) <=? denominator x);
      intros [= <-]; cbn [denominator]; [lia|].
    pose proof (Z.mod_pos_bound (m - q0) q1 ltac:(lia)) as Hmod.
    rewrite Z.mod_eq in Hmod by lia. nia.
Qed.

(** ** The aspect-ratio probe *)

(** The first stream of a probe document. *)
Lemma probe_dar_body_stream d o rest :
  dict_get d "streams" = Some (JList (JObj o :: rest)) ->
  probe_dar_body (ProbeJson (JObj d))
  = (dar <- strip_method (py_or (default JNull (dict_get o "display_aspect_ratio")) (JStr "")) ;;
     if negb (String.eqb dar "")
        && negb (String.eqb dar "0:1" || String.eqb dar "N/A" || String.eqb dar "unknown")
     then Val dar
     else
       w <- int_of_json (py_or (default JNull (dict_get o "width")) (JInt 1920)) ;;
       h <- int_of_json (py_or (default JNull (dict_get o "height")) (JInt 1080)) ;;
       sar <- strip_method (py_or (default JNull (dict_get o "sample_aspect_ratio"))
                              (JStr "1:1")) ;;
       let '(sn, sd) := parse_sar sar in
       f1 <- make_fraction w h ;;
       f2 <- make_fraction sn sd ;;
       frac <- fraction_mul f1 f2 ;;
       frac <- limit_denominator frac 1000 ;;
       Val (str (numerator frac) +:+ ":" +:+ str (denominator frac))).
Proof.
  intros Hs. unfold probe_dar_body. cbn [loads_output rbind getitem_key].
  rewrite Hs. cbn [of_option rbind getitem_0 dict_get_method]. reflexivity.
Qed.

(** X7.  A display aspect ratio declared by the first stream, other than
    the empty string, [0:1], [N/A] and [unknown], is returned as it is,
    stripped, whatever the frame size and the sample aspect ratio. *)
Theorem probe_dar_declared d o rest dar :
  dict_get d "streams" = Some (JList (JObj o :: rest)) ->
  dict_get o "display_aspect_ratio" = Some (JStr dar) ->
  strip dar <> "" -> strip dar <> "0:1" -> strip dar <> "N/A" -> strip dar <> "unknown" ->
  probe_dar (ProbeJson (JObj d)) = Val (strip dar).
Proof.
  intros Hs Hd H1 H2 H3 H4. rewrite probe_dar_eq, (probe_dar_body_stream d o rest Hs), Hd.
  change (default JNull (Some (JStr dar))) with (JStr dar).
  unfold py_or at 1. unfold json_truthy at 1.
  assert (Hne : dar <> "") by (intros ->; apply H1; reflexivity).
  apply String.eqb_neq in Hne. rewrite Hne. cbn [negb strip_method rbind].
  apply String.eqb_neq in H1, H2, H3, H4. rewrite H1, H2, H3, H4. reflexivity.
Qed.

Lemma probe_dar_declared_witness :
  probe_dar (ProbeJson (JObj [("programs", JList []);
     ("streams", JList [JObj [("width", JInt 720); ("height", JInt 576);
                              ("sample_aspect_ratio", JStr "16:15");
                              ("display_aspect_ratio", JStr "4:3")]])]))
  = Val "4:3".
Proof.
  apply (probe_dar_declared _
           [("width", JInt 720); ("height", JInt 576);
            ("sample_aspect_ratio", JStr "16:15"); ("display_aspect_ratio", JStr "4:3")]
           [] "4:3"); first [reflexivity | discriminate].
Defined.

(** X9.  Without a declared display ratio, whatever the stream says
    about its size and samples, [probe_dar] returns a string [n:d] with
    [1 <= d <= 1000]. *)
Theorem probe_dar_denominator_bound d o rest :
  dict_get d "streams" = Some (JList (JObj o :: rest)) ->
  dict_get o "display_aspect_ratio" = None ->
  exists n den,
    probe_dar (ProbeJson (JObj d)) = Val (str n +:+ ":" +:+ str den) /\
    1 <= den <= 1000.
Proof.
  intros Hs Hd. rewrite probe_dar_eq, (probe_dar_body_stream d o rest Hs), Hd.
  cbn [default py_or json_truthy strip_method rbind].
  change (strip "") with "". cbn [String.eqb negb andb].
  assert (Hfb : exists n den, Val "16:9" = Val (str n +:+ ":" +:+ str den) /\ 1 <= den <= 1000).
  { exists 16, 9. split; [reflexivity|lia]. }
  destruct (int_of_json _) as [w|]; cbn [rbind]; [|exact Hfb].
  destruct (int_of_json _) as [h|]; cbn [rbind]; [|exact Hfb].
  destruct (strip_method _) as [sar|]; cbn [rbind]; [|exact Hfb].
  destruct (parse_sar sar) as [sn sd].
  destruct (make_fraction w h) as [f1|] eqn:E1; cbn [rbind]; [|exact Hfb].
  destruct (make_fraction sn sd) as [f2|] eqn:E2; cbn [rbind]; [|exact Hfb].
  destruct (fraction_mul f1 f2) as [f|] eqn:E3; cbn [rbind]; [|exact Hfb].
  destruct (limit_denominator f 1000) as [g|] eqn:E4; cbn [rbind]; [|exact Hfb].
  exists (numerator g), (denominator g). split; [reflexivity|].
  apply (limit_denominator_bound f 1000 g); [|lia|exact E4].
  apply make_fraction_lowest in E3. apply E3.
Qed.

Lemma probe_dar_denominator_bound_witness :
  exists n den,
    probe_dar (ProbeJson (JObj [("streams",
       JList [JObj [("width", JInt 4096); ("height", JInt 1716)]])]))
    = Val (str n +:+ ":" +:+ str den) /\ 1 <= den <= 1000.
Proof.
  apply (probe_dar_denominator_bound _ [("width", JInt 4096); ("height", JInt 1716)] []);
    reflexivity.
Defined.

(** A coprime pair with a positive denominator is determined by the
    rational it stands for. *)
Lemma lowest_terms_unique n1 d1 n2 d2 :
  0 < d1 -> 0 < d2 -> Z.gcd n1 d1 = 1 -> Z.gcd n2 d2 = 1 ->
  n1 * d2 = n2 * d1 -> n1 = n2 /\ d1 = d2.
Proof.
  intros H1 H2 G1 G2 E.
  assert (D12 : (d1 | d2)).
  { apply (Z.gauss d1 n1 d2); [exists n2; lia|]. rewrite Z.gcd_comm. exact G1. }
  assert (D21 : (d2 | d1)).
  { apply (Z.gauss d2 n2 d1); [exists n1; lia|]. rewrite Z.gcd_comm. exact G2. }
  assert (d1 = d2) by (apply Z.divide_antisym_nonneg; [lia|lia|assumption|assumption]).
  subst d2. split; [|reflexivity]. apply (Z.mul_cancel_r _ _ d1); lia.
Qed.

Lemma make_fraction_val n d :
  0 < d -> make_fraction n d = Val (Fraction (n / Z.gcd n d) (d / Z.gcd n d)).
Proof.
  intros Hd. unfold make_fraction.
  destruct (Z.eqb_spec d 0); [lia|]. destruct (Z.ltb_spec d 0); [lia|]. reflexivity.
Qed.

(** The product of the reduced frame ratio and the reduced sample ratio
    is the reduced product. *)
Lemma fraction_mul_reduced w h sn sd f1 f2 :
  0 < h -> 0 < sd ->
  make_fraction w h = Val f1 -> make_fraction sn sd = Val f2 ->
  fraction_mul f1 f2 = make_fraction (w * sn) (h * sd).
Proof.
  intros Hh Hsd E1 E2.
  destruct (make_fraction_lowest _ _ _ E1) as (P1 & _ & X1).
  destruct (make_fraction_lowest _ _ _ E2) as (P2 & _ & X2).
  unfold fraction_mul.
  assert (Hd : 0 < denominator f1 * denominator f2) by (apply Z.mul_pos_pos; assumption).
  assert (Hd' : 0 < h * sd) by (apply Z.mul_pos_pos; assumption).
  destruct (make_fraction (numerator f1 * numerator f2) (denominator f1 * denominator f2))
    as [a|] eqn:Ea.
  2:{ rewrite make_fraction_val in Ea by exact Hd. discriminate. }
  destruct (make_fraction (w * sn) (h * sd)) as [b|] eqn:Eb.
  2:{ rewrite make_fraction_val in Eb by exact Hd'. discriminate. }
  destruct (make_fraction_lowest _ _ _ Ea) as (Pa & Ga & Xa).
  destruct (make_fraction_lowest _ _ _ Eb) as (Pb & Gb & Xb).
  destruct (lowest_terms_unique (numerator a) (denominator a) (numerator b) (denominator b))
    as [Hn Hdn]; try assumption.
  - apply (Z.mul_cancel_r _ _ (h * sd * (denominator f1 * denominator f2))); [lia|].
    transitivity (numerator a * (denominator f1 * denominator f2) * (denominator b * (h * sd)));
      [ring|].
    rewrite Xa.
    transitivity (numerator b * (h * sd) * (denominator a * (denominator f1 * denominator f2)));
      [|ring].
    rewrite Xb.
    transitivity ((numerator f1 * h) * (numerator f2 * sd) * (denominator a * denominator b));
      [ring|].
    rewrite X1, X2. ring.
  - destruct a, b. cbn in *. congruence.
Qed.

Lemma parse_sar_numerals sn sd :
  0 < sn -> 0 < sd -> parse_sar (str sn +:+ ":" +:+ str sd) = (sn, sd).
Proof.
  intros Hn Hd. unfold parse_sar. cbn [String.append].
  rewrite split_on_sep by (apply no_char_str; reflexivity).
  rewrite split_on_no_char by (apply no_char_str; reflexivity).
  rewrite !py_int_str. cbn [of_option rbind try_except].
  destruct (Z.leb_spec sn 0); [lia|]. destruct (Z.leb_spec sd 0); [lia|]. reflexivity.
Qed.

(** X8.  Without a declared display ratio, for a positive frame size and
    a positive sample aspect ratio [sn:sd] ([1:1] when absent), the ratio
    returned is [(w * sn) : (h * sd)] in lowest terms, as long as the
    reduced denominator is at most 1000. *)
Theorem probe_dar_computed d o rest w h sn sd :
  dict_get d "streams" = Some (JList (JObj o :: rest)) ->
  dict_get o "display_aspect_ratio" = None ->
  dict_get o "width" = Some (JInt w) -> dict_get o "height" = Some (JInt h) ->
  dict_get o "sample_aspect_ratio" = Some (JStr (str sn +:+ ":" +:+ str sd)) \/
  (dict_get o "sample_aspect_ratio" = None /\ sn = 1 /\ sd = 1) ->
  0 < w -> 0 < h -> 0 < sn -> 0 < sd ->
  h * sd / Z.gcd (w * sn) (h * sd) <= 1000 ->
  probe_dar (ProbeJson (JObj d))
  = Val (str (w * sn / Z.gcd (w * sn) (h * sd)) +:+ ":" +:+
         str (h * sd / Z.gcd (w * sn) (h * sd))).
Proof.
  intros Hs Hd Hw Hh Hsar Hwp Hhp Hsn Hsd Hden.
  rewrite probe_dar_eq, (probe_dar_body_stream d o rest Hs), Hd, Hw, Hh.
  assert (Hs1 : strip_method
            (py_or (default JNull (dict_get o "sample_aspect_ratio")) (JStr "1:1"))
          = Val (str sn +:+ ":" +:+ str sd)).
  { destruct Hsar as [-> | (-> & -> & ->)]; [|reflexivity].
    assert (Hns : all_chars (fun c => negb (is_space c)) (str sn +:+ ":" +:+ str sd) = true).
    { rewrite all_chars_app, no_space_str. cbn [String.append all_chars andb].
      rewrite no_space_str. reflexivity. }
    cbn [default id]. unfold py_or. cbn [json_truthy].
    replace (negb (String.eqb (str sn +:+ ":" +:+ str sd) "")) with true.
    - cbn [strip_method]. rewrite (strip_no_space _ Hns). reflexivity.
    - destruct (str_head sn) as (a & s & -> & _). reflexivity. }
  rewrite Hs1.
  cbn [default id py_or json_truthy strip_method rbind].
  change (strip "") with "". cbn [String.eqb negb andb].
  unfold py_or. cbn [json_truthy].
  replace (negb (w =? 0)) with true by (symmetry; apply negb_true_iff, Z.eqb_neq; lia).
  replace (negb (h =? 0)) with true by (symmetry; apply negb_true_iff, Z.eqb_neq; lia).
  cbn [int_of_json rbind]. rewrite parse_sar_numerals by assumption.
  rewrite (make_fraction_val w h Hhp). cbn [rbind].
  rewrite (make_fraction_val sn sd Hsd). cbn [rbind].
  rewrite (fraction_mul_reduced w h sn sd _ _ Hhp Hsd
             (make_fraction_val w h Hhp) (make_fraction_val sn sd Hsd)).
  rewrite make_fraction_val by (apply Z.mul_pos_pos; assumption). cbn [rbind].
  unfold limit_denominator. cbn [denominator numerator Z.ltb Z.compare].
  replace (_ <=? 1000) with true by (symmetry; apply Z.leb_le, Hden).
  reflexivity.
Qed.

(** An anamorphic PAL frame: 720x576 with 16:15 samples is 4:3. *)
Lemma probe_dar_computed_witness :
  probe_dar (ProbeJson (JObj [("streams",
     JList [JObj [("width", JInt 720); ("height", JInt 576);
                  ("sample_aspect_ratio", JStr "16:15")]])]))
  = Val "4:3".
Proof.
  apply (probe_dar_computed _ [("width", JInt 720); ("height", JInt 576);
                               ("sample_aspect_ratio", JStr "16:15")] [] 720 576 16 15);
    try reflexivity; [left; reflexivity|vm_compute; discriminate].
Defined.

(** ** A missing input *)

(** X1.  When the input file does not exist, the process prints
    [ERROR: input not found: <path>] on the error stream and exits with
    status 2; no directory is created, no file is written and nothing is
    printed on the standard output. *)
Theorem input_missing_exit E w0 :
  e_input_exists E = false ->
  run_script E w0
  = (2, World (w_dirs w0) (w_files w0) (w_out w0)
          (w_err w0 ++ ["ERROR: input not found: " +:+ e_inp E])).
Proof.
  intros H. unfold run_script, main, main_prologue. rewrite H. reflexivity.
Qed.

(** ** Files a step leaves alone *)

Lemma frame_files_print {B} (g : gmap string content -> B) s :
  preserves (fun w => g (w_files w)) (print s).
Proof. intros w r w' [= _ <-]. reflexivity. Qed.

Lemma frame_files_echo {B} (g : gmap string content -> B) c :
  preserves (fun w => g (w_files w)) (echo c).
Proof. intros w r w' [= _ <-]. reflexivity. Qed.

Lemma frame_files_eprint {B} (g : gmap string content -> B) s :
  preserves (fun w => g (w_files w)) (eprint s).
Proof. intros w r w' [= _ <-]. reflexivity. Qed.

Lemma frame_files_ensure_dir {B} (g : gmap string content -> B) p :
  preserves (fun w => g (w_files w)) (ensure_dir p).
Proof. intros w r w' [= _ <-]. reflexivity. Qed.

Lemma frame_files_set_dirs {B} (g : gmap string content -> B) d :
  preserves (fun w => g (w_files w)) (set_dirs d).
Proof. intros w r w' [= _ <-]. reflexivity. Qed.

Lemma frame_files_get_world {B} (g : gmap string content -> B) :
  preserves (fun w => g (w_files w)) get_world.
Proof. intros w r w' [= _ <-]. reflexivity. Qed.

Lemma frame_files_raise {A B} (g : gmap string content -> B) e :
  preserves (fun w => g (w_files w)) (@raise A e).
Proof. intros w r w' [= _ <-]. reflexivity. Qed.

Lemma preserves_for_each {A C} (proj : world -> C) (l : list A) (f : A -> M unit) :
  (forall x, preserves proj (f x)) -> preserves proj (for_each l f).
Proof.
  intros Hf. induction l as [|x l IH]; cbn [for_each].
  - apply preserves_ret.
  - apply preserves_bind; [apply Hf|]. intros _. exact IH.
Qed.

Lemma frame_file_write p q c :
  p <> q -> preserves (fun w => w_files w !! p) (write_file q c).
Proof.
  intros Hne w r w' [= _ <-]. cbn [w_files]. apply lookup_insert_ne. congruence.
Qed.

Ltac frame_tac :=
  repeat first
    [ apply preserves_ret | apply preserves_lift
    | apply (frame_files_print (fun m => m !! _))
    | apply (frame_files_echo (fun m => m !! _))
    | apply (frame_files_eprint (fun m => m !! _))
    | apply (frame_files_ensure_dir (fun m => m !! _))
    | apply (frame_files_set_dirs (fun m => m !! _))
    | apply (frame_files_get_world (fun m => m !! _))
    | apply (frame_files_raise (fun m => m !! _))
    | apply frame_file_write
    | apply preserves_for_each; intros ?
    | apply preserves_try; [|intros ?]
    | apply preserves_bind; [|intros ?]
    | match goal with
      | |- preserves _ (match ?x with _ => _ end) => destruct x
      | |- preserves _ (if ?b then _ else _) => destruct b
      | |- preserves _ (let '(_, _) := ?x in _) => destruct x
      end ].

Lemma path_join_inj wd a b : path_join wd a = path_join wd b -> a = b.
Proof.
  unfold path_join. intros H. apply String.app_inj in H. cbn in H. congruence.
Qed.

(** A path below a sub-directory of the working directory differs from
    a file directly in it whose name differs from the sub-directory at its
    first character. *)
Ltac path_neq :=
  unfold path_join; rewrite ?append_assoc; intros Heq;
  apply String.app_inj in Heq; cbn in Heq; discriminate.





Lemma dash_rewrite_files E dash_dir mpd_path targets p :
  p <> mpd_path ->
  preserves (fun w => w_files w !! p) (dash_rewrite E dash_dir mpd_path targets).
Proof.
  intros Hn. unfold dash_rewrite, parse_mpd, move_rep_dir, replace_file.
  frame_tac; exact Hn.
Qed.


(** ** A failing encoder *)











Lemma input_missing_exit_witness :
  let E := Env (Args "h264" false "1080,720" true true false false None None "source")
      false false "/in/gone.mp4" "gone.mp4" "gone" "/out" "2024-01-01 00:00:00"
      0 (Returns None) (Returns []) (Output "1920x1080") ProbeMalformed "00ff"
      0 0 (fun _ => []) None true (fun _ _ => true) DurUnparsable false
      posix_name None (fun _ => []) None in
  e_input_exists E = false /\
  (run_script E empty_world).1 = 2 /\
  w_dirs (run_script E empty_world).2 = ∅ /\
  w_err (run_script E empty_world).2 = ["ERROR: input not found: /in/gone.mp4"].
Proof.
  intros E. split; [reflexivity|].
  rewrite (input_missing_exit E empty_world eq_refl). repeat split.
Defined.

(** ** An encoder path without a file name *)

(** X26.  When the input exists but the encoder path given with
    [--ffmpeg-bin] has no file name (such as [.]), [which_ffprobe] raises
    [ValueError] before anything is created: the process prints one line
    [Error : ...] and ends with status 1; no directory is created, no file
    is written and nothing is printed on the error stream. *)
Theorem ffprobe_unresolved_exit E w0 p :
  e_input_exists E = true ->
  a_ffmpeg_bin (e_args E) = Some p -> p <> "" -> e_path_name E p = "" ->
  which_ffprobe E = Raise ValueError /\
  ~ ffprobe_resolves E /\
  (run_script E w0).1 = 1 /\
  w_dirs (run_script E w0).2 = w_dirs w0 /\
  w_files (run_script E w0).2 = w_files w0 /\
  w_err (run_script E w0).2 = w_err w0 /\
  exists msg, w_out (run_script E w0).2 = w_out w0 ++ [Line ("Error : " +:+ msg)].
Proof.
  intros Hex Hb Hp Hn.
  assert (Hf : which_ffprobe E = Raise ValueError).
  { unfold which_ffprobe. rewrite Hb, Hn.
    destruct (String.eqb_spec p ""); [contradiction|reflexivity]. }
  split; [exact Hf|]. split; [intros [f Hv]; congruence|].
  assert (Hm : main E w0 = (Raise ValueError, w0)).
  { unfold main, main_prologue. rewrite Hex. cbn [negb]. cbn zeta.
    erewrite mbind_raise; [reflexivity|].
    erewrite mbind_val by reflexivity.
    erewrite mbind_raise; [reflexivity|]. rewrite Hf. reflexivity. }
  unfold run_script. rewrite Hm. cbn [snd fst print w_dirs w_files w_err w_out].
  repeat split. eexists. reflexivity.
Qed.

Lemma ffprobe_unresolved_exit_witness :
  let E := Env (Args "h264" false "9999" false false false false None (Some ".") "source")
      false true "/in/movie.mp4" "movie.mp4" "movie" "/out" "2024-01-01 00:00:00"
      0 (Returns None) (Returns []) (Output "1920x1080") ProbeMalformed "00ff"
      0 0 (fun _ => []) None true (fun _ _ => true) DurUnparsable false
      posix_name None (fun _ => []) None in
  (e_input_exists E = true /\ a_ffmpeg_bin (e_args E) = Some "." /\
   e_path_name E "." = "") /\
  (run_script E empty_world).1 = 1 /\
  w_dirs (run_script E empty_world).2 = ∅.
Proof.
  intros E. split; [repeat split|].
  destruct (ffprobe_unresolved_exit E empty_world "." eq_refl eq_refl
              ltac:(discriminate) eq_refl) as (_ & _ & H1 & H2 & _).
  split; [exact H1|exact H2].
Defined.

(** ** Files a successful job leaves behind *)



Lemma keeps_files_untouched {A} (m : M A) :
  preserves w_files m -> keeps_files m.
Proof. intros H w r w' p E. rewrite (H _ _ _ E). auto. Qed.

Lemma keeps_files_write p c : keeps_files (write_file p c).
Proof.
  intros w r w' q [= _ <-] Hq. cbn [w_files].
  destruct (decide (p = q)) as [->|Hne].
  - rewrite lookup_insert_eq. eauto.
  - rewrite lookup_insert_ne by exact Hne. exact Hq.
Qed.

Lemma keeps_files_bind {A B} (m : M A) (k : A -> M B) :
  keeps_files m -> (forall a, keeps_files (k a)) -> keeps_files (mbind m k).
Proof.
  intros Hm Hk w r w' p. unfold mbind. destruct (m w) as [[a|e] w1] eqn:E.
  - intros H Hp. eapply Hk; [exact H|]. eapply Hm; eauto.
  - intros [= _ <-]. eapply Hm, E.
Qed.

Lemma keeps_files_try {A} (body : M A) (handler : exn -> M A) :
  keeps_files body -> (forall e, keeps_files (handler e)) ->
  keeps_files (try_m body handler).
Proof.
  intros Hb Hh w r w' p. unfold try_m. destruct (body w) as [[a|e] w1] eqn:E.
  - intros [= _ <-]. eapply Hb, E.
  - destruct (is_Exception e).
    + intros H Hp. eapply Hh; [exact H|]. eapply Hb; eauto.
    + intros [= _ <-]. eapply Hb, E.
Qed.

Lemma keeps_files_for_each {A} (l : list A) (f : A -> M unit) :
  (forall x, keeps_files (f x)) -> keeps_files (for_each l f).
Proof.
  intros Hf. induction l as [|x l IH]; cbn [for_each].
  - apply keeps_files_untouched, preserves_ret.
  - apply keeps_files_bind; [apply Hf|]. intros _. exact IH.
Qed.

Ltac keeps_tac :=
  repeat first
    [ apply keeps_files_write
    | apply keeps_files_for_each; intros ?
    | apply keeps_files_try; [|intros ?]
    | apply keeps_files_bind; [|intros ?]
    | (apply keeps_files_untouched;
       first [ apply preserves_ret | apply preserves_lift
             | apply (frame_files_print (fun m => m))
             | apply (frame_files_echo (fun m => m))
             | apply (frame_files_ensure_dir (fun m => m))
             | apply (frame_files_set_dirs (fun m => m))
             | apply (frame_files_get_world (fun m => m))
             | apply (frame_files_raise (fun m => m)) ])
    | match goal with
      | |- keeps_files (match ?x with _ => _ end) => destruct x
      | |- keeps_files (if ?b then _ else _) => destruct b
      | |- keeps_files (let '(_, _) := ?x in _) => destruct x
      end ].


Lemma keeps_files_dash_stage E wd base targets :
  keeps_files (dash_stage E wd base targets).
Proof.
  unfold dash_stage, run_cmd, dash_encoder_outputs, dash_rewrite_guarded, dash_rewrite,
    parse_mpd, move_rep_dir, replace_file.
  keeps_tac.
Qed.











(** ** Renaming a representation directory *)

Lemma replace_file_run E src dst f w :
  replace_file E src dst f w
  = if e_replace_ok E (path_join src f) (path_join dst f)
    then (Val tt,
          World (<[dst := if bool_decide (f ∈ dir_files w dst) then dir_files w dst
                          else dir_files w dst ++ [f]]>
                   (<[src := filter (fun g => g ≠ f) (dir_files w src)]> (w_dirs w)))
                (w_files w) (w_out w) (w_err w))
    else (Raise OSError, w).
Proof. unfold replace_file. destruct (e_replace_ok E _ _); reflexivity. Qed.

(** The merge loop: whatever its outcome, files only travel from the
    source to the destination. *)
Lemma merge_loop E src dst fs w r w' :
  src <> dst ->
  for_each fs (replace_file E src dst) w = (r, w') ->
  (forall p, p <> src -> p <> dst -> w_dirs w' !! p = w_dirs w !! p) /\
  (forall f, f ∈ dir_files w dst -> f ∈ dir_files w' dst) /\
  (forall f, f ∈ dir_files w' dst -> f ∈ dir_files w dst \/ f ∈ fs) /\
  (forall f, f ∈ dir_files w src -> f ∈ dir_files w' src \/ f ∈ dir_files w' dst) /\
  (r = Val tt -> forall f, f ∈ fs -> f ∈ dir_files w' dst) /\
  (forall e, r = Raise e -> e = OSError) /\
  (is_Some (w_dirs w !! dst) -> is_Some (w_dirs w' !! dst)) /\
  w_files w' = w_files w /\ w_out w' = w_out w /\ w_err w' = w_err w.
Proof.
  intros Hne. revert w. induction fs as [|f fs IH]; intros w; cbn [for_each].
  - intros [= <- <-]. repeat split; auto; try discriminate.
    intros _ f Hf. inversion Hf.
  - unfold mbind. rewrite replace_file_run.
    destruct (e_replace_ok E _ _).
    2:{ intros [= <- <-]. repeat split; auto; try discriminate; congruence. }
    set (w1 := World _ _ _ _). intros Hrun.
    destruct (IH w1 Hrun) as (Ho & Hd1 & Hd2 & Hs & Hok & He & Hsome & Hf & Hout & Herr).
    assert (D1 : dir_files w1 dst
                 = if bool_decide (f ∈ dir_files w dst) then dir_files w dst
                   else dir_files w dst ++ [f]).
    { unfold dir_files at 1, w1. cbn [w_dirs]. rewrite lookup_insert_eq. reflexivity. }
    assert (S1 : dir_files w1 src = filter (fun g => g ≠ f) (dir_files w src)).
    { unfold dir_files at 1, w1. cbn [w_dirs].
      rewrite lookup_insert_ne by congruence. rewrite lookup_insert_eq. reflexivity. }
    assert (Hin1 : forall g, g ∈ dir_files w1 dst <-> g ∈ dir_files w dst \/ g = f).
    { intros g. rewrite D1. case_bool_decide as Hf'.
      - split; [auto|]. intros [?| ->]; assumption.
      - rewrite elem_of_app, list_elem_of_singleton. reflexivity. }
    repeat split.
    + intros p Hp1 Hp2. rewrite (Ho p Hp1 Hp2). unfold w1. cbn [w_dirs].
      rewrite !lookup_insert_ne by congruence. reflexivity.
    + intros g Hg. apply Hd1, Hin1. auto.
    + intros g Hg. apply Hd2 in Hg as [Hg|Hg]; [|right; right; exact Hg].
      apply Hin1 in Hg as [Hg| ->]; [auto|right; left].
    + intros g Hg. destruct (decide (g = f)) as [->|Hgf].
      * right. apply Hd1, Hin1. auto.
      * apply Hs. rewrite S1. apply list_elem_of_filter. auto.
    + intros Hr g Hg. apply elem_of_cons in Hg as [->|Hg].
      * apply Hd1, Hin1. auto.
      * apply Hok; assumption.
    + exact He.
    + intros _. apply Hsome. unfold w1. cbn [w_dirs]. rewrite lookup_insert_eq. eauto.
    + exact Hf.
    + exact Hout.
    + exact Herr.
Qed.

Lemma move_rep_dir_step E dash_dir rid h w r w' :
  rid <> h ->
  move_rep_dir E dash_dir (rid, h) w = (r, w') ->
  let src := path_join dash_dir rid in
  let dst := path_join dash_dir h in
  (forall p, p <> src -> p <> dst -> w_dirs w' !! p = w_dirs w !! p) /\
  (forall f, f ∈ dir_files w src \/ f ∈ dir_files w dst ->
             f ∈ dir_files w' src \/ f ∈ dir_files w' dst) /\
  (r = Val tt -> is_Some (w_dirs w !! src) ->
   w_dirs w' !! src = None /\ is_Some (w_dirs w' !! dst) /\
   forall f, f ∈ dir_files w' dst <-> f ∈ dir_files w src \/ f ∈ dir_files w dst) /\
  (w_dirs w !! src = None -> r = Val tt /\ w' = w) /\
  (forall e, r = Raise e -> e = OSError) /\
  w_files w' = w_files w /\
  (forall f, f ∈ dir_files w dst -> f ∈ dir_files w' dst) /\
  (is_Some (w_dirs w !! dst) -> is_Some (w_dirs w' !! dst)).
Proof.
  intros Hne Hrun src dst.
  assert (Hsd : src <> dst).
  { unfold src, dst. intros Heq. apply Hne. eapply path_join_inj, Heq. }
  unfold move_rep_dir in Hrun. cbn [fst snd] in Hrun. fold src dst in Hrun.
  unfold mbind at 1, get_world at 1 in Hrun.
  destruct (w_dirs w !! src) as [files|] eqn:Es.
  2:{ injection Hrun as <- <-.
      refine (conj _ (conj _ (conj _ (conj _ (conj _ (conj _ (conj _ _)))))));
        auto; try discriminate. intros _ [? [=]]. }
  assert (Hsf : dir_files w src = files) by (unfold dir_files; rewrite Es; reflexivity).
  destruct (w_dirs w !! dst) as [old|] eqn:Ed.
  - assert (Hdf : dir_files w dst = old) by (unfold dir_files; rewrite Ed; reflexivity).
    unfold mbind at 1 in Hrun.
    destruct (for_each files (replace_file E src dst) w) as [[[]|e] w1] eqn:El.
    + destruct (merge_loop E src dst files w _ w1 Hsd El)
        as (Ho & Hd1 & Hd2 & Hs & Hok & _ & Hsome & Hf & _ & _).
      cbn in Hrun. injection Hrun as <- <-. cbn [w_dirs w_files].
      assert (D' : forall p, p <> src ->
        dir_files (World (delete src (w_dirs w1)) (w_files w1) (w_out w1) (w_err w1)) p
        = dir_files w1 p).
      { intros p Hp. unfold dir_files. cbn [w_dirs].
        rewrite lookup_delete_ne by congruence. reflexivity. }
      rewrite (D' dst) by congruence.
      assert (Hall : forall f, f ∈ dir_files w1 dst <-> f ∈ dir_files w src \/ f ∈ dir_files w dst).
      { intros f. rewrite Hsf. split.
        - intros Hf'. apply Hd2 in Hf' as [?|?]; auto.
        - intros [Hf'|Hf']; [apply Hok; auto|apply Hd1; exact Hf']. }
      refine (conj _ (conj _ (conj _ (conj _ (conj _ (conj _ (conj _ _))))))).
      * intros p Hp1 Hp2. rewrite lookup_delete_ne by congruence. apply Ho; assumption.
      * intros f Hf'. right. apply Hall, Hf'.
      * intros _ _. split; [apply lookup_delete_eq|]. split; [|exact Hall].
        rewrite lookup_delete_ne by congruence. apply Hsome. eauto.
      * discriminate.
      * discriminate.
      * exact Hf.
      * intros f Hf'. apply Hall. auto.
      * intros _. rewrite lookup_delete_ne by congruence. apply Hsome. eauto.
    + destruct (merge_loop E src dst files w _ w1 Hsd El)
        as (Ho & Hd1 & Hd2 & Hs & _ & He & Hsome & Hf & _ & _).
      injection Hrun as <- <-.
      refine (conj _ (conj _ (conj _ (conj _ (conj _ (conj _ (conj _ _))))))).
      * exact Ho.
      * intros f [Hf'|Hf']; [apply Hs, Hf'|right; apply Hd1, Hf'].
      * discriminate.
      * discriminate.
      * intros e' [= <-]. eapply He. reflexivity.
      * exact Hf.
      * exact Hd1.
      * intros _. apply Hsome. rewrite Ed. eauto.
  - assert (Hdf : dir_files w dst = []) by (unfold dir_files; rewrite Ed; reflexivity).
    destruct (e_replace_ok E src dst).
    + injection Hrun as <- <-. cbn [w_dirs w_files].
      assert (Dd : dir_files (World (<[dst := files]> (delete src (w_dirs w)))
                                (w_files w) (w_out w) (w_err w)) dst = files).
      { unfold dir_files. cbn [w_dirs]. rewrite lookup_insert_eq. reflexivity. }
      rewrite Dd, Hsf, Hdf.
      refine (conj _ (conj _ (conj _ (conj _ (conj _ (conj _ (conj _ _))))))).
      * intros p Hp1 Hp2. rewrite lookup_insert_ne, lookup_delete_ne by congruence.
        reflexivity.
      * intros f [Hf'|Hf']; [auto|inversion Hf'].
      * intros _ _. split; [|split].
        -- rewrite lookup_insert_ne, lookup_delete_eq by congruence. reflexivity.
        -- rewrite lookup_insert_eq. eauto.
        -- intros f. split; [auto|]. intros [Hf'|Hf']; [exact Hf'|inversion Hf'].
      * discriminate.
      * discriminate.
      * reflexivity.
      * intros f Hf'. inversion Hf'.
      * intros _. rewrite lookup_insert_eq. eauto.
    + injection Hrun as <- <-.
      refine (conj _ (conj _ (conj _ (conj _ (conj _ (conj _ (conj _ _))))))); try discriminate; auto.
      * intros e [= <-]. reflexivity.
      * intros [? [=]].
Qed.

Lemma for_each_cons_run {A} (f : A -> M unit) x l w :
  for_each (x :: l) f w
  = match f x w with
    | (Val _, w1) => for_each l f w1
    | (Raise e, w1) => (Raise e, w1)
    end.
Proof. reflexivity. Qed.

(** Renaming never drops a file, whatever its outcome. *)
Lemma moves_keep_files E dash_dir mapping w r w' :
  Forall (fun m : string * string => m.1 <> m.2) mapping ->
  for_each mapping (move_rep_dir E dash_dir) w = (r, w') ->
  (forall f p, f ∈ dir_files w p -> exists p', f ∈ dir_files w' p') /\
  w_files w' = w_files w /\
  (forall e, r = Raise e -> e = OSError).
Proof.
  intros Hall. revert w. induction Hall as [|[rid h] ms Hm _ IH]; intros w.
  - cbn. intros [= <- <-]. split; [eauto|]. split; [reflexivity|discriminate].
  - rewrite for_each_cons_run.
    destruct (move_rep_dir E dash_dir (rid, h) w) as [[[]|e] w1] eqn:E1;
      destruct (move_rep_dir_step E dash_dir rid h w _ w1 Hm E1)
        as (Ho & Hu & _ & _ & He & Hf & _ & _).
    + intros Hrest. destruct (IH w1 Hrest) as (Hk & Hf' & He').
      split; [|split; [congruence|exact He']].
      intros f p Hp.
      destruct (decide (p = path_join dash_dir rid)) as [->|Hp1].
      { destruct (Hu f (or_introl Hp)) as [H1|H1]; eapply Hk; eauto. }
      destruct (decide (p = path_join dash_dir h)) as [->|Hp2].
      { destruct (Hu f (or_intror Hp)) as [H1|H1]; eapply Hk; eauto. }
      apply (Hk f p). unfold dir_files in *. rewrite (Ho p Hp1 Hp2). exact Hp.
    + intros [= <- <-]. split; [|split; [exact Hf|exact He]].
      intros f p Hp.
      destruct (decide (p = path_join dash_dir rid)) as [->|Hp1].
      { destruct (Hu f (or_introl Hp)) as [H1|H1]; eauto. }
      destruct (decide (p = path_join dash_dir h)) as [->|Hp2].
      { destruct (Hu f (or_intror Hp)) as [H1|H1]; eauto. }
      exists p. unfold dir_files in *. rewrite (Ho p Hp1 Hp2). exact Hp.
Qed.

(** A directory that is no source of the renames keeps its files, and
    stays absent when it is no destination either. *)
Lemma moves_frame E dash_dir mapping w w' x :
  Forall (fun m : string * string => m.1 <> m.2) mapping ->
  x ∉ mapping.*1 ->
  for_each mapping (move_rep_dir E dash_dir) w = (Val tt, w') ->
  (forall f, f ∈ dir_files w (path_join dash_dir x) ->
             f ∈ dir_files w' (path_join dash_dir x)) /\
  (is_Some (w_dirs w !! path_join dash_dir x) ->
   is_Some (w_dirs w' !! path_join dash_dir x)) /\
  (x ∉ mapping.*2 ->
   w_dirs w' !! path_join dash_dir x = w_dirs w !! path_join dash_dir x).
Proof.
  intros Hall. revert w. induction Hall as [|[rid h] ms Hm _ IH]; intros w Hx.
  - cbn. intros [= <-]. auto.
  - rewrite for_each_cons_run. rewrite fmap_cons, not_elem_of_cons in Hx.
    cbn [fst] in Hx. destruct Hx as [Hx Hxs].
    destruct (move_rep_dir E dash_dir (rid, h) w) as [[[]|e] w1] eqn:E1; [|discriminate].
    destruct (move_rep_dir_step E dash_dir rid h w _ w1 Hm E1)
      as (Ho & _ & _ & _ & _ & _ & Hd & Hsome).
    intros Hrest. destruct (IH w1 Hxs Hrest) as (K1 & K2 & K3).
    assert (Hsrc : path_join dash_dir x <> path_join dash_dir rid).
    { intros Heq. apply Hx. eapply path_join_inj, Heq. }
    destruct (decide (x = h)) as [->|Hxh].
    + split; [auto|]. split; [auto|].
      rewrite fmap_cons, not_elem_of_cons. cbn [snd]. intros [? _]. contradiction.
    + assert (Hdst : path_join dash_dir x <> path_join dash_dir h).
      { intros Heq. apply Hxh. eapply path_join_inj, Heq. }
      pose proof (Ho _ Hsrc Hdst) as Hsame.
      split; [|split].
      * intros f Hf. apply K1. unfold dir_files in *. rewrite Hsame. exact Hf.
      * intros Hs. apply K2. rewrite Hsame. exact Hs.
      * rewrite fmap_cons, not_elem_of_cons. cbn [snd]. intros [_ Hn].
        rewrite (K3 Hn). exact Hsame.
Qed.

Lemma moves_rename E dash_dir mapping w w' :
  NoDup mapping.*1 ->
  (forall rid h, rid ∈ mapping.*1 -> h ∈ mapping.*2 -> rid <> h) ->
  for_each mapping (move_rep_dir E dash_dir) w = (Val tt, w') ->
  forall rid h, (rid, h) ∈ mapping ->
    is_Some (w_dirs w !! path_join dash_dir rid) ->
    w_dirs w' !! path_join dash_dir rid = None /\
    is_Some (w_dirs w' !! path_join dash_dir h) /\
    forall f, f ∈ dir_files w (path_join dash_dir rid) ->
              f ∈ dir_files w' (path_join dash_dir h).
Proof.
  revert w. induction mapping as [|[rid0 h0] ms IH]; intros w Hnd Hdis Hrun rid h Hin Hsrc.
  - inversion Hin.
  - rewrite fmap_cons in Hnd. cbn [fst] in Hnd. apply NoDup_cons in Hnd as [Hn0 Hnd].
    assert (Hall : Forall (fun m : string * string => m.1 <> m.2) ms).
    { apply Forall_forall. intros [a b] Hab. cbn. apply Hdis.
      - rewrite fmap_cons. right. apply list_elem_of_fmap. exists (a, b). auto.
      - rewrite fmap_cons. right. apply list_elem_of_fmap. exists (a, b). auto. }
    assert (H00 : rid0 <> h0).
    { apply Hdis; rewrite fmap_cons; left. }
    rewrite for_each_cons_run in Hrun.
    destruct (move_rep_dir E dash_dir (rid0, h0) w) as [[[]|e] w1] eqn:E1; [|discriminate].
    destruct (move_rep_dir_step E dash_dir rid0 h0 w _ w1 H00 E1)
      as (Ho & _ & Hok & _ & _ & _ & _ & _).
    assert (Hh0 : h0 ∉ ms.*1).
    { intros Hc. apply (Hdis h0 h0); [rewrite fmap_cons; right; exact Hc
                                      |rewrite fmap_cons; left|reflexivity]. }
    apply elem_of_cons in Hin as [[= -> ->]|Hin].
    + destruct (Hok eq_refl Hsrc) as (Hnone & Hsome & Hfiles).
      destruct (moves_frame E dash_dir ms w1 w' rid0 Hall Hn0 Hrun) as (_ & _ & F3).
      destruct (moves_frame E dash_dir ms w1 w' h0 Hall Hh0 Hrun) as (G1 & G2 & _).
      split; [|split].
      * rewrite F3; [exact Hnone|]. intros Hc.
        apply (Hdis rid0 rid0); [rewrite fmap_cons; left
                                 |rewrite fmap_cons; right; exact Hc|reflexivity].
      * apply G2, Hsome.
      * intros f Hf. apply G1, Hfiles. auto.
    + assert (Hr : rid ∈ ms.*1) by (apply list_elem_of_fmap; exists (rid, h); auto).
      assert (Hne1 : rid <> rid0) by (intros ->; contradiction).
      assert (Hne2 : rid <> h0).
      { apply Hdis; rewrite fmap_cons; [right; exact Hr|left]. }
      assert (Hsame : w_dirs w1 !! path_join dash_dir rid = w_dirs w !! path_join dash_dir rid).
      { apply Ho; intros Heq; apply path_join_inj in Heq; contradiction. }
      destruct (IH w1 Hnd) with (rid := rid) (h := h) as (A & B & C); try assumption.
      * intros a b Ha Hb. apply Hdis; rewrite fmap_cons; right; assumption.
      * rewrite Hsame. exact Hsrc.
      * split; [exact A|]. split; [exact B|].
        intros f Hf. apply C. unfold dir_files in *. rewrite Hsame. exact Hf.
Qed.

(** ** The manifest rewrite as a whole *)

Lemma dash_rewrite_run E dash_dir mpd_path targets w doc :
  w_files w !! mpd_path = Some (CMpd doc) ->
  dash_rewrite E dash_dir mpd_path targets w
  = if e_mpd_write_ok E
    then for_each (rewrite_mpd targets doc).1 (move_rep_dir E dash_dir)
           (World (w_dirs w) (<[mpd_path := CMpd (rewrite_mpd targets doc).2]> (w_files w))
                  (w_out w) (w_err w))
    else (Raise OSError,
          match e_mpd_partial E with
          | Some text =>
              World (w_dirs w) (<[mpd_path := CText text]> (w_files w)) (w_out w) (w_err w)
          | None => w
          end).
Proof.
  intros Hf. unfold dash_rewrite, parse_mpd, mbind, get_world. rewrite Hf.
  cbn [mret]. destruct (rewrite_mpd targets doc) as [mapping doc'].
  destruct (e_mpd_write_ok E); [reflexivity|].
  destruct (e_mpd_partial E); reflexivity.
Qed.

Lemma dash_rewrite_unparsed E dash_dir mpd_path targets w :
  (forall doc, w_files w !! mpd_path <> Some (CMpd doc)) ->
  exists e, dash_rewrite E dash_dir mpd_path targets w = (Raise e, w) /\
            (e = ParseError \/ e = FileNotFoundError).
Proof.
  intros Hf. unfold dash_rewrite, parse_mpd, mbind, get_world.
  destruct (w_files w !! mpd_path) as [[t| |doc|j|p]|] eqn:Ef;
    try (eexists; split; [reflexivity|auto]).
  exfalso. eapply Hf. reflexivity.
Qed.

(** X11.  Whatever the outcome of the manifest rewrite, every file
    listed in some directory before it is listed in some directory after
    it, provided no representation's id already is its height; the only
    file written is the manifest, and the only exceptions raised are
    [OSError], [ParseError] and [FileNotFoundError]. *)
Theorem dash_rewrite_keeps_segments E dash_dir mpd_path targets w r w' :
  (forall doc, w_files w !! mpd_path = Some (CMpd doc) ->
     Forall (fun m : string * string => m.1 <> m.2) (rewrite_mpd targets doc).1) ->
  dash_rewrite E dash_dir mpd_path targets w = (r, w') ->
  (forall f p, f ∈ dir_files w p -> exists p', f ∈ dir_files w' p') /\
  (forall e, r = Raise e -> e = OSError \/ e = ParseError \/ e = FileNotFoundError) /\
  (forall p, p <> mpd_path -> w_files w' !! p = w_files w !! p).
Proof.
  intros Hm Hrun.
  destruct (w_files w !! mpd_path) as [c|] eqn:Ef.
  2:{ destruct (dash_rewrite_unparsed E dash_dir mpd_path targets w) as (e & He & Hc).
      { intros doc. rewrite Ef. discriminate. }
      rewrite He in Hrun. injection Hrun as <- <-.
      split; [eauto|]. split; [|reflexivity]. intros e' [= <-]. tauto. }
  assert (Hc : (exists doc, c = CMpd doc) \/ forall doc, c <> CMpd doc).
  { destruct c; try (right; discriminate). left. eauto. }
  destruct Hc as [[doc ->]|Hnd].
  - rewrite (dash_rewrite_run E dash_dir mpd_path targets w doc Ef) in Hrun.
    destruct (e_mpd_write_ok E).
    + destruct (moves_keep_files E dash_dir _ _ _ _ (Hm doc eq_refl) Hrun) as (Hk & Hf & He).
      split; [exact Hk|]. split.
      * intros e Hr. left. apply He, Hr.
      * intros p Hp. rewrite Hf. cbn [w_files]. apply lookup_insert_ne. congruence.
    + injection Hrun as <- <-. split; [|split].
      * intros f p Hin. exists p. destruct (e_mpd_partial E); exact Hin.
      * intros e' [= <-]. tauto.
      * intros p Hp. destruct (e_mpd_partial E); [|reflexivity].
        cbn [w_files]. apply lookup_insert_ne. congruence.
  - destruct (dash_rewrite_unparsed E dash_dir mpd_path targets w) as (e & He & Hc).
    { intros doc. rewrite Ef. intros [= ->]. eapply Hnd. reflexivity. }
    rewrite He in Hrun. injection Hrun as <- <-.
    split; [eauto|]. split; [|reflexivity]. intros e' [= <-]. tauto.
Qed.

(** X12.  A rewrite that runs to its end has put the rewritten manifest
    in place and, when the old ids are pairwise distinct and none of them
    is a new id, every existing directory of an old id is found under its
    new id, with all its files, and is gone under the old one. *)
Theorem dash_rewrite_renames E dash_dir mpd_path targets w w' doc :
  w_files w !! mpd_path = Some (CMpd doc) ->
  NoDup (rewrite_mpd targets doc).1.*1 ->
  (forall rid h, rid ∈ (rewrite_mpd targets doc).1.*1 ->
                 h ∈ (rewrite_mpd targets doc).1.*2 -> rid <> h) ->
  dash_rewrite E dash_dir mpd_path targets w = (Val tt, w') ->
  w_files w' !! mpd_path = Some (CMpd (rewrite_mpd targets doc).2) /\
  forall rid h, (rid, h) ∈ (rewrite_mpd targets doc).1 ->
    is_Some (w_dirs w !! path_join dash_dir rid) ->
    w_dirs w' !! path_join dash_dir rid = None /\
    is_Some (w_dirs w' !! path_join dash_dir h) /\
    forall f, f ∈ dir_files w (path_join dash_dir rid) ->
              f ∈ dir_files w' (path_join dash_dir h).
Proof.
  intros Hf Hnd Hdis Hrun.
  rewrite (dash_rewrite_run E dash_dir mpd_path targets w doc Hf) in Hrun.
  destruct (e_mpd_write_ok E); [|discriminate].
  assert (Hall : Forall (fun m : string * string => m.1 <> m.2) (rewrite_mpd targets doc).1).
  { apply Forall_forall. intros [a b] Hab. cbn. apply Hdis.
    - apply list_elem_of_fmap. exists (a, b). auto.
    - apply list_elem_of_fmap. exists (a, b). auto. }
  destruct (moves_keep_files E dash_dir _ _ _ _ Hall Hrun) as (_ & Hfiles & _).
  split.
  - rewrite Hfiles. cbn [w_files]. apply lookup_insert_eq.
  - intros rid h Hin Hsrc.
    apply (moves_rename E dash_dir _ _ w' Hnd Hdis Hrun rid h Hin). exact Hsrc.
Qed.

Lemma dash_rewrite_keeps_segments_witness :
  let E := sample_env "1080,720" (fun src _ => negb (String.eqb src "/d/2")) DurUnparsable in
  let ladder := [Target 1920 1080 5000000 "1080p"; Target 1280 720 2800000 "720p"] in
  (dash_rewrite E "/d" "/d/movie.mpd" ladder sample_dash_world).1 = Raise OSError /\
  exists p, "chunk_00001.m4s"
            ∈ dir_files (dash_rewrite E "/d" "/d/movie.mpd" ladder sample_dash_world).2 p.
Proof.
  intros E ladder. split; [reflexivity|].
  destruct (dash_rewrite E "/d" "/d/movie.mpd" ladder sample_dash_world) as [r w'] eqn:Hrun.
  destruct (dash_rewrite_keeps_segments E "/d" "/d/movie.mpd" ladder sample_dash_world r w')
    as (Hk & _ & _); [|exact Hrun|].
  - intros doc Hdoc. vm_compute in Hdoc. injection Hdoc as <-.
    vm_compute. repeat constructor; discriminate.
  - apply (Hk "chunk_00001.m4s" "/d/0"). vm_compute. right. left.
Defined.

Lemma dash_rewrite_renames_witness :
  let E := sample_env "1080,720" (fun _ _ => true) DurUnparsable in
  let ladder := [Target 1920 1080 5000000 "1080p"; Target 1280 720 2800000 "720p"] in
  let w' := (dash_rewrite E "/d" "/d/movie.mpd" ladder sample_dash_world).2 in
  (dash_rewrite E "/d" "/d/movie.mpd" ladder sample_dash_world).1 = Val tt /\
  w_dirs w' !! "/d/0" = None /\ is_Some (w_dirs w' !! "/d/1080") /\
  "chunk_00001.m4s" ∈ dir_files w' "/d/1080".
Proof.
  intros E ladder w'. split; [reflexivity|].
  destruct (dash_rewrite_renames E "/d" "/d/movie.mpd" ladder sample_dash_world w' sample_mpd)
    as (_ & Hmoves).
  - reflexivity.
  - apply (bool_decide_unpack _). vm_compute. exact I.
  - intros rid h Hr Hh.
    change ((rewrite_mpd ladder sample_mpd).1.*1) with ["0"; "2"] in Hr.
    change ((rewrite_mpd ladder sample_mpd).1.*2) with ["1080"; "720"] in Hh.
    rewrite ?elem_of_cons, ?elem_of_nil in Hr, Hh.
    destruct Hr as [-> |[-> |[]]]; destruct Hh as [-> |[-> |[]]]; discriminate.
  - reflexivity.
  - destruct (Hmoves "0" "1080") as (A & B & C).
    + vm_compute. left.
    + vm_compute. eauto.
    + split; [exact A|]. split; [exact B|]. apply C. vm_compute. right. left.
Defined.

(** ** Rewriting the manifest *)

Lemma or_str_nonempty o d : d <> "" -> or_str o d <> "".
Proof.
  intros Hd. unfold or_str. destruct o as [v|]; [|exact Hd].
  destruct (String.eqb_spec v ""); assumption.
Qed.

Lemma rewrite_reps_spec targets idx reps :
  length (rewrite_reps targets idx reps).2 = length reps /\
  Forall (fun m : string * string => m.1 <> "" /\ m.2 <> "")
    (rewrite_reps targets idx reps).1 /\
  (forall h, h ∈ (rewrite_reps targets idx reps).1.*2 ->
     exists rep', rep' ∈ (rewrite_reps targets idx reps).2 /\ rep_id rep' = Some h) /\
  (forall rep', rep' ∈ (rewrite_reps targets idx reps).2 ->
     rep' ∈ reps \/ exists h, rep_id rep' = Some h /\ h ∈ (rewrite_reps targets idx reps).1.*2).
Proof.
  revert idx. induction reps as [|rep reps IH]; intros idx; cbn [rewrite_reps].
  - cbn. split; [reflexivity|]. split; [constructor|].
    split; [intros h Hh; inversion Hh|intros r Hr; inversion Hr].
  - cbn zeta. specialize (IH (idx + 1)).
    destruct (rewrite_reps targets (idx + 1) reps) as [mapping out].
    cbn [fst snd] in IH. destruct IH as (L & F & S1 & S2).
    set (rid := or_str (rep_id rep) (str (idx * 2))).
    set (h := or_str (rep_height rep) _).
    assert (Hrid : rid <> "").
    { apply or_str_nonempty. destruct (str_head (idx * 2)) as (a & s & -> & _).
      discriminate. }
    destruct (String.eqb_spec rid "") as [|_]; [contradiction|].
    destruct (String.eqb_spec h "") as [Hh|Hh]; cbn [negb andb fst snd].
    + split; [cbn; congruence|]. split; [exact F|]. split.
      * intros h' Hh'. destruct (S1 h' Hh') as (r & Hr & Hid). exists r. split; [right|]; auto.
      * intros r Hr. apply elem_of_cons in Hr as [->|Hr]; [left; left|].
        destruct (S2 r Hr) as [?|?]; [left; right|right]; auto.
    + set (rep' := match _ with Some w' => _ | None => _ end).
      assert (Hid : rep_id rep' = Some h).
      { unfold rep'. destruct (t_w <$> head _) as [w'|]; [|reflexivity].
        destruct (negb (w' =? 0)); reflexivity. }
      split; [cbn; congruence|]. split; [constructor; [split; assumption|exact F]|].
      rewrite fmap_cons. cbn [snd]. split.
      * intros h' Hh'. apply elem_of_cons in Hh' as [->|Hh'].
        -- exists rep'. split; [left|exact Hid].
        -- destruct (S1 h' Hh') as (r & Hr & Hid'). exists r. split; [right|]; auto.
      * intros r Hr. apply elem_of_cons in Hr as [->|Hr].
        -- right. exists h. split; [exact Hid|left].
        -- destruct (S2 r Hr) as [?|(h' & ? & ?)]; [left; right; auto|].
           right. exists h'. split; [auto|right; auto].
Qed.

Lemma find_index_lookup {A} (p : A -> bool) l i :
  find_index p l = Some i -> exists x, l !! i = Some x /\ p x = true.
Proof.
  revert i. induction l as [|x l IH]; intros i; cbn [find_index]; [discriminate|].
  destruct (p x) eqn:Hp.
  - intros [= <-]. eauto.
  - destruct (find_index p l) as [j|]; cbn; [|discriminate].
    intros [= <-]. apply IH. reflexivity.
Qed.

(** X13.  Rewriting a manifest keeps the number and order of its
    adaptation sets, and their content type, MIME type and number of
    representations; only the chosen video set can change; every pair of
    the id mapping has a non-empty old id and new id, and every new id of
    the mapping is the id of a representation of the rewritten set; with
    an empty mapping the manifest is unchanged. *)
Theorem rewrite_mpd_structure targets doc :
  let mapping := (rewrite_mpd targets doc).1 in
  let doc' := (rewrite_mpd targets doc).2 in
  length doc' = length doc /\
  (forall i a', doc' !! i = Some a' ->
     exists a, doc !! i = Some a /\
       as_contentType a' = as_contentType a /\ as_mimeType a' = as_mimeType a /\
       length (as_reps a') = length (as_reps a) /\
       (video_as_index doc <> Some i -> a' = a)) /\
  Forall (fun m : string * string => m.1 <> "" /\ m.2 <> "") mapping /\
  (forall h, h ∈ mapping.*2 ->
     exists i a' rep', video_as_index doc = Some i /\ doc' !! i = Some a' /\
                       rep' ∈ as_reps a' /\ rep_id rep' = Some h) /\
  (mapping = [] -> doc' = doc).
Proof.
  cbn zeta. unfold rewrite_mpd, mpd in *.
  destruct (video_as_index doc) as [i|] eqn:Ei.
  2:{ cbn [fst snd]. split; [reflexivity|]. split; [eauto 10|]. split; [constructor|].
      split; [intros h Hh; inversion Hh|reflexivity]. }
  destruct (doc !! i) as [a|] eqn:Ea.
  2:{ cbn [fst snd]. split; [reflexivity|]. split; [eauto 10|]. split; [constructor|].
      split; [intros h Hh; inversion Hh|reflexivity]. }
  pose proof (rewrite_reps_spec targets 0 (as_reps a)) as (L & F & S1 & S2).
  destruct (rewrite_reps targets 0 (as_reps a)) as [mapping reps'] eqn:Er.
  cbn [fst snd] in *.
  assert (Hi : (i < length doc)%nat) by (eapply lookup_lt_Some, Ea).
  split; [apply length_insert|]. split; [|split; [exact F|split]].
  - intros j a' Hj. destruct (decide (j = i)) as [->|Hji].
    + rewrite list_lookup_insert_eq in Hj by exact Hi. injection Hj as <-.
      exists a. cbn. split; [exact Ea|]. repeat split; auto. congruence.
    + rewrite list_lookup_insert_ne in Hj by congruence. exists a'. auto.
  - intros h Hh. destruct (S1 h Hh) as (rep' & Hr & Hid).
    exists i, (AdaptationSet (as_contentType a) (as_mimeType a) reps'), rep'.
    split; [reflexivity|]. split; [apply list_lookup_insert_eq, Hi|]. auto.
  - intros ->. assert (reps' = as_reps a); [|subst; destruct a; cbn; apply list_insert_id, Ea].
    clear -Er. revert reps' Er. generalize 0. 
    induction (as_reps a) as [|rep reps IH]; intros idx reps'; cbn [rewrite_reps].
    + intros [= <-]. reflexivity.
    + cbn zeta. destruct (rewrite_reps targets (idx + 1) reps) as [m o] eqn:Em.
      destruct (_ && _); [discriminate|]. intros [= -> <-]. f_equal. eapply IH, Em.
Qed.

(** ** The lines [run] prints *)

Lemma handle_line_cases p raw :
  (startswith (strip raw) "out_time_ms=" = false /\
   handle_line (Some p) raw = [strip raw]) \/
  (startswith (strip raw) "out_time_ms=" = true /\
   (handle_line (Some p) raw = [] \/
    exists pct, handle_line (Some p) raw = [progress_line p pct] /\
                fle f0 pct = true /\ fle pct f100 = true)).
Proof.
  unfold handle_line. destruct (startswith (strip raw) "out_time_ms=") eqn:Es; [|auto].
  right. split; [reflexivity|]. unfold marker_body.
  destruct (match split_once "=" (strip raw) with [_; rest] => Val rest | _ => Raise IndexError end)
    as [field|e]; cbn [rbind try_except];
    [|left; destruct (is_Exception e); reflexivity].
  destruct (py_int field) as [out_ms|]; cbn [of_option rbind try_except is_Exception]; [|auto].
  destruct (progress_pct (total_ms p) out_ms) as [pct|e] eqn:Ep; cbn [rbind try_except].
  - right. exists pct. split; [reflexivity|]. eapply progress_pct_range, Ep.
  - left. destruct (is_Exception e); reflexivity.
Qed.

Lemma elem_of_concat {A} (x : A) (ls : list (list A)) :
  x ∈ concat ls <-> exists l, x ∈ l /\ l ∈ ls.
Proof.
  induction ls as [|l ls IH]; cbn [concat].
  - split; [intros H; inversion H|intros (l & _ & H); inversion H].
  - rewrite elem_of_app, IH. split.
    + intros [H|(l' & H1 & H2)]; [exists l; split; [auto|left]|].
      exists l'. split; [auto|right; auto].
    + intros (l' & H1 & H2). apply elem_of_cons in H2 as [->|H2]; [auto|]. right. eauto.
Qed.

(** X14.  What [run] prints while it follows the encoder: every printed line is
    either a stripped input line that is no [out_time_ms=] marker, or a
    [PROGRESS] line whose percentage lies in [0, 100]; every line that is no
    marker is printed, so at most one line is printed per input line; without
    a progress record every stripped line is echoed.  The call returns
    normally exactly for return code 0 and otherwise raises
    [RuntimeError] with the text [FFmpeg failed: <code>]; what was printed
    does not depend on the return code. *)
Theorem run_progress_lines p lines rc :
  let printed := (run_progress (Some p) lines rc).1 in
  (forall l, l ∈ printed ->
     (startswith l "out_time_ms=" = false /\ exists raw, raw ∈ lines /\ l = strip raw) \/
     (exists pct, l = progress_line p pct /\ fle f0 pct = true /\ fle pct f100 = true)) /\
  (forall raw, raw ∈ lines -> startswith (strip raw) "out_time_ms=" = false ->
     strip raw ∈ printed) /\
  (length printed <= length lines)%nat /\
  (run_progress None lines rc).1 = strip <$> lines /\
  (run_progress (Some p) lines rc).2
  = (if rc =? 0 then Val tt else Raise (RuntimeError ("FFmpeg failed: " +:+ str rc))) /\
  printed = (run_progress (Some p) lines 0).1.
Proof.
  cbn zeta. unfold run_progress. cbn [fst snd].
  split; [|split; [|split; [|split; [|split]]]].
  - intros l Hl. apply elem_of_concat in Hl as (ls & Hl & Hls).
    apply list_elem_of_fmap in Hls as (raw & -> & Hraw).
    destruct (handle_line_cases p raw) as [[Hs E]|[Hs [E|(pct & E & Hr)]]];
      rewrite E in Hl.
    + apply list_elem_of_singleton in Hl as ->. left. eauto.
    + inversion Hl.
    + apply list_elem_of_singleton in Hl as ->. right. eauto.
  - intros raw Hraw Hs. apply elem_of_concat. exists [strip raw].
    split; [left|]. apply list_elem_of_fmap. exists raw. split; [|exact Hraw].
    destruct (handle_line_cases p raw) as [[_ E]|[Hs' _]]; [auto|congruence].
  - induction lines as [|raw lines IH]; [reflexivity|].
    rewrite fmap_cons. cbn [concat]. rewrite length_app. cbn [length].
    destruct (handle_line_cases p raw) as [[_ E]|[_ [E|(pct & E & _)]]]; rewrite E;
      cbn [length]; lia.
  - induction lines as [|raw lines IH]; [reflexivity|].
    rewrite !fmap_cons. cbn [concat handle_line app]. rewrite IH. reflexivity.
  - destruct (rc =? 0); reflexivity.
  - reflexivity.
Qed.

(** ** What the HLS stage leaves on disk *)













(** ** The optional steps and the two sidecars *)






(* ================================================================== *)
(** ** The master playlist of [utils/ffmpegtools.py] read back *)
(* ================================================================== *)

Lemma split_attrs_nonempty q s : split_attrs q s <> [].
Proof.
  revert q. induction s as [|a s IH]; intros q; cbn; [discriminate|].
  destruct (Ascii.eqb a "," && negb q); [discriminate|].
  destruct (split_attrs _ s); discriminate.
Qed.

Lemma split_attrs_prefix q p s :
  no_char "," p = true -> no_char dquote_char p = true ->
  split_attrs q (p +:+ s) = (p +:+ hd "" (split_attrs q s)) :: tail (split_attrs q s).
Proof.
  intros Hc Hq. induction p as [|a p IH]; cbn [String.append].
  - pose proof (split_attrs_nonempty q s). destruct (split_attrs q s); [contradiction|].
    reflexivity.
  - cbn [no_char] in Hc, Hq.
    apply andb_true_iff in Hc as [Ha Hc]. apply negb_true_iff in Ha.
    apply andb_true_iff in Hq as [Hb Hq]. apply negb_true_iff in Hb.
    cbn [split_attrs]. rewrite Ha, Hb. cbn [andb]. rewrite (IH Hc Hq). reflexivity.
Qed.

Lemma split_attrs_sep p s :
  no_char "," p = true -> no_char dquote_char p = true ->
  split_attrs false (p +:+ String "," s) = p :: split_attrs false s.
Proof.
  intros Hc Hq. rewrite split_attrs_prefix by assumption.
  cbn [split_attrs Ascii.eqb Bool.eqb andb negb hd tail]. rewrite append_nil_r. reflexivity.
Qed.

Lemma stream_infs_quoted_tag attrs rest :
  stream_infs_quoted (("#EXT-X-STREAM-INF:" +:+ attrs) :: rest)
  = StreamInf (parse_attr <$> split_attrs false attrs) (hd "" rest)
    :: stream_infs_quoted rest.
Proof. reflexivity. Qed.

Lemma stream_infs_quoted_other l rest :
  startswith l "#EXT-X-STREAM-INF:" = false ->
  stream_infs_quoted (l :: rest) = stream_infs_quoted rest.
Proof.
  unfold startswith. intros H. cbn [stream_infs_quoted].
  destruct (strip_prefix _ l); [discriminate|reflexivity].
Qed.

Lemma tools_row_attrs audio_kbps codec_id L :
  parse_attr <$> split_attrs false
    ("BANDWIDTH=" +:+ str ((l_maxrate_k L + audio_kbps) * 1000) +:+ ",RESOLUTION="
     +:+ (str (l_width L) +:+ "x" +:+ str (l_height L))
     +:+ ",CODECS=" +:+ dquote
     +:+ (if String.eqb codec_id "h264" then "avc1.640029" else "hvc1")
     +:+ "," +:+ "mp4a.40.2" +:+ dquote)
  = si_attrs (tools_stream_inf_of audio_kbps codec_id L).
Proof.
  unfold tools_stream_inf_of. cbn [si_attrs].
  set (bw := str _).
  assert (H1 : "BANDWIDTH=" +:+ bw +:+ ",RESOLUTION="
     +:+ (str (l_width L) +:+ "x" +:+ str (l_height L))
     +:+ ",CODECS=" +:+ dquote
     +:+ (if String.eqb codec_id "h264" then "avc1.640029" else "hvc1")
     +:+ "," +:+ "mp4a.40.2" +:+ dquote
     = ("BANDWIDTH=" +:+ bw) +:+ String ","
       (("RESOLUTION=" +:+ str (l_width L) +:+ "x" +:+ str (l_height L)) +:+ String ","
        ("CODECS=" +:+ dquote
         +:+ (if String.eqb codec_id "h264" then "avc1.640029" else "hvc1")
         +:+ "," +:+ "mp4a.40.2" +:+ dquote))).
  { rewrite !append_assoc. reflexivity. }
  rewrite H1. clear H1.
  rewrite split_attrs_sep by (subst bw; no_char_tac).
  rewrite split_attrs_sep by no_char_tac.
  subst bw. rewrite !fmap_cons.
  apply (f_equal2 cons); [unfold parse_attr; split_norm; reflexivity|].
  apply (f_equal2 cons); [unfold parse_attr; split_norm; reflexivity|].
  destruct (String.eqb codec_id "h264"); reflexivity.
Qed.

Lemma tools_entries audio_kbps codec_id ladders :
  Forall (fun L => startswith (l_name L +:+ "/index.m3u8") "#EXT-X-STREAM-INF:" = false)
    ladders ->
  stream_infs_quoted
    (concat ((fun L =>
                let bw := (l_maxrate_k L + audio_kbps) * 1000 in
                let res := str (l_width L) +:+ "x" +:+ str (l_height L) in
                [ "#EXT-X-STREAM-INF:BANDWIDTH=" +:+ str bw +:+ ",RESOLUTION=" +:+ res
                    +:+ ",CODECS=" +:+ dquote
                    +:+ (if String.eqb codec_id "h264" then "avc1.640029" else "hvc1")
                    +:+ "," +:+ "mp4a.40.2" +:+ dquote;
                  l_name L +:+ "/index.m3u8" ]) <$> ladders))
  = tools_stream_inf_of audio_kbps codec_id <$> ladders.
Proof.
  intros Hall. set (f := fun L : ladder_row => (_ : list string)).
  induction Hall as [|L ladders HL _ IH]; [reflexivity|].
  rewrite !fmap_cons. cbn [concat].
  change (f L) with
    [ "#EXT-X-STREAM-INF:" +:+
        ("BANDWIDTH=" +:+ str ((l_maxrate_k L + audio_kbps) * 1000) +:+ ",RESOLUTION="
         +:+ (str (l_width L) +:+ "x" +:+ str (l_height L))
         +:+ ",CODECS=" +:+ dquote
         +:+ (if String.eqb codec_id "h264" then "avc1.640029" else "hvc1")
         +:+ "," +:+ "mp4a.40.2" +:+ dquote);
      l_name L +:+ "/index.m3u8" ].
  cbn [app]. rewrite stream_infs_quoted_tag.
  rewrite stream_infs_quoted_other by exact HL.
  rewrite IH, tools_row_attrs. reflexivity.
Qed.

(** X17.  The master playlist [write_hls_master] of [utils/ffmpegtools.py]
    writes, read back: when no name contains a line break and no line
    [<name>/index.m3u8] looks like a stream tag, the text has one
    [#EXT-X-STREAM-INF] entry per ladder row, in order, with [BANDWIDTH]
    [(maxrate_k + audio_kbps) * 1000], [RESOLUTION] [<width>x<height>], the
    quoted [CODECS] pair and the URI [<name>/index.m3u8]; it has exactly
    [1 + 2 * n] lines, so no line follows the last URI. *)
Theorem tools_master_entries outdir master_name ladders audio_kbps codec_id :
  Forall (fun L => no_char newline_char (l_name L) = true /\
                   startswith (l_name L +:+ "/index.m3u8") "#EXT-X-STREAM-INF:" = false)
    ladders ->
  let text := (tools_write_hls_master outdir master_name ladders audio_kbps codec_id).2 in
  parse_master_quoted text = tools_stream_inf_of audio_kbps codec_id <$> ladders /\
  length (split_on newline_char text) = S (2 * length ladders) /\
  forall i L, ladders !! i = Some L ->
    split_on newline_char text !! S (2 * i + 1) = Some (l_name L +:+ "/index.m3u8").
Proof.
  intros Hall text.
  assert (Hs : split_on newline_char text
               = tools_master_lines ladders audio_kbps codec_id).
  { subst text. unfold tools_write_hls_master, newline_char. cbn [snd].
    apply split_on_join; [discriminate|].
    unfold tools_master_lines. apply Forall_app. split; [repeat constructor|].
    apply Forall_concat, Forall_fmap. eapply Forall_impl; [exact Hall|].
    intros L [Hn _]. cbn zeta.
    apply Forall_cons; split.
    - destruct (String.eqb codec_id "h264"); no_char_tac.
    - apply Forall_cons; split; [|constructor].
      rewrite no_char_app. fold newline_char. rewrite Hn. reflexivity. }
  split; [|split].
  - unfold parse_master_quoted. rewrite Hs. unfold tools_master_lines. cbn [app].
    rewrite stream_infs_quoted_other by reflexivity.
    apply tools_entries. eapply Forall_impl; [exact Hall|]. intros L [_ H]. exact H.
  - rewrite Hs. unfold tools_master_lines. cbn [app length]. f_equal.
    clear. induction ladders as [|L ladders IH]; [reflexivity|].
    rewrite fmap_cons. cbn [concat app length]. rewrite IH. lia.
  - intros i L Hi. rewrite Hs. unfold tools_master_lines. cbn [app lookup list_lookup].
    clear -Hi. revert i Hi. induction ladders as [|L' ladders IH]; intros i Hi.
    + rewrite lookup_nil in Hi. discriminate.
    + rewrite fmap_cons. cbn [concat app]. destruct i as [|i].
      * cbn in Hi. injection Hi as ->. reflexivity.
      * replace (2 * S i + 1)%nat with (S (S (2 * i + 1))) by lia.
        cbn [lookup list_lookup]. apply IH. exact Hi.
Qed.

Lemma tools_master_entries_witness :
  let ladders := [LadderRow "720p" 1280 720 2800 2996 5992;
                  LadderRow "480p" 854 480 1400 1498 2996] in
  let text := (tools_write_hls_master "out" "master.m3u8" ladders 128 "h264").2 in
  parse_master_quoted text = tools_stream_inf_of 128 "h264" <$> ladders /\
  length (split_on newline_char text) = S (2 * length ladders) /\
  forall i L, ladders !! i = Some L ->
    split_on newline_char text !! S (2 * i + 1) = Some (l_name L +:+ "/index.m3u8").
Proof.
  apply (tools_master_entries "out" "master.m3u8"
           [LadderRow "720p" 1280 720 2800 2996 5992;
            LadderRow "480p" 854 480 1400 1498 2996] 128 "h264").
  repeat (apply Forall_cons; split; [split; reflexivity|]). constructor.
Defined.

(* ================================================================== *)
(** ** The per-rendition HLS command *)
(* ================================================================== *)

(** X18.  The command of [hls_per_rendition]: a non-empty key-info path adds
    the pair [-hls_key_info_file <path>] directly before [-nostats], so the
    playlist [<outdir>/<name>/index.m3u8] stays the last argument; an empty
    path changes nothing.  The function returns the rendition's name exactly
    when the encoder's return code is 0 and otherwise raises [RuntimeError];
    what is printed does not depend on the return code. *)
Theorem hls_rendition_key_info ffmpeg inp outdir vcodec acodec L gop fps ar ab_k channels
    total base lines rc :
  let args := hls_rendition_args ffmpeg inp outdir vcodec acodec L gop fps ar ab_k channels in
  let rdir := os_path_join outdir (l_name L) in
  let out := os_path_join rdir "index.m3u8" in
  exists pre,
    args None = pre ++ ["-nostats"; out] /\
    args (Some "") = args None /\
    (forall k, k <> "" ->
       args (Some k) = pre ++ ["-hls_key_info_file"; k; "-nostats"; out]) /\
    forall keyinfo,
      hls_per_rendition ffmpeg inp outdir vcodec acodec L gop fps ar ab_k channels keyinfo
        total base lines rc
      = (rdir, args keyinfo,
         (run_progress (Some (Progress total base (l_name L))) lines 0).1,
         if rc =? 0 then Val (l_name L)
         else Raise (RuntimeError ("FFmpeg failed: " +:+ str rc))).
Proof.
  cbn zeta. eexists. split; [|split; [|split]].
  - unfold hls_rendition_args.
    match goal with
    | |- ?l = _ => change l with (take 45 l ++ drop 45 l)
    end.
    cbn [take drop]. reflexivity.
  - reflexivity.
  - intros k Hk. unfold hls_rendition_args.
    destruct (String.eqb_spec k ""); [contradiction|]. reflexivity.
  - intros keyinfo. unfold hls_per_rendition, run_progress. cbn [fst].
    destruct (rc =? 0); reflexivity.
Qed.

(* ================================================================== *)
(** ** The two duration probes *)
(* ================================================================== *)

Lemma round_half_even_shift_near m k :
  m / 2 ^ k <= round_half_even_shift m k <= m / 2 ^ k + 1.
Proof.
  unfold round_half_even_shift. cbn zeta.
  destruct (2 * (m mod 2 ^ k) ?= 2 ^ k); [destruct (Z.even _)| |]; lia.
Qed.

Lemma py_round_trunc x n :
  py_trunc x = Val n -> exists m, py_round x = Val m /\ Z.abs (m - n) <= 1.
Proof.
  destruct x as [s|s| |s m e]; cbn [py_trunc py_round]; intros H; try discriminate.
  - injection H as <-. exists 0. split; [reflexivity|lia].
  - injection H as <-. eexists; split; [reflexivity|].
    destruct (0 <=? e).
    + destruct s; lia.
    + pose proof (round_half_even_shift_near (Zpos m) (- e)). destruct s; lia.
Qed.

Lemma py_trunc_raise_round x e : py_trunc x = Raise e -> py_round x = Raise e.
Proof. destruct x; cbn; congruence. Qed.

Lemma first_ffprobe_nonempty isfile which cands p :
  Forall (fun c => c <> "") cands -> first_ffprobe isfile which cands = Some p -> p <> "".
Proof.
  induction 1 as [|c cands Hc _ IH]; cbn [first_ffprobe]; [discriminate|].
  destruct (isfile c); [congruence|].
  destruct (which c) as [w|]; [|exact IH].
  destruct (String.eqb_spec w ""); [exact IH|congruence].
Qed.

Lemma os_path_join_nonempty a b : b <> "" -> os_path_join a b <> "".
Proof.
  intros Hb. unfold os_path_join. destruct (startswith b "/"); [exact Hb|].
  destruct (_ || _); destruct a; cbn; try discriminate; exact Hb.
Qed.

Lemma resolve_ffprobe_nonempty isfile which ffmpeg p :
  resolve_ffprobe isfile which ffmpeg = Some p -> p <> "".
Proof.
  unfold resolve_ffprobe. cbn zeta. apply first_ffprobe_nonempty.
  apply Forall_app. split; [|repeat constructor; discriminate].
  destruct (String.eqb _ ""); constructor; [|constructor].
  apply os_path_join_nonempty. discriminate.
Qed.

(** X19.  [probe_duration_ms] of [utils/ffmpegtools.py] never raises.  When
    it returns a number, an [ffprobe] was found and the duration [main] of
    [encode.py] computes from the same probe outcome differs from it by at
    most one millisecond (truncation against rounding); when it returns
    [None] although an [ffprobe] was found, [main] records the duration 0. *)
Theorem tools_duration_agrees isfile which ffmpeg d :
  exists r,
    tools_probe_duration_ms isfile which ffmpeg d = Val r /\
    (forall n, r = Some n ->
       is_Some (resolve_ffprobe isfile which ffmpeg) /\
       Z.abs (probe_duration_ms d - n) <= 1) /\
    (r = None ->
       resolve_ffprobe isfile which ffmpeg = None \/ probe_duration_ms d = 0).
Proof.
  unfold tools_probe_duration_ms.
  destruct (resolve_ffprobe isfile which ffmpeg) as [p|] eqn:Hr.
  2:{ exists None. split; [reflexivity|]. split; [discriminate|]. auto. }
  apply resolve_ffprobe_nonempty in Hr.
  destruct (String.eqb_spec p ""); [contradiction|].
  unfold probe_duration_ms, duration_body, ms.
  destruct d as [|c| |ts]; cbn [rbind try_except];
    try (exists None; split; [reflexivity|]; split; [discriminate|]; auto).
  destruct (py_trunc (fmul ts f1000)) as [v|e] eqn:Ht.
  - destruct (py_round_trunc _ _ Ht) as (m & Hm & Hb). rewrite Hm.
    exists (Some v). cbn [rbind try_except]. split; [reflexivity|].
    split; [|discriminate]. intros n' [= <-]. split; [eauto|exact Hb].
  - rewrite (py_trunc_raise_round _ _ Ht).
    assert (He : e = OverflowError \/ e = ValueError).
    { destruct (fmul ts f1000); cbn in Ht; try discriminate; injection Ht as <-; auto. }
    exists None. destruct He as [-> | ->]; cbn [rbind try_except];
      (split; [reflexivity|]; split; [discriminate|]; auto).
Qed.

(* ================================================================== *)
(** ** What the pump makes of the lines the job prints *)
(* ================================================================== *)

Lemma rstrip_app p s :
  rstrip (p +:+ s) = if String.eqb (rstrip s) "" then rstrip p else p +:+ rstrip s.
Proof.
  induction p as [|c p IH]; cbn [String.append].
  - destruct (String.eqb_spec (rstrip s) "") as [->|]; reflexivity.
  - cbn [rstrip]. rewrite IH.
    destruct (String.eqb_spec (rstrip s) "") as [E|E]; [reflexivity|].
    destruct (p +:+ rstrip s) eqn:Ep; [|reflexivity].
    destruct p; [|discriminate]. cbn in Ep. contradiction.
Qed.

Lemma rstrip_newline s : rstrip (s +:+ newline) = rstrip s.
Proof.
  rewrite rstrip_app. change (rstrip newline) with "". reflexivity.
Qed.

Lemma lstrip_rstrip s : lstrip (rstrip s) = rstrip (lstrip s).
Proof.
  induction s as [|c s IH]; [reflexivity|].
  cbn [rstrip lstrip]. destruct (is_space c) eqn:Ec.
  - destruct (rstrip s) as [|a r] eqn:Er.
    + rewrite <- IH. reflexivity.
    + cbn [lstrip]. rewrite Ec. exact IH.
  - change (rstrip (String c s)) with
      (match rstrip s with
       | "" => if is_space c then "" else String c ""
       | String a r => String c (String a r)
       end).
    rewrite Ec. destruct (rstrip s); cbn [lstrip]; rewrite Ec; reflexivity.
Qed.

Lemma rstrip_idem s : rstrip (rstrip s) = rstrip s.
Proof.
  induction s as [|c s IH]; [reflexivity|].
  cbn [rstrip]. destruct (rstrip s) as [|a r] eqn:Er.
  - destruct (is_space c) eqn:Ec; [reflexivity|]. cbn [rstrip]. rewrite Ec. reflexivity.
  - change (rstrip (String c (String a r))) with
      (match rstrip (String a r) with
       | "" => if is_space c then "" else String c ""
       | String a' r' => String c (String a' r')
       end).
    rewrite IH. reflexivity.
Qed.

Lemma strip_rstrip s : strip (rstrip s) = strip s.
Proof. unfold strip. rewrite lstrip_rstrip, rstrip_idem. reflexivity. Qed.

Lemma strip_prefix_app p s : strip_prefix p (p +:+ s) = Some s.
Proof.
  induction p as [|a p IH]; cbn [String.append strip_prefix]; [destruct s; reflexivity|].
  rewrite Ascii.eqb_refl. exact IH.
Qed.

Lemma mark_done_jobs history g b b' :
  g_jobs (mark_done history g b) !! b'
  = if decide (b' = b) then (fun j => Job (j_rend j) "done") <$> g_jobs g !! b
    else g_jobs g !! b'.
Proof.
  unfold mark_done. destruct (g_jobs g !! b) as [j|] eqn:Ej.
  - assert (H : g_jobs (match history b with
                        | Returns _ =>
                            Gui (<[b := Job (j_rend j) "done"]> (g_jobs g)) (g_log g)
                        | Fails msg =>
                            log_line (Gui (<[b := Job (j_rend j) "done"]> (g_jobs g))
                                        (g_log g)) "WARN"
                              ("[history] gagal tulis: " +:+ msg)
                        end) = <[b := Job (j_rend j) "done"]> (g_jobs g)).
    { destruct (history b); reflexivity. }
    cbn zeta. rewrite H. destruct (decide (b' = b)) as [->|Hn].
    + rewrite lookup_insert_eq. reflexivity.
    + rewrite lookup_insert_ne by congruence. reflexivity.
  - destruct (decide (b' = b)) as [->|Hn]; [rewrite Ej|]; reflexivity.
Qed.

(** X20.  The last line of a successful job, [JOB_DONE base=<base>], once read
    by [ProcessReader] and handled by [_pump_logs], marks the job named
    [<base>] without its surrounding white space as done: a known job keeps
    its percentages and gets the status [done], every other job is
    unchanged, an unknown name changes nothing, and no line is logged when
    the history write succeeds. *)
Theorem job_done_line_marks_job py_float history g q b :
  let g' := mark_done history g (strip b) in
  pump_logs py_float history g (process_reader q ["JOB_DONE base=" +:+ b +:+ newline])
  = Val g' /\
  (forall j, g_jobs g !! strip b = Some j ->
             g_jobs g' !! strip b = Some (Job (j_rend j) "done")) /\
  (forall b', b' <> strip b -> g_jobs g' !! b' = g_jobs g !! b') /\
  (g_jobs g !! strip b = None -> g' = g) /\
  (history (strip b) = Returns tt -> g_log g' = g_log g).
Proof.
  cbn zeta. split; [|split; [|split; [|split]]].
  - unfold process_reader. cbn [fmap list_fmap pump_logs].
    change ("JOB_DONE base=" +:+ b +:+ newline)
      with ("JOB_DONE base=" +:+ (b +:+ newline)).
    rewrite rstrip_app, rstrip_newline.
    assert (E : (if String.eqb (rstrip b) "" then rstrip "JOB_DONE base="
                 else "JOB_DONE base=" +:+ rstrip b) = "JOB_DONE base=" +:+ rstrip b).
    { destruct (String.eqb_spec (rstrip b) "") as [->|]; reflexivity. }
    rewrite E. unfold pump_line.
    change (startswith ("JOB_DONE base=" +:+ rstrip b) "PROGRESS ") with false.
    cbn match.
    assert (Hc : contains "JOB_DONE base=" ("JOB_DONE base=" +:+ rstrip b) = true).
    { change ("JOB_DONE base=" +:+ rstrip b)
        with (String "J" ("OB_DONE base=" +:+ rstrip b)).
      cbn [contains]. unfold startswith.
      change (String "J" ("OB_DONE base=" +:+ rstrip b))
        with ("JOB_DONE base=" +:+ rstrip b).
      rewrite strip_prefix_app. reflexivity. }
    rewrite Hc.
    assert (Ha : after_first "JOB_DONE base=" ("JOB_DONE base=" +:+ rstrip b)
                 = Some (rstrip b)).
    { change ("JOB_DONE base=" +:+ rstrip b)
        with (String "J" ("OB_DONE base=" +:+ rstrip b)).
      cbn [after_first].
      change (String "J" ("OB_DONE base=" +:+ rstrip b))
        with ("JOB_DONE base=" +:+ rstrip b).
      rewrite strip_prefix_app. reflexivity. }
    rewrite Ha. cbn [of_option rbind]. rewrite strip_rstrip. reflexivity.
  - intros j Hj. rewrite mark_done_jobs, Hj. rewrite decide_True by reflexivity.
    reflexivity.
  - intros b' Hb. rewrite mark_done_jobs. rewrite decide_False by exact Hb. reflexivity.
  - intros Hn. unfold mark_done. rewrite Hn. reflexivity.
  - intros Hh. unfold mark_done. destruct (g_jobs g !! strip b); [|reflexivity].
    rewrite Hh. reflexivity.
Qed.

Lemma ws_tokens_no_space t s :
  all_chars (fun c => negb (is_space c)) t = true ->
  ws_tokens (t +:+ s) = ((t +:+ (ws_tokens s).1), (ws_tokens s).2).
Proof.
  induction t as [|c t IH]; cbn [String.append all_chars]; intros H.
  - destruct (ws_tokens s); reflexivity.
  - apply andb_true_iff in H as [Hc Ht]. apply negb_true_iff in Hc.
    cbn [ws_tokens]. rewrite (IH Ht), Hc. reflexivity.
Qed.

Lemma ws_tokens_space_token t s :
  all_chars (fun c => negb (is_space c)) t = true -> t <> "" ->
  ws_tokens (String " " (t +:+ s))
  = ("", (t +:+ (ws_tokens s).1) :: (ws_tokens s).2).
Proof.
  intros Ht Hne. cbn [ws_tokens]. rewrite (ws_tokens_no_space t s Ht).
  change (is_space " ") with true. cbn match.
  destruct (String.eqb_spec (t +:+ (ws_tokens s).1) "") as [E|E]; [|reflexivity].
  destruct t; [contradiction|discriminate E].
Qed.

Lemma no_space_two_digits n :
  all_chars (fun c => negb (is_space c)) (two_digits n) = true.
Proof.
  unfold two_digits. destruct (n <? 10); [|apply no_space_str].
  change ("0" +:+ str n) with (String "0" (str n)). cbn [all_chars].
  rewrite no_space_str. reflexivity.
Qed.

Lemma no_space_format_2f x :
  all_chars (fun c => negb (is_space c)) (format_2f x) = true.
Proof.
  destruct x as [s|s| |s m e]; cbn [format_2f]; try (destruct s; reflexivity); [reflexivity|].
  cbn zeta. rewrite !all_chars_app, no_space_str, no_space_two_digits.
  destruct s; reflexivity.
Qed.

Lemma format_2f_nonempty x : format_2f x <> "".
Proof.
  destruct x as [s|s| |s m e]; cbn [format_2f]; try (destruct s; discriminate);
    [discriminate|].
  cbn zeta. intros H.
  apply (f_equal String.length) in H. rewrite !length_append in H. cbn in H. lia.
Qed.

(** X21.  A [PROGRESS] line printed by [run] of [utils/ffmpegtools.py] is read
    back by [_pump_logs]: when neither the base name nor the label contains
    white space and [float] accepts the percentage text, the job of that
    base name gets this percentage under the label; nothing changes when the
    job is unknown or the label is empty. *)
Theorem progress_line_read_back py_float history g q p pct v :
  all_chars (fun c => negb (is_space c)) (p_base p) = true ->
  all_chars (fun c => negb (is_space c)) (p_label p) = true ->
  py_float (format_2f pct) = Val v ->
  pump_line py_float history g (q, rstrip (progress_line p pct +:+ newline))
  = Val (match g_jobs g !! p_base p with
         | Some j =>
             if String.eqb (p_label p) "" then g
             else Gui (<[p_base p := Job (<[p_label p := v]> (j_rend j)) (j_status j)]>
                         (g_jobs g))
                      (g_log g)
         | None => g
         end).
Proof.
  intros Hb Hl Hf.
  pose proof (no_space_format_2f pct) as Hp.
  pose proof (format_2f_nonempty pct) as Hne.
  set (b := p_base p) in *. set (r := p_label p) in *. set (f := format_2f pct) in *.
  assert (Hline : progress_line p pct
                  = "PROGRESS" +:+ String " " (("base=" +:+ b) +:+ String " "
                      (("rend=" +:+ r) +:+ String " " (("pct=" +:+ f) +:+ "")))).
  { unfold progress_line. fold b r f. rewrite append_nil_r, !append_assoc. reflexivity. }
  assert (Hr : rstrip (progress_line p pct) = progress_line p pct).
  { unfold progress_line. fold b r f.
    replace ("PROGRESS base=" +:+ b +:+ " rend=" +:+ r +:+ " pct=" +:+ f)
      with (("PROGRESS base=" +:+ b +:+ " rend=" +:+ r +:+ " pct=") +:+ f)
      by (rewrite !append_assoc; reflexivity).
    rewrite rstrip_app, (rstrip_no_space f Hp).
    destruct (String.eqb_spec f ""); [contradiction|reflexivity]. }
  rewrite rstrip_newline, Hr.
  unfold pump_line.
  assert (Hs : startswith (progress_line p pct) "PROGRESS " = true).
  { rewrite Hline. reflexivity. }
  rewrite Hs.
  assert (Ht : py_split (progress_line p pct)
               = ["PROGRESS"; "base=" +:+ b; "rend=" +:+ r; "pct=" +:+ f]).
  { rewrite Hline. unfold py_split.
    rewrite (ws_tokens_no_space "PROGRESS") by reflexivity.
    rewrite (ws_tokens_space_token ("base=" +:+ b))
      by first [rewrite ?all_chars_app, ?Hb; reflexivity|discriminate].
    rewrite (ws_tokens_space_token ("rend=" +:+ r))
      by first [rewrite ?all_chars_app, ?Hl; reflexivity|discriminate].
    rewrite (ws_tokens_space_token ("pct=" +:+ f))
      by first [rewrite ?all_chars_app, ?Hp; reflexivity|discriminate].
    cbn [ws_tokens fst snd]. rewrite !append_nil_r. reflexivity. }
  unfold progress_body. rewrite Ht. cbn [drop kv_pairs].
  change (no_char "=" ("base=" +:+ b)) with false.
  change (no_char "=" ("rend=" +:+ r)) with false.
  change (no_char "=" ("pct=" +:+ f)) with false. cbn match.
  change ("base=" +:+ b) with ("base" +:+ String "=" b).
  change ("rend=" +:+ r) with ("rend" +:+ String "=" r).
  change ("pct=" +:+ f) with ("pct" +:+ String "=" f).
  rewrite !split_once_sep by reflexivity. cbn [rbind].
  set (m := <["pct" := f]> (<["rend" := r]> (<["base" := b]> ∅)) : gmap string string).
  assert (M1 : m !! "pct" = Some f) by apply lookup_insert_eq.
  assert (M2 : m !! "rend" = Some r).
  { subst m. rewrite lookup_insert_ne by discriminate. apply lookup_insert_eq. }
  assert (M3 : m !! "base" = Some b).
  { subst m. do 2 (rewrite lookup_insert_ne by discriminate). apply lookup_insert_eq. }
  rewrite M1, M2, M3.
  cbn [default id]. rewrite Hf. cbn [rbind].
  destruct (g_jobs g !! b) as [j|]; [|reflexivity].
  destruct (String.eqb r ""); reflexivity.
Qed.

Lemma progress_line_read_back_witness :
  let py_float := fun s : string => if String.eqb s "50.00" then Val (S754_finite false 25 1)
                                    else Raise ValueError in
  let g := Gui {[ "movie" := Job ∅ "running" ]} [] in
  pump_line py_float (fun _ => Returns tt) g
    ("movie", rstrip (progress_line (Progress (Some 1000) "movie" "720p")
                        (S754_finite false 25 1) +:+ newline))
  = Val (Gui {[ "movie" := Job {[ "720p" := S754_finite false 25 1 ]} "running" ]} []).
Proof.
  cbn zeta.
  rewrite (progress_line_read_back _ _ _ _ _ _ (S754_finite false 25 1))
    by reflexivity.
  cbn [p_base p_label g_jobs g_log]. rewrite lookup_singleton_eq. cbn [String.eqb].
  rewrite insert_singleton_eq. reflexivity.
Defined.

Lemma after_first_contains sep s :
  contains sep s = true -> is_Some (after_first sep s).
Proof.
  induction s as [|c s IH]; cbn [contains after_first]; unfold startswith;
    destruct (strip_prefix sep _); eauto; cbn [orb]; first [discriminate|exact IH].
Qed.

Lemma kv_pairs_catchable tokens m e :
  kv_pairs tokens m = Raise e -> is_Exception e = true.
Proof.
  revert m. induction tokens as [|kv rest IH]; intros m; cbn [kv_pairs]; [discriminate|].
  destruct (no_char "=" kv); [apply IH|].
  destruct (split_once "=" kv) as [|k [|v [|? ?]]]; try (intros [= <-]; reflexivity).
  apply IH.
Qed.

Lemma pump_step_refl g : pump_step g g.
Proof.
  unfold pump_step. split; [tauto|]. split; [intros b j j' H1 H2; left; congruence|].
  split; [reflexivity|lia].
Qed.

Lemma pump_step_mark_done history g b : pump_step g (mark_done history g b).
Proof.
  unfold pump_step. split; [|split; [|split]].
  - intros b'. rewrite mark_done_jobs. destruct (decide (b' = b)) as [->|]; [|tauto].
    rewrite fmap_is_Some. tauto.
  - intros b' j j' H1. rewrite mark_done_jobs.
    destruct (decide (b' = b)) as [->|]; [|left; congruence].
    rewrite H1. intros [= <-]. right. reflexivity.
  - unfold mark_done. destruct (g_jobs g !! b); [|reflexivity].
    destruct (history b); cbn; [reflexivity|]. apply prefix_app_r. reflexivity.
  - unfold mark_done. destruct (g_jobs g !! b); [|lia].
    destruct (history b); cbn; [lia|]. rewrite length_app. cbn. lia.
Qed.

Lemma pump_step_progress py_float g base line g' :
  progress_body py_float g base line = Val g' -> pump_step g g'.
Proof.
  unfold progress_body.
  destruct (kv_pairs _ _) as [parts|]; [|discriminate]. cbn [rbind].
  destruct (py_float _) as [pct|]; [|discriminate]. cbn [rbind].
  set (b := default base (parts !! "base")).
  destruct (g_jobs g !! b) as [j|] eqn:Ej; [|intros [= <-]; apply pump_step_refl].
  destruct (parts !! "rend") as [r|]; [|intros [= <-]; apply pump_step_refl].
  destruct (String.eqb r ""); intros [= <-]; [apply pump_step_refl|].
  unfold pump_step. cbn [g_jobs g_log]. split; [|split; [|split]].
  - intros b'. destruct (decide (b' = b)) as [->|Hn].
    + rewrite lookup_insert_eq, Ej. split; eauto.
    + rewrite lookup_insert_ne by congruence. tauto.
  - intros b' j0 j' H1. destruct (decide (b' = b)) as [->|Hn].
    + rewrite lookup_insert_eq. intros [= <-]. left. cbn. congruence.
    + rewrite lookup_insert_ne by congruence. left. congruence.
  - reflexivity.
  - lia.
Qed.

Lemma pump_line_step py_float history g entry :
  (forall s e, py_float s = Raise e -> is_Exception e = true) ->
  exists g', pump_line py_float history g entry = Val g' /\ pump_step g g'.
Proof.
  intros Hf. destruct entry as [base line]. unfold pump_line.
  destruct (startswith line "PROGRESS ").
  - destruct (progress_body py_float g base line) as [g'|e] eqn:Eb.
    + exists g'. split; [reflexivity|]. eapply pump_step_progress, Eb.
    + exists g. split; [|apply pump_step_refl].
      assert (He : is_Exception e = true).
      { unfold progress_body in Eb.
        destruct (kv_pairs _ _) as [parts|e'] eqn:Ek.
        - cbn [rbind] in Eb. destruct (py_float _) as [pct|e'] eqn:Ep.
          + cbn [rbind] in Eb. repeat case_match; discriminate.
          + injection Eb as <-. eapply Hf, Ep.
        - injection Eb as <-. eapply kv_pairs_catchable, Ek. }
      cbn [try_except]. rewrite He. reflexivity.
  - destruct (contains "JOB_DONE base=" line) eqn:Ec.
    + destruct (after_first_contains _ _ Ec) as [rest ->]. cbn [of_option rbind].
      eexists. split; [reflexivity|]. apply pump_step_mark_done.
    + destruct (_ || _).
      * exists g. split; [reflexivity|apply pump_step_refl].
      * eexists. split; [reflexivity|]. unfold pump_step, log_line. cbn [g_jobs g_log].
        split; [tauto|]. split; [intros; left; congruence|].
        split; [apply prefix_app_r; reflexivity|]. rewrite length_app. cbn. lia.
Qed.

(** X22.  [_pump_logs] only updates: when [float] raises nothing but ordinary
    exceptions, the loop ends normally on any queue, the set of jobs stays as
    it was, a status stays as it was or becomes [done], the log keeps what
    it held, and at most one line is logged per entry. *)
Theorem pump_logs_keeps_jobs py_float history g entries :
  (forall s e, py_float s = Raise e -> is_Exception e = true) ->
  exists g',
    pump_logs py_float history g entries = Val g' /\
    (forall b, is_Some (g_jobs g' !! b) <-> is_Some (g_jobs g !! b)) /\
    (forall b j j', g_jobs g !! b = Some j -> g_jobs g' !! b = Some j' ->
       j_status j' = j_status j \/ j_status j' = "done") /\
    g_log g `prefix_of` g_log g' /\
    (length (g_log g') <= length (g_log g) + length entries)%nat.
Proof.
  intros Hf. revert g. induction entries as [|e entries IH]; intros g.
  - exists g. split; [reflexivity|]. destruct (pump_step_refl g) as (H1 & H2 & H3 & _).
    repeat split; try apply H1; auto. cbn. lia.
  - destruct (pump_line_step py_float history g e Hf) as (g1 & R1 & S1 & S2 & S3 & S4).
    destruct (IH g1) as (g' & R & T1 & T2 & T3 & T4).
    exists g'. cbn [pump_logs]. rewrite R1. cbn [rbind]. split; [exact R|].
    split; [|split; [|split]].
    + intros b. rewrite T1. apply S1.
    + intros b j j' Hj Hj'.
      assert (Hs : is_Some (g_jobs g1 !! b)) by (apply S1; eauto).
      destruct Hs as [j1 Hj1].
      destruct (T2 b j1 j' Hj1 Hj') as [E|E]; [|right; exact E].
      rewrite E. eapply S2; eassumption.
    + etransitivity; eassumption.
    + cbn [length]. lia.
Qed.

Lemma pump_logs_keeps_jobs_witness :
  exists g',
    pump_logs (fun _ => Raise ValueError) (fun _ => Returns tt)
      (Gui {[ "movie" := Job ∅ "running" ]} [])
      (process_reader "movie" ["[hls] start" +:+ newline; "JOB_DONE base=movie" +:+ newline])
    = Val g' /\
    g_jobs g' !! "movie" = Some (Job ∅ "done") /\
    g_log g' = [("INFO", "[hls] start")].
Proof.
  destruct (pump_logs_keeps_jobs (fun _ => Raise ValueError) (fun _ => Returns tt)
              (Gui {[ "movie" := Job ∅ "running" ]} [])
              (process_reader "movie"
                 ["[hls] start" +:+ newline; "JOB_DONE base=movie" +:+ newline]))
    as (g' & R & _).
  - intros s e [= <-]. reflexivity.
  - exists g'. split; [exact R|].
    assert (E : Val g' = Val (Gui {[ "movie" := Job ∅ "done" ]} [("INFO", "[hls] start")])).
    { rewrite <- R. vm_compute. reflexivity. }
    injection E as ->. split; reflexivity.
Defined.

(* ================================================================== *)
(** ** Embedded subtitles never replace a file *)
(* ================================================================== *)

Lemma append_inv_tail s s' u : s +:+ u = s' +:+ u -> s = s'.
Proof.
  revert s'. induction s as [|a s IH]; intros [|b s'] H; cbn in H.
  - reflexivity.
  - apply (f_equal String.length) in H. cbn in H. rewrite length_append in H. lia.
  - apply (f_equal String.length) in H. cbn in H. rewrite length_append in H. lia.
  - injection H as -> H. f_equal. apply IH, H.
Qed.

Lemma os_path_join_inj a n1 n2 :
  startswith n1 "/" = startswith n2 "/" ->
  os_path_join a n1 = os_path_join a n2 -> n1 = n2.
Proof.
  unfold os_path_join. intros <-. destruct (startswith n1 "/"); [auto|].
  destruct (_ || _); intros H.
  - apply String.app_inj in H. exact H.
  - apply String.app_inj in H. cbn in H. congruence.
Qed.

Lemma counted_name_inj outdir basename lang k1 k2 :
  os_path_join outdir (counted_name basename lang k1)
  = os_path_join outdir (counted_name basename lang k2) -> k1 = k2.
Proof.
  intros H. apply os_path_join_inj in H.
  - unfold counted_name in H. do 4 apply String.app_inj in H.
    apply append_inv_tail in H. apply str_inj, H.
  - unfold counted_name, startswith. destruct basename as [|a b]; [reflexivity|].
    cbn [String.append strip_prefix]. destruct (Ascii.eqb _ a); reflexivity.
Qed.

Lemma free_counter_free files outdir basename lang fuel k k' :
  free_counter files outdir basename lang fuel k = Some k' ->
  files !! os_path_join outdir (counted_name basename lang k') = None.
Proof.
  revert k. induction fuel as [|fuel IH]; intros k; cbn [free_counter]; [discriminate|].
  case_bool_decide as Hk; [apply IH|].
  intros [= <-]. destruct (files !! _) eqn:E; [|reflexivity].
  exfalso. apply Hk. eauto.
Qed.

Lemma free_counter_exhausted files outdir basename lang fuel k :
  free_counter files outdir basename lang fuel k = None ->
  forall i, (i < fuel)%nat ->
    is_Some (files !! os_path_join outdir (counted_name basename lang (k + Z.of_nat i))).
Proof.
  revert k. induction fuel as [|fuel IH]; intros k; cbn [free_counter]; [lia|].
  case_bool_decide as Hk; [|discriminate].
  intros Hn [|i] Hi.
  - replace (k + Z.of_nat 0) with k by lia. exact Hk.
  - replace (k + Z.of_nat (S i)) with (k + 1 + Z.of_nat i) by lia.
    apply IH; [exact Hn|lia].
Qed.

Lemma free_counter_found (files : gmap string sub_content) outdir basename lang k :
  is_Some (free_counter files outdir basename lang (S (size files)) k).
Proof.
  destruct (free_counter _ _ _ _ _ k) as [k'|] eqn:E; [eauto|exfalso].
  pose proof (free_counter_exhausted _ _ _ _ _ _ E) as Hall.
  set (path := fun i : nat =>
                 os_path_join outdir (counted_name basename lang (k + Z.of_nat i))).
  set (l := path <$> seq 0 (S (size files))).
  assert (Hnd : NoDup l).
  { subst l. apply NoDup_fmap_2_strong; [|apply NoDup_seq].
    intros i j _ _ Hij. apply counted_name_inj in Hij. lia. }
  assert (Hsub : l ⊆+ (map_to_list files).*1).
  { apply NoDup_submseteq; [exact Hnd|].
    intros x Hx. subst l. apply list_elem_of_fmap in Hx as (i & -> & Hi).
    apply elem_of_seq in Hi. destruct (Hall i ltac:(lia)) as [c Hc].
    apply list_elem_of_fmap. exists (path i, c). split; [reflexivity|].
    apply elem_of_map_to_list, Hc. }
  apply submseteq_length in Hsub.
  subst l. rewrite !length_fmap, length_seq in Hsub.
  pose proof (length_map_to_list files) as Hlen.
  rewrite Hlen in Hsub. lia.
Qed.

Lemma pick_name_free (files : gmap string sub_content) outdir basename lang :
  exists n, pick_name files outdir basename lang = Some n /\
            files !! os_path_join outdir n = None.
Proof.
  unfold pick_name. cbn zeta. case_bool_decide as Hk.
  - destruct (free_counter_found files outdir basename lang 2) as [k Ek].
    rewrite Ek. cbn. eexists. split; [reflexivity|]. eapply free_counter_free, Ek.
  - eexists. split; [reflexivity|]. destruct (files !! _) eqn:E; [|reflexivity].
    exfalso. apply Hk. eauto.
Qed.

Lemma extract_loop_inv env outdir basename subs files0 files written :
  extract_inv outdir files0 files written ->
  exists r files',
    extract_loop env outdir basename subs files written = Some (r, files') /\
    (forall p c, files0 !! p = Some c -> files' !! p = Some c) /\
    (forall w', r = Val w' ->
       extract_inv outdir files0 files' w' /\
       (length w' = length written
                    + length (filter (fun s => lower (ss_codec s.2) ∈ TEXT_CODECS) subs))%nat).
Proof.
  unfold extract_inv in *. revert files written.
  induction subs as [|[idx s] rest IH]; intros files written Hinv; cbn [extract_loop].
  - exists (Val written), files. split; [reflexivity|].
    split; [apply Hinv|]. intros w' [= <-]. split; [exact Hinv|]. cbn. lia.
  - rewrite filter_cons. cbn [snd]. cbn zeta.
    case_bool_decide as Hc; [|rewrite decide_False by exact Hc; apply IH, Hinv].
    rewrite decide_True by exact Hc.
    set (lang := strip (or_str (ss_language s) "und")).
    set (label := strip (or_str (ss_title s) _)).
    destruct (pick_name_free files outdir basename lang) as (n & -> & Hfree).
    cbn [mbind option_bind].
    destruct Hinv as (Hsub & Hnd & Hw).
    destruct (se_run env idx) as [|code partial|].
    + destruct (IH (<[os_path_join outdir n := SubVtt idx]> files)
                  (written ++ [SubEntry lang label n])) as (r & files' & R & K & W).
      { split; [|split].
        - intros p c Hp. rewrite lookup_insert_ne; [apply Hsub, Hp|].
          intros <-. rewrite (Hsub _ _ Hp) in Hfree. discriminate.
        - rewrite fmap_app. apply NoDup_app. split; [exact Hnd|].
          split; [|apply NoDup_singleton].
          intros x Hx Hx'. apply list_elem_of_singleton in Hx'. subst x.
          apply list_elem_of_fmap in Hx as (e & He & Hin).
          destruct (Hw e Hin) as (_ & i & Hi). cbn [sb_vtt] in He. rewrite <- He in Hi.
          rewrite Hi in Hfree. discriminate.
        - intros e He. apply elem_of_app in He as [He|He].
          + destruct (Hw e He) as (H0 & i & Hi). split; [exact H0|]. exists i.
            rewrite lookup_insert_ne; [exact Hi|]. intros Heq. rewrite <- Heq in Hi.
            rewrite Hi in Hfree. discriminate.
          + apply list_elem_of_singleton in He. subst e. cbn [sb_vtt]. split.
            * destruct (files0 !! os_path_join outdir n) as [c|] eqn:E0; [|reflexivity].
              rewrite (Hsub _ _ E0) in Hfree. discriminate.
            * exists idx. apply lookup_insert_eq. }
      exists r, files'. split; [exact R|]. split; [exact K|].
      intros w' Hr. destruct (W w' Hr) as [W1 W2]. split; [exact W1|].
      rewrite W2, length_app. cbn [length]. lia.
    + eexists _, _. split; [reflexivity|]. split; [|discriminate].
      intros p c Hp. destruct partial; [|apply Hsub, Hp]. cbv iota.
      rewrite lookup_insert_ne; [apply Hsub, Hp|].
      intros <-. rewrite (Hsub _ _ Hp) in Hfree. discriminate.
    + eexists _, _. split; [reflexivity|]. split; [exact Hsub|discriminate].
Qed.

Lemma text_streams_enumerate (l : list sub_stream) i :
  length (filter (fun s : nat * sub_stream => lower (ss_codec s.2) ∈ TEXT_CODECS)
            (enumerate_nat i l))
  = length (filter (fun s => lower (ss_codec s) ∈ TEXT_CODECS) l).
Proof.
  revert i. induction l as [|x l IH]; intros i; [reflexivity|].
  cbn [enumerate_nat]. rewrite !filter_cons. cbn [snd].
  destruct (decide (lower (ss_codec x) ∈ TEXT_CODECS)); cbn [length]; rewrite IH;
    reflexivity.
Qed.

(** X23.  [extract_embedded_subs_to_vtt] always comes to an end, and it never
    replaces a file: whatever it returns or raises, every file that was in
    the output directory is still there with its content, except possibly
    the compatibility copy [<basename>.vtt], which is only touched when
    exactly one track was written.  When it returns, the file names in the
    list are pairwise distinct, each names a file that did not exist before
    and now holds an extracted track, and there is one entry per stream
    with a text codec. *)
Theorem extract_never_replaces env outdir basename (files : gmap string sub_content) :
  let compat := os_path_join outdir (basename +:+ ".vtt") in
  exists r files',
    extract_embedded_subs_to_vtt env outdir basename files = Some (r, files') /\
    (forall p c, files !! p = Some c -> p <> compat -> files' !! p = Some c) /\
    (forall e, r = Raise e -> forall p c, files !! p = Some c -> files' !! p = Some c) /\
    (forall written, r = Val written ->
       NoDup (sb_vtt <$> written) /\
       (forall e, e ∈ written ->
          files !! os_path_join outdir (sb_vtt e) = None /\
          exists idx, files' !! os_path_join outdir (sb_vtt e) = Some (SubVtt idx)) /\
       (forall subs, se_streams env = Val subs ->
          length written
          = length (filter (fun s => lower (ss_codec s) ∈ TEXT_CODECS) subs)) /\
       (length written <> 1%nat ->
          forall p c, files !! p = Some c -> files' !! p = Some c)).
Proof.
  intros compat. unfold extract_embedded_subs_to_vtt.
  destruct (se_streams env) as [subs|e0] eqn:Es.
  2:{ exists (Raise e0), files. split; [reflexivity|].
      split; [auto|]. split; [auto|discriminate]. }
  destruct (extract_loop_inv env outdir basename (enumerate_nat 0 subs) files files [])
    as (r & files1 & R & K & W).
  { split; [auto|]. split; [constructor|]. intros e He. inversion He. }
  rewrite R. destruct r as [written|e].
  2:{ exists (Raise e), files1. split; [reflexivity|].
      split; [auto|]. split; [auto|discriminate]. }
  destruct (W written eq_refl) as [(Hsub & Hnd & Hw) Hlen].
  exists (Val written), (compat_copy env outdir basename written files1).
  split; [reflexivity|].
  assert (Hother : forall p, p <> compat ->
            compat_copy env outdir basename written files1 !! p = files1 !! p).
  { intros p Hp. unfold compat_copy. destruct written as [|e [|? ?]]; try reflexivity.
    fold compat. destruct (String.eqb _ _); [reflexivity|].
    destruct (se_copy env) as [|[c|]]; try reflexivity.
    - destruct (files1 !! _); [|reflexivity]. apply lookup_insert_ne. congruence.
    - apply lookup_insert_ne. congruence. }
  split; [|split; [discriminate|]].
  { intros p c Hp Hne. rewrite (Hother p Hne). apply Hsub, Hp. }
  intros w' [= <-]. split; [exact Hnd|]. split; [|split].
  - intros e He. destruct (Hw e He) as (H0 & idx & Hi). split; [exact H0|].
    exists idx. unfold compat_copy.
    destruct written as [|e1 [|? ?]]; try exact Hi.
    apply list_elem_of_singleton in He. subst e1. fold compat.
    destruct (String.eqb_spec (se_abspath env (os_path_join outdir (sb_vtt e)))
                              (se_abspath env compat)) as [_|Hab]; [exact Hi|].
    assert (Hne : compat <> os_path_join outdir (sb_vtt e)) by congruence.
    destruct (se_copy env) as [|[c|]]; try exact Hi.
    + rewrite Hi. rewrite lookup_insert_ne by exact Hne. exact Hi.
    + rewrite lookup_insert_ne by exact Hne. exact Hi.
  - intros subs' Hs. injection Hs as <-. rewrite Hlen. cbn [length Nat.add].
    apply text_streams_enumerate.
  - intros Hl p c Hp. unfold compat_copy.
    destruct written as [|e1 [|? ?]]; try (apply Hsub, Hp). contradiction.
Qed.

Example extract_duplicate_language :
  let s := SubStream (Some 2) "SubRip" (Some "eng") None in
  let env := SubEnv (Val [s; SubStream (Some 3) "hdmv_pgs_subtitle" None None; s])
                    (fun _ => RunOk) (fun p => p) Copied in
  fst <$> extract_embedded_subs_to_vtt env "out" "movie" ∅
  = Some (Val [SubEntry "eng" "eng" "movie.eng.vtt"; SubEntry "eng" "eng" "movie.eng.2.vtt"]).
Proof. vm_compute. reflexivity. Qed.

(* ================================================================== *)
(** ** The encoder commands *)
(* ================================================================== *)

Lemma ladder_bitrate rs mode sw sh ladder t :
  build_targets rs mode sw sh = Val ladder -> t ∈ ladder ->
  t_br t ∈ [12000000; 8000000; 5000000; 2800000; 1400000].
Proof.
  intros Hb Ht. destruct (build_targets_val _ _ _ _ _ Hb) as (l & -> & He & _).
  rewrite sort_desc_perm in Ht.
  destruct (entries_of_elem _ _ _ He Ht) as (r & W & _ & Hd & _).
  apply RES_MAP_cases in Hd.
  destruct Hd as [E|[E|[E|[E|E]]]]; injection E as _ ->; repeat constructor.
Qed.

Lemma maxrate_exact br :
  br ∈ [12000000; 8000000; 5000000; 2800000; 1400000] ->
  (x <- py_mul_int_float br f107 ;; py_trunc x) = Val (107 * br / 100) /\
  100 * (107 * br / 100) = 107 * br.
Proof.
  intros H. repeat (apply elem_of_cons in H as [->|H]; [split; vm_compute; reflexivity|]).
  inversion H.
Qed.

Lemma label_bracket s : "[" +:+ ("v" +:+ s +:+ "o") +:+ "]" = "[v" +:+ s +:+ "o]".
Proof. rewrite !append_assoc. reflexivity. Qed.

Lemma hls_fold vcodec dar_str hls_dir encrypt targets pre suf cmd :
  targets = pre ++ suf ->
  Forall (fun t => t_br t ∈ [12000000; 8000000; 5000000; 2800000; 1400000]) suf ->
  fold_result (hls_rung vcodec dar_str hls_dir encrypt targets) cmd
    (enumerate_from (Z.of_nat (length pre))
       ((fun it : Z * target => "v" +:+ str it.1 +:+ "o")
          <$> enumerate_from (Z.of_nat (length pre)) suf))
  = Val (cmd ++ concat ((fun it : Z * target =>
                           hls_rung_args vcodec dar_str hls_dir encrypt it.1 it.2)
                          <$> enumerate_from (Z.of_nat (length pre)) suf)).
Proof.
  intros Ht Hall. revert pre cmd Ht.
  induction Hall as [|t suf Hbr _ IH]; intros pre cmd Ht.
  - cbn. rewrite app_nil_r. reflexivity.
  - cbn [enumerate_from fmap list_fmap fold_result fst snd concat].
    unfold hls_rung at 1. rewrite Nat2Z.id, Ht, list_lookup_middle by reflexivity.
    cbn [of_option rbind]. unfold add_stream_opts_one.
    destruct (maxrate_exact _ Hbr) as [Hm _].
    destruct (py_mul_int_float (t_br t) f107) as [x|]; [|discriminate Hm].
    cbn [rbind] in Hm |- *. rewrite Hm. cbn [rbind].
    specialize (IH (pre ++ [t])).
    rewrite length_app, Nat2Z.inj_add in IH. cbn [length] in IH.
    change (Z.of_nat 1) with 1 in IH.
    rewrite <- Ht. rewrite IH by (rewrite <- app_assoc; exact Ht).
    f_equal. rewrite app_assoc. f_equal.
    unfold hls_rung_args. cbn zeta. cbn [fst snd].
    replace (107 * t_br t / 100 * 2) with (2 * (107 * t_br t / 100)) by lia.
    rewrite label_bracket.
    destruct encrypt; rewrite <- ?app_assoc; cbn [app]; reflexivity.
Qed.

Lemma dash_fold vcodec dar_str targets pre suf cmd :
  targets = pre ++ suf ->
  Forall (fun t => t_br t ∈ [12000000; 8000000; 5000000; 2800000; 1400000]) suf ->
  fold_result (dash_rung vcodec dar_str targets) cmd
    (enumerate_from (Z.of_nat (length pre))
       ((fun it : Z * target => "v" +:+ str it.1 +:+ "o")
          <$> enumerate_from (Z.of_nat (length pre)) suf))
  = Val (cmd ++ concat ((fun it : Z * target => dash_rung_args vcodec dar_str it.1 it.2)
                          <$> enumerate_from (Z.of_nat (length pre)) suf)).
Proof.
  intros Ht Hall. revert pre cmd Ht.
  induction Hall as [|t suf Hbr _ IH]; intros pre cmd Ht.
  - cbn. rewrite app_nil_r. reflexivity.
  - cbn [enumerate_from fmap list_fmap fold_result fst snd concat].
    unfold dash_rung at 1. rewrite Nat2Z.id, Ht, list_lookup_middle by reflexivity.
    cbn [of_option rbind]. cbn zeta.
    destruct (maxrate_exact _ Hbr) as [Hm _].
    destruct (py_mul_int_float (t_br t) f107) as [x|]; [|discriminate Hm].
    cbn [rbind] in Hm |- *. rewrite Hm. cbn [rbind].
    specialize (IH (pre ++ [t])).
    rewrite length_app, Nat2Z.inj_add in IH. cbn [length] in IH.
    change (Z.of_nat 1) with 1 in IH.
    rewrite <- Ht. rewrite IH by (rewrite <- app_assoc; exact Ht).
    f_equal. rewrite app_assoc. f_equal.
    unfold dash_rung_args. cbn zeta. cbn [fst snd].
    replace (107 * t_br t / 100 * 2) with (2 * (107 * t_br t / 100)) by lia.
    rewrite label_bracket. rewrite <- ?app_assoc. reflexivity.
Qed.

(** X24.  For every ladder [build_targets] returns, [main] builds the HLS and
    the DASH command without an exception: no [targets[i]] is out of range
    and no float conversion fails.  Each command is the common head followed
    by one block of options per rendition, in ladder order, in which
    [-maxrate] is exactly 107/100 of the bitrate (the float product
    [br * 1.07] loses nothing) and [-bufsize] is twice the maximum rate; the
    DASH command ends with the manifest name [<base>.mpd]. *)
Theorem encoder_commands_exact rs mode sw sh targets ffmpeg inp vcodec dar_str hls_dir
    encrypt base :
  build_targets rs mode sw sh = Val targets ->
  let fc := (build_filter_complex_for_targets targets).1 in
  let head := [ffmpeg; "-hide_banner"; "-y"; "-i"; inp; "-filter_complex"; fc] in
  hls_command ffmpeg inp vcodec dar_str hls_dir encrypt targets
  = Val (head ++ concat ((fun it : Z * target =>
                            hls_rung_args vcodec dar_str hls_dir encrypt it.1 it.2)
                           <$> enumerate targets)) /\
  dash_command ffmpeg inp vcodec dar_str base targets
  = Val (head ++ concat ((fun it : Z * target => dash_rung_args vcodec dar_str it.1 it.2)
                           <$> enumerate targets)
         ++ [ "-f"; "dash"; "-use_timeline"; "1"; "-use_template"; "1";
              "-seg_duration"; "4";
              "-adaptation_sets"; "id=0,streams=v id=1,streams=a";
              "-init_seg_name"; "$RepresentationID$/init.m4s";
              "-media_seg_name"; "$RepresentationID$/chunk_$Number%05d$.m4s";
              base +:+ ".mpd" ]) /\
  forall t, t ∈ targets -> 100 * (107 * t_br t / 100) = 107 * t_br t.
Proof.
  intros Hb fc head.
  assert (Hall : Forall (fun t => t_br t ∈ [12000000; 8000000; 5000000; 2800000; 1400000])
                   targets).
  { apply Forall_forall. intros t Ht. eapply ladder_bitrate; eassumption. }
  split; [|split].
  - unfold hls_command, build_filter_complex_for_targets. cbn zeta.
    apply (hls_fold vcodec dar_str hls_dir encrypt targets [] targets); [reflexivity|].
    exact Hall.
  - unfold dash_command, build_filter_complex_for_targets. cbn zeta.
    unfold enumerate.
    rewrite (dash_fold vcodec dar_str targets [] targets) by (reflexivity || exact Hall).
    cbn [rbind]. rewrite <- app_assoc. reflexivity.
  - intros t Ht. rewrite Forall_forall in Hall. apply maxrate_exact, Hall, Ht.
Qed.

Lemma encoder_commands_exact_witness :
  exists cmd,
    hls_command "ffmpeg" "in.mp4" "libx264" "16:9" "out/in/HLS" false
      [Target 1280 720 2800000 "720p"; Target 854 480 1400000 "480p"] = Val cmd /\
    cmd !! 16%nat = Some "2996000".
Proof.
  destruct (encoder_commands_exact ["720"; "480"] "fixed" 1920 1080
              [Target 1280 720 2800000 "720p"; Target 854 480 1400000 "480p"]
              "ffmpeg" "in.mp4" "libx264" "16:9" "out/in/HLS" false "in")
    as (H & _ & _); [vm_compute; reflexivity|].
  eexists. split; [exact H|]. vm_compute. reflexivity.
Defined.

(* ================================================================== *)
(** ** From the check boxes to the ladder *)
(* ================================================================== *)

Lemma sort_desc_id l : StronglySorted taller_eq l -> sort_desc l = l.
Proof.
  induction 1 as [|x l Hs IH Hx]; [reflexivity|].
  cbn [sort_desc]. rewrite IH. destruct l as [|y l]; [reflexivity|].
  cbn [insert_desc]. apply Forall_cons in Hx as [Hy _]. unfold taller_eq in Hy.
  destruct (Z.leb_spec (t_h y) (t_h x)); [reflexivity|lia].
Qed.

Lemma sorted_of_heights l :
  StronglySorted (fun a b : Z => b <= a) (t_h <$> l) -> StronglySorted taller_eq l.
Proof.
  induction l as [|x l IH]; [constructor|].
  rewrite fmap_cons. intros H. apply StronglySorted_inv in H as [Hs Hx].
  constructor; [apply IH, Hs|].
  clear -Hx. induction l as [|y l IH]; [constructor|].
  rewrite fmap_cons in Hx. apply Forall_cons in Hx as [H1 H2].
  constructor; [exact H1|apply IH, H2].
Qed.

(** X25.  From the check boxes to the ladder: when [--renditions] carries what
    the GUI joins from its ticked boxes, [main] of [encode.py] reads back
    exactly the ticked names, and every ladder it then builds has one
    rendition per ticked box, of that box's height, tallest first and
    strictly descending; with at least one box ticked the ladder is not
    empty, so the job does not stop for want of renditions. *)
Theorem gui_renditions_ladder E c2160 c1440 c1080 c720 c480 :
  a_renditions (e_args E) = renditions_arg (gui_renditions c2160 c1440 c1080 c720 c480) ->
  job_renditions E = gui_renditions c2160 c1440 c1080 c720 c480 /\
  forall targets, job_targets E = Val targets ->
    t_h <$> targets
    = omap entry_height (gui_renditions c2160 c1440 c1080 c720 c480) /\
    length targets = length (gui_renditions c2160 c1440 c1080 c720 c480) /\
    StronglySorted taller targets /\
    (c2160 || c1440 || c1080 || c720 || c480 = true -> targets <> []).
Proof.
  intros Ha.
  assert (Hr : job_renditions E = gui_renditions c2160 c1440 c1080 c720 c480).
  { unfold job_renditions. rewrite Ha.
    destruct c2160, c1440, c1080, c720, c480; vm_compute; reflexivity. }
  split; [exact Hr|]. intros targets Ht.
  destruct (job_targets_val E targets Ht) as (w & h & _ & Hb). rewrite Hr in Hb.
  destruct (build_targets_val _ _ _ _ _ Hb) as (t & -> & He & _).
  pose proof (entries_of_heights _ _ He) as Hh.
  assert (Hs : StronglySorted taller_eq t).
  { apply sorted_of_heights. rewrite Hh.
    destruct c2160, c1440, c1080, c720, c480; vm_compute;
      repeat (constructor; try discriminate). }
  rewrite (sort_desc_id t Hs).
  assert (Hnd : NoDup (t_h <$> t)).
  { rewrite Hh. apply omap_entry_height_nodup.
    destruct c2160, c1440, c1080, c720, c480; apply (bool_decide_unpack _);
      vm_compute; exact I. }
  assert (Hl : length t = length (gui_renditions c2160 c1440 c1080 c720 c480)).
  { rewrite <- (length_fmap t_h), Hh.
    destruct c2160, c1440, c1080, c720, c480; reflexivity. }
  split; [exact Hh|]. split; [exact Hl|]. split; [apply sorted_nodup_strict; assumption|].
  intros Hc Hn. rewrite Hn in Hl.
  destruct c2160, c1440, c1080, c720, c480; discriminate.
Qed.

Lemma gui_renditions_ladder_witness :
  let E := sample_env "1080,720" (fun _ _ => true) DurUnparsable in
  job_renditions E = ["1080"; "720"] /\
  forall targets, job_targets E = Val targets -> t_h <$> targets = [1080; 720].
Proof.
  cbn zeta.
  destruct (gui_renditions_ladder (sample_env "1080,720" (fun _ _ => true) DurUnparsable)
              false false true true false) as [H1 H2]; [reflexivity|].
  split; [exact H1|]. intros targets Ht. destruct (H2 targets Ht) as (Hh & _). exact Hh.
Defined.
